(** * Birthday bot: store, directory resolver, poem generator, thread poster
      and daily scheduler, embedded from the JavaScript sources.

    Part I holds the embedding: the JavaScript built-ins the code relies
    on ([JS], [JSDate]), then one module per source: [Database]
    (database.js), [Service] (the birthday service: poem, collection and
    thread), [Cron] (birthday-cron.js) and [Commands] (commands.js). The
    modules [Store], [Calendar] and [Directory] hold the notions of the
    specification the properties are stated with, [Logic] the
    specifications of computations, [Examples] the concrete inputs,
    [Integrity] the constraints of the schema and [Trace] the record of
    what a computation sends out.
    Part II holds the properties: C1 to C10, then X1 to X20 on the code
    around them.

    Conventions of the embedding:
    - JavaScript strings are [string] (byte strings); [toLowerCase] and
      [trim] act on the ASCII range;
    - a property that may be undefined or null is an [option];
    - a JavaScript [Date] is its time value, a [Z] of milliseconds since
      the epoch; the calendar functions are those of ECMA-262 (Day,
      DayFromYear, YearFromTime, MonthFromTime, DateFromTime, MakeDay);
    - the time zone of the host process is a pair of offset functions;
    - SQLite tables are lists of row records in rowid order, and
      [CURRENT_TIMESTAMP] is a number of seconds; the order of rows that
      an [ORDER BY] leaves tied is the engine's, a parameter of the
      store;
    - the [userCache] map is a [gmap];
    - asynchronous code is sequential state passing over a [world] with an
      exception outcome; the chat platform and the text generation service
      are functions of the calls made so far. *)

From stdpp Require Import base gmap strings.
From Stdlib Require Import ZArith List String Ascii Bool Lia DecimalString.
From Stdlib Require Import Sorted Permutation.
Import ListNotations.
Local Open Scope string_scope.
Local Open Scope list_scope.
Local Open Scope Z_scope.

(* ===================================================================== *)
(** * Part I: the embedding                                               *)
(* ===================================================================== *)

(** ** JavaScript strings *)
Module JS.

Definition is_upper (c : ascii) : bool :=
  let n := N_of_ascii c in (65 <=? n)%N && (n <=? 90)%N.

Definition lower_char (c : ascii) : ascii :=
  if is_upper c then ascii_of_N (N_of_ascii c + 32) else c.

(** [String.prototype.toLowerCase]. *)
Fixpoint toLowerCase (s : string) : string :=
  match s with
  | EmptyString => EmptyString
  | String c r => String (lower_char c) (toLowerCase r)
  end.

(** White space of [trim] and [parseInt]: TAB, LF, VT, FF, CR, SP. The
    white space outside ASCII, which is several bytes long, is kept. *)
Definition is_space (c : ascii) : bool :=
  let n := N_of_ascii c in ((9 <=? n)%N && (n <=? 13)%N) || (n =? 32)%N.

Fixpoint trimStart (s : string) : string :=
  match s with
  | EmptyString => EmptyString
  | String c r => if is_space c then trimStart r else s
  end.

Fixpoint trimEnd (s : string) : string :=
  match s with
  | EmptyString => EmptyString
  | String c r =>
      match trimEnd r with
      | EmptyString => if is_space c then EmptyString else String c EmptyString
      | r' => String c r'
      end
  end.

(** [String.prototype.trim]. *)
Definition trim (s : string) : string := trimEnd (trimStart s).

(** [s.split(sep)] for a one-character separator: never empty. *)
Fixpoint split (sep : ascii) (s : string) : list string :=
  match s with
  | EmptyString => [EmptyString]
  | String c r =>
      if Ascii.eqb c sep then EmptyString :: split sep r
      else match split sep r with
           | [] => [String c EmptyString]
           | h :: t => String c h :: t
           end
  end.

(** Truthiness of a string: the empty string is falsy. *)
Definition truthy (s : string) : bool :=
  match s with EmptyString => false | _ => true end.

(** Truthiness of a property that may be undefined or null. *)
Definition truthy_opt (o : option string) : bool :=
  match o with Some s => truthy s | None => false end.

Definition digit_value (radix : Z) (c : ascii) : option Z :=
  let n := Z.of_N (N_of_ascii c) in
  let v := if (48 <=? n) && (n <=? 57) then n - 48
           else if (97 <=? n) && (n <=? 122) then n - 87
           else if (65 <=? n) && (n <=? 90) then n - 55
           else 36 in
  if v <? radix then Some v else None.

(** Longest prefix of digits, most significant first; [None] when the
    prefix is empty. *)
Fixpoint digits_prefix (radix : Z) (s : string) (acc : option Z) : option Z :=
  match s with
  | EmptyString => acc
  | String c r =>
      match digit_value radix c with
      | Some v =>
          digits_prefix radix r
            (Some (match acc with Some a => a * radix + v | None => v end))
      | None => acc
      end
  end.

Definition strip_sign (s : string) : bool * string :=
  match s with
  | String "-" r => (true, r)
  | String "+" r => (false, r)
  | _ => (false, s)
  end.

Definition strip_hex_prefix (s : string) : option string :=
  match s with
  | String "0" (String "x" r) => Some r
  | String "0" (String "X" r) => Some r
  | _ => None
  end.

(** [parseInt(s)] without a radix; [None] is NaN. The result is exact,
    where JavaScript rounds beyond 2^53. *)
Definition parseInt (s : string) : option Z :=
  let (neg, body) := strip_sign (trimStart s) in
  let magnitude :=
    match strip_hex_prefix body with
    | Some r => digits_prefix 16 r None
    | None => digits_prefix 10 body None
    end in
  match magnitude with
  | Some m => Some (if neg then - m else m)
  | None => None
  end.

(** [parseInt(a[i])]: a missing element is [undefined], which parses to
    NaN. *)
Definition parseInt_at (a : list string) (i : nat) : option Z :=
  match nth_error a i with
  | Some s => parseInt s
  | None => None
  end.

(** [Math.round(n / d)] for integers [n] and [d > 0]: the nearest integer,
    a tie going up. *)
Definition Math_round_div (n d : Z) : Z := (2 * n + d) / (2 * d).

End JS.

(** ** JavaScript dates (ECMA-262, "Date objects")

    Time values are integers of any size: the clipping of ECMA-262
    (TimeClip, which makes a Date beyond 8.64e15 ms invalid) is left out,
    so a birth date with an absurd day number gives a far day here and
    an invalid Date, hence no offset, in JavaScript. *)
Module JSDate.

Definition msPerDay : Z := 86400000.

Definition Day (t : Z) : Z := t / msPerDay.
Definition TimeWithinDay (t : Z) : Z := t mod msPerDay.

Definition DaysInYear (y : Z) : Z :=
  if negb (y mod 4 =? 0) then 365
  else if negb (y mod 100 =? 0) then 366
  else if negb (y mod 400 =? 0) then 365
  else 366.

Definition DayFromYear (y : Z) : Z :=
  365 * (y - 1970) + (y - 1969) / 4 - (y - 1901) / 100 + (y - 1601) / 400.

(** The year of a day number: the largest [y] with [DayFromYear y <= d],
    found from an estimate that is off by at most one. *)
Definition YearFromDay (d : Z) : Z :=
  let y0 := 1970 + (400 * d) / 146097 in
  if d <? DayFromYear y0 then y0 - 1
  else if DayFromYear (y0 + 1) <=? d then y0 + 1
  else y0.

Definition YearFromTime (t : Z) : Z := YearFromDay (Day t).

Definition InLeapYear_year (y : Z) : Z :=
  if DaysInYear y =? 366 then 1 else 0.

Definition InLeapYear (t : Z) : Z := InLeapYear_year (YearFromTime t).

Definition DayWithinYear (t : Z) : Z := Day t - DayFromYear (YearFromTime t).

(** Month 0 to 11 of a day within the year, [leap] being 0 or 1. *)
Definition month_of_yday (dwy leap : Z) : Z :=
  if dwy <? 31 then 0
  else if dwy <? 59 + leap then 1
  else if dwy <? 90 + leap then 2
  else if dwy <? 120 + leap then 3
  else if dwy <? 151 + leap then 4
  else if dwy <? 181 + leap then 5
  else if dwy <? 212 + leap then 6
  else if dwy <? 243 + leap then 7
  else if dwy <? 273 + leap then 8
  else if dwy <? 304 + leap then 9
  else if dwy <? 334 + leap then 10
  else 11.

(** Day within the year on which month [m] (0 to 11) starts. *)
Definition month_start (m leap : Z) : Z :=
  if m =? 0 then 0
  else if m =? 1 then 31
  else if m =? 2 then 59 + leap
  else if m =? 3 then 90 + leap
  else if m =? 4 then 120 + leap
  else if m =? 5 then 151 + leap
  else if m =? 6 then 181 + leap
  else if m =? 7 then 212 + leap
  else if m =? 8 then 243 + leap
  else if m =? 9 then 273 + leap
  else if m =? 10 then 304 + leap
  else 334 + leap.

Definition MonthFromTime (t : Z) : Z :=
  month_of_yday (DayWithinYear t) (InLeapYear t).

Definition DateFromTime (t : Z) : Z :=
  DayWithinYear t - month_start (MonthFromTime t) (InLeapYear t) + 1.

(** [MakeDay(year, month, date)]: months and dates out of range carry
    over. *)
Definition MakeDay (year month date : Z) : Z :=
  let ym := year + month / 12 in
  let mn := month mod 12 in
  DayFromYear ym + month_start mn (InLeapYear_year ym) + date - 1.

Definition MakeDate (day time : Z) : Z := day * msPerDay + time.

(** The host's time zone: the offset of local time from UTC, in
    milliseconds, seen from a UTC time value and from a local one. *)
Record timezone : Type := {
  LocalTZA_utc : Z -> Z;
  LocalTZA_local : Z -> Z
}.

Definition LocalTime (tz : timezone) (t : Z) : Z := t + LocalTZA_utc tz t.
Definition UTC (tz : timezone) (t : Z) : Z := t - LocalTZA_local tz t.

(** The constructor reads a year from 0 to 99 as a year of the
    twentieth century. *)
Definition full_year (year : Z) : Z :=
  if (0 <=? year) && (year <=? 99) then 1900 + year else year.

(** [new Date(year, monthIndex, day)]. *)
Definition new_Date (tz : timezone) (year month date : Z) : Z :=
  UTC tz (MakeDate (MakeDay (full_year year) month date) 0).

(** [new Date(s)] for a string [s] without a zone, already read as the
    wall-clock value [wall]: it is taken as local time. *)
Definition new_Date_wall (tz : timezone) (wall : Z) : Z := UTC tz wall.

Definition getFullYear (tz : timezone) (tv : Z) : Z :=
  YearFromTime (LocalTime tz tv).
Definition getMonth (tz : timezone) (tv : Z) : Z :=
  MonthFromTime (LocalTime tz tv).
Definition getDate (tz : timezone) (tv : Z) : Z :=
  DateFromTime (LocalTime tz tv).

(** [d.setHours(0, 0, 0, 0)]. *)
Definition setHours0 (tz : timezone) (tv : Z) : Z :=
  UTC tz (MakeDate (Day (LocalTime tz tv)) 0).

(** [d.setFullYear(y)]. *)
Definition setFullYear (tz : timezone) (tv y : Z) : Z :=
  let t := LocalTime tz tv in
  UTC tz (MakeDate (MakeDay y (MonthFromTime t) (DateFromTime t))
                   (TimeWithinDay t)).

(** A host running on UTC. *)
Definition tz_UTC : timezone :=
  {| LocalTZA_utc := fun _ => 0; LocalTZA_local := fun _ => 0 |}.

End JSDate.

(** ** Exceptions *)

Inductive js_error : Type :=
| TypeError (msg : string)
| SqliteError (code : string)
| ApiError (msg : string).

Inductive outcome (A : Type) : Type :=
| Returned (a : A)
| Thrown (e : js_error).
Arguments Returned {A} a.
Arguments Thrown {A} e.

(** ** database.js: the store *)
Module Database.

(** SQLite's [CURRENT_TIMESTAMP] is kept as seconds since the epoch (UTC);
    [DATE(ts)] is then the day number. *)
Definition DATE (ts : Z) : Z := ts / 86400.

(** Table [birthdays]. *)
Record birthday_row : Type := {
  user_id : string;
  birth_date : string;
  created_at : Z;
  updated_at : Z;
  notification_sent : bool;
  last_notification_date : option Z
}.

(** Table [birthday_messages]. *)
Record message_row : Type := {
  bm_id : Z;
  bm_celebrant_id : string;
  bm_sender_id : string;
  bm_sender_name : string;
  bm_message : string;
  bm_media_url : option string;
  bm_created_at : Z;
  bm_sent_in_thread : bool
}.

(** Table [description_messages]. *)
Record description_row : Type := {
  dm_id : Z;
  dm_celebrant_id : string;
  dm_sender_id : string;
  dm_sender_name : string;
  dm_message : string;
  dm_created_at : Z;
  dm_sent_in_thread : bool
}.

(** The columns the two message tables share, and the effect of
    [SET sent_in_thread = TRUE] on a row. *)
Class MsgRow (R : Type) : Type := {
  celebrant_id : R -> string;
  sender_id : R -> string;
  sender_name : R -> string;
  message : R -> string;
  msg_created_at : R -> Z;
  sent_in_thread : R -> bool;
  set_sent : R -> R;
  sent_set_sent : forall r, sent_in_thread (set_sent r) = true;
  celebrant_set_sent : forall r, celebrant_id (set_sent r) = celebrant_id r;
  sender_set_sent : forall r, sender_id (set_sent r) = sender_id r;
  message_set_sent : forall r, message (set_sent r) = message r;
  created_set_sent : forall r, msg_created_at (set_sent r) = msg_created_at r
}.

#[export] Instance message_MsgRow : MsgRow message_row := {|
  celebrant_id := bm_celebrant_id;
  sender_id := bm_sender_id;
  sender_name := bm_sender_name;
  message := bm_message;
  msg_created_at := bm_created_at;
  sent_in_thread := bm_sent_in_thread;
  set_sent := fun r =>
    {| bm_id := bm_id r; bm_celebrant_id := bm_celebrant_id r;
       bm_sender_id := bm_sender_id r; bm_sender_name := bm_sender_name r;
       bm_message := bm_message r; bm_media_url := bm_media_url r;
       bm_created_at := bm_created_at r; bm_sent_in_thread := true |};
  sent_set_sent := fun r => eq_refl;
  celebrant_set_sent := fun r => eq_refl;
  sender_set_sent := fun r => eq_refl;
  message_set_sent := fun r => eq_refl;
  created_set_sent := fun r => eq_refl
|}.

#[export] Instance description_MsgRow : MsgRow description_row := {|
  celebrant_id := dm_celebrant_id;
  sender_id := dm_sender_id;
  sender_name := dm_sender_name;
  message := dm_message;
  msg_created_at := dm_created_at;
  sent_in_thread := dm_sent_in_thread;
  set_sent := fun r =>
    {| dm_id := dm_id r; dm_celebrant_id := dm_celebrant_id r;
       dm_sender_id := dm_sender_id r; dm_sender_name := dm_sender_name r;
       dm_message := dm_message r;
       dm_created_at := dm_created_at r; dm_sent_in_thread := true |};
  sent_set_sent := fun r => eq_refl;
  celebrant_set_sent := fun r => eq_refl;
  sender_set_sent := fun r => eq_refl;
  message_set_sent := fun r => eq_refl;
  created_set_sent := fun r => eq_refl
|}.

Record db : Type := {
  birthdays : list birthday_row;
  birthday_messages : list message_row;
  description_messages : list description_row;
  (** [sqlite_sequence]: the largest id handed out by AUTOINCREMENT *)
  seq_birthday_messages : Z;
  seq_description_messages : Z;
  (** the engine's order among rows of one [created_at], which
      [ORDER BY created_at] leaves open: [tie r x] is [true] when the
      engine lists [r] before [x] *)
  tie_birthday_messages : message_row -> message_row -> bool;
  tie_description_messages : description_row -> description_row -> bool
}.

Definition set_birthdays (d : db) (l : list birthday_row) : db :=
  {| birthdays := l;
     birthday_messages := birthday_messages d;
     description_messages := description_messages d;
     seq_birthday_messages := seq_birthday_messages d;
     seq_description_messages := seq_description_messages d;
     tie_birthday_messages := tie_birthday_messages d;
     tie_description_messages := tie_description_messages d |}.

Definition set_birthday_messages (d : db) (l : list message_row) (sq : Z) : db :=
  {| birthdays := birthdays d;
     birthday_messages := l;
     description_messages := description_messages d;
     seq_birthday_messages := sq;
     seq_description_messages := seq_description_messages d;
     tie_birthday_messages := tie_birthday_messages d;
     tie_description_messages := tie_description_messages d |}.

Definition set_description_messages (d : db) (l : list description_row) (sq : Z)
  : db :=
  {| birthdays := birthdays d;
     birthday_messages := birthday_messages d;
     description_messages := l;
     seq_birthday_messages := seq_birthday_messages d;
     seq_description_messages := sq;
     tie_birthday_messages := tie_birthday_messages d;
     tie_description_messages := tie_description_messages d |}.

(** *** Table [birthdays] *)

Definition COALESCE (v : option string) (dflt : string) : string :=
  match v with Some s => s | None => dflt end.

(** [INSERT OR REPLACE INTO birthdays (user_id, birth_date, updated_at,
    notification_sent, last_notification_date) VALUES (?, COALESCE(?,
    '1900-01-01'), CURRENT_TIMESTAMP, FALSE, NULL)]: the row that holds
    the primary key is deleted, then the new row is inserted;
    [created_at] takes its default. *)
Definition insertBirthday (d : db) (now : Z) (uid : string)
  (date : option string) : db :=
  set_birthdays d
    (List.filter (fun r => negb (String.eqb (user_id r) uid)) (birthdays d)
     ++ [ {| user_id := uid;
             birth_date := COALESCE date "1900-01-01";
             created_at := now;
             updated_at := now;
             notification_sent := false;
             last_notification_date := None |} ]).

(** [SELECT * FROM birthdays WHERE user_id = ?] read with [.get]. *)
Definition getBirthday (d : db) (uid : string) : option birthday_row :=
  List.find (fun r => String.eqb (user_id r) uid) (birthdays d).

(** [SELECT * FROM birthdays] read with [.all]. *)
Definition getAllBirthdays (d : db) : list birthday_row := birthdays d.

(** [UPDATE birthdays SET last_notification_date = DATE('now')
    WHERE user_id = ?]. *)
Definition updateLastNotificationDate (d : db) (now : Z) (uid : string) : db :=
  set_birthdays d
    (List.map (fun r =>
       if String.eqb (user_id r) uid then
         {| user_id := user_id r; birth_date := birth_date r;
            created_at := created_at r; updated_at := updated_at r;
            notification_sent := notification_sent r;
            last_notification_date := Some (DATE now) |}
       else r) (birthdays d)).

(** [SELECT COUNT( * ) as count FROM birthdays WHERE user_id = ?]. *)
Definition checkUserExists (d : db) (uid : string) : Z :=
  Z.of_nat (List.length
    (List.filter (fun r => String.eqb (user_id r) uid) (birthdays d))).

(** *** The two message tables *)
Section MessageTable.
Context {R : Type} `{MsgRow R}.

(** The unique index on
    [(celebrant_id, sender_id, message, DATE(created_at))]. *)
Definition same_key (a b : R) : bool :=
  String.eqb (celebrant_id a) (celebrant_id b)
  && String.eqb (sender_id a) (sender_id b)
  && String.eqb (message a) (message b)
  && (DATE (msg_created_at a) =? DATE (msg_created_at b)).

(** The indexed columns of a row. *)
Definition key_of (r : R) : string * string * string * Z :=
  (celebrant_id r, sender_id r, message r, DATE (msg_created_at r)).

(** What the unique index maintains: no two rows with one key. *)
Definition unique_index (rows : list R) : Prop :=
  NoDup (List.map key_of rows).

(** [INSERT OR IGNORE] of the row [r]: a row that collides on the unique
    index is dropped and no row changes. *)
Definition insert_or_ignore (rows : list R) (r : R) : list R * Z :=
  if List.existsb (same_key r) rows then (rows, 0) else (rows ++ [r], 1).

(** [r] comes before [x] under [ORDER BY created_at ASC]: by an
    earlier [created_at], or, the two being equal, by the engine's
    choice [tie]. *)
Definition comes_before (tie : R -> R -> bool) (r x : R) : bool :=
  (msg_created_at r <? msg_created_at x)
  || ((msg_created_at r =? msg_created_at x) && tie r x).

(** Insertion of [r] before the first row it comes before. *)
Fixpoint insert_by_created_at (tie : R -> R -> bool) (r : R) (l : list R)
  : list R :=
  match l with
  | [] => [r]
  | x :: t =>
      if comes_before tie r x then r :: l
      else x :: insert_by_created_at tie r t
  end.

Definition order_by_created_at (tie : R -> R -> bool) (l : list R) : list R :=
  List.fold_left (fun acc r => insert_by_created_at tie r acc) l [].

Definition unsent_for (cid : string) (r : R) : bool :=
  String.eqb (celebrant_id r) cid && negb (sent_in_thread r).

(** [SELECT * ... WHERE celebrant_id = ? AND sent_in_thread = FALSE
    ORDER BY created_at ASC]; the statement names no second column, and
    rows of one second come in the order [tie] of the engine. *)
Definition select_unsent (tie : R -> R -> bool) (rows : list R) (cid : string)
  : list R :=
  order_by_created_at tie (List.filter (unsent_for cid) rows).

(** An engine that lists rows of one second in rowid order. *)
Definition by_rowid (r x : R) : bool := false.

(** [SELECT COUNT( * ) ... WHERE celebrant_id = ? AND sent_in_thread =
    FALSE]. *)
Definition count_unsent (rows : list R) (cid : string) : Z :=
  Z.of_nat (List.length (List.filter (unsent_for cid) rows)).

(** [UPDATE ... SET sent_in_thread = TRUE WHERE celebrant_id = ? AND
    sent_in_thread = FALSE], with the number of rows changed. *)
Definition mark_sent (rows : list R) (cid : string) : list R * Z :=
  (List.map (fun r => if unsent_for cid r then set_sent r else r) rows,
   count_unsent rows cid).

End MessageTable.

(** The foreign key [celebrant_id REFERENCES birthdays(user_id)], with
    [foreign_keys = ON]. *)
Definition celebrant_known (d : db) (cid : string) : bool :=
  List.existsb (fun r => String.eqb (user_id r) cid) (birthdays d).

(** [INSERT OR IGNORE INTO birthday_messages (celebrant_id, sender_id,
    sender_name, message, media_url) VALUES (?, ?, ?, ?, ?)], run with
    [.run]: the result is the number of rows changed. The id is taken
    from the sequence before the unique index is looked at, so that an
    ignored row uses one up. OR IGNORE does not cover the foreign key,
    whose violation throws and undoes the statement. *)
Definition insertBirthdayMessage (d : db) (now : Z)
  (cid sid sname msg : string) (media : option string) : outcome Z * db :=
  if celebrant_known d cid then
    let id := seq_birthday_messages d + 1 in
    let row := {| bm_id := id; bm_celebrant_id := cid; bm_sender_id := sid;
                  bm_sender_name := sname; bm_message := msg;
                  bm_media_url := media; bm_created_at := now;
                  bm_sent_in_thread := false |} in
    let (rows, changes) := insert_or_ignore (birthday_messages d) row in
    (Returned changes, set_birthday_messages d rows id)
  else (Thrown (SqliteError "SQLITE_CONSTRAINT_FOREIGNKEY"), d).

Definition getBirthdayMessages (d : db) (cid : string) : list message_row :=
  select_unsent (tie_birthday_messages d) (birthday_messages d) cid.

Definition getBirthdayMessageCount (d : db) (cid : string) : Z :=
  count_unsent (birthday_messages d) cid.

Definition markMessagesAsSent (d : db) (cid : string) : Z * db :=
  let (rows, changes) := mark_sent (birthday_messages d) cid in
  (changes, set_birthday_messages d rows (seq_birthday_messages d)).

(** [INSERT OR IGNORE INTO description_messages (celebrant_id, sender_id,
    sender_name, message) VALUES (?, ?, ?, ?)]. *)
Definition insertDescriptionMessage (d : db) (now : Z)
  (cid sid sname msg : string) : outcome Z * db :=
  if celebrant_known d cid then
    let id := seq_description_messages d + 1 in
    let row := {| dm_id := id; dm_celebrant_id := cid; dm_sender_id := sid;
                  dm_sender_name := sname; dm_message := msg;
                  dm_created_at := now; dm_sent_in_thread := false |} in
    let (rows, changes) := insert_or_ignore (description_messages d) row in
    (Returned changes, set_description_messages d rows id)
  else (Thrown (SqliteError "SQLITE_CONSTRAINT_FOREIGNKEY"), d).

Definition getDescriptionMessages (d : db) (cid : string)
  : list description_row :=
  select_unsent (tie_description_messages d) (description_messages d) cid.

Definition markDescriptionMessagesAsSent (d : db) (cid : string) : Z * db :=
  let (rows, changes) := mark_sent (description_messages d) cid in
  (changes, set_description_messages d rows (seq_description_messages d)).

(** The keys of the exported [statements] object. *)
Inductive statement : Type :=
| st_insertBirthday
| st_getBirthday
| st_getAllBirthdays
| st_updateLastNotificationDate
| st_insertBirthdayMessage
| st_getBirthdayMessages
| st_getBirthdayMessageCount
| st_markMessagesAsSent
| st_insertDescriptionMessage
| st_getDescriptionMessages
| st_markDescriptionMessagesAsSent
| st_checkUserExists.

(** [statements[key]]: [None] is [undefined]. *)
Definition statements (key : string) : option statement :=
  if String.eqb key "insertBirthday" then Some st_insertBirthday
  else if String.eqb key "getBirthday" then Some st_getBirthday
  else if String.eqb key "getAllBirthdays" then Some st_getAllBirthdays
  else if String.eqb key "updateLastNotificationDate"
  then Some st_updateLastNotificationDate
  else if String.eqb key "insertBirthdayMessage"
  then Some st_insertBirthdayMessage
  else if String.eqb key "getBirthdayMessages" then Some st_getBirthdayMessages
  else if String.eqb key "getBirthdayMessageCount"
  then Some st_getBirthdayMessageCount
  else if String.eqb key "markMessagesAsSent" then Some st_markMessagesAsSent
  else if String.eqb key "insertDescriptionMessage"
  then Some st_insertDescriptionMessage
  else if String.eqb key "getDescriptionMessages"
  then Some st_getDescriptionMessages
  else if String.eqb key "markDescriptionMessagesAsSent"
  then Some st_markDescriptionMessagesAsSent
  else if String.eqb key "checkUserExists" then Some st_checkUserExists
  else None.

(** [st.run(arg)] with one text argument. A statement with another
    number of parameters refuses the call, and so does a SELECT, which
    [.run] does not accept. *)
Definition run1 (st : statement) (d : db) (now : Z) (arg : string)
  : outcome Z * db :=
  match st with
  | st_updateLastNotificationDate =>
      (Returned (checkUserExists d arg), updateLastNotificationDate d now arg)
  | st_markMessagesAsSent =>
      let (n, d') := markMessagesAsSent d arg in (Returned n, d')
  | st_markDescriptionMessagesAsSent =>
      let (n, d') := markDescriptionMessagesAsSent d arg in (Returned n, d')
  | st_insertBirthday | st_insertBirthdayMessage
  | st_insertDescriptionMessage =>
      (Thrown (TypeError "Too few parameter values were provided"), d)
  | _ =>
      (Thrown (TypeError ("This statement returns data. "
                          +:+ "Use get(), all(), or iterate() instead")), d)
  end.

End Database.

(** ** The chat platform, the text generation service and the host *)
Module Slack.

Record profile : Type := {
  real_name_normalized : option string;
  display_name_normalized : option string;
  first_name : option string;
  last_name : option string
}.

(** A member of [users.list]; [m_id] and [m_name] are the fields [id] and
    [name]. *)
Record member : Type := {
  m_id : string;
  m_name : string;
  deleted : bool;
  is_bot : bool;
  is_restricted : bool;
  is_ultra_restricted : bool;
  real_name : option string;
  m_profile : option profile
}.

(** The answer of [users.list]; [next_cursor] is
    [response_metadata.next_cursor], [None] when either is missing. *)
Record users_response : Type := {
  members : list member;
  next_cursor : option string
}.

(** The arguments of [chat.postMessage]; the [blocks] payload is left
    out. *)
Record post : Type := {
  channel : string;
  thread_ts : option string;
  text : string
}.

Record post_response : Type := { ts : string }.

Record open_response : Type := { ok : bool }.

(** A content block of the generated message; [block_text] is its [text]
    property, absent on blocks that are not text. *)
Record content_block : Type := { block_text : option string }.

Record completion : Type := { content : list content_block }.

End Slack.

(** ** Asynchronous code as state passing *)
Module Effects.
Import Slack.

(** The calls made to the outside, most recent first. *)
Inductive api_call : Type :=
| UsersList (cursor : option string)
| ConversationsOpen (users : string)
| PostMessage (p : post)
| MessagesCreate (prompt : string)
| Delay (ms : Z).

Inductive console_line : Type :=
| console_log (msg : string) (arg : option js_error)
| console_error (msg : string) (e : js_error).

Record cache_entry : Type := {
  cached_user : option member;
  timestamp : Z
}.

(** What the program holds: the database file, the [userCache] map, and
    the record of what it has sent out and logged. *)
Record world : Type := {
  w_db : Database.db;
  w_cache : gmap string cache_entry;
  w_calls : list api_call;
  w_console : list console_line
}.

(** The outside: each answer may depend on the calls made so far. A
    [Thrown] answer is a rejected promise (error response, timeout). *)
Record env : Type := {
  users_list : list api_call -> option string -> outcome users_response;
  conversations_open : list api_call -> string -> outcome open_response;
  chat_postMessage : list api_call -> post -> outcome post_response;
  messages_create : list api_call -> string -> outcome completion;
  (** [Date.now()], in milliseconds *)
  date_now : list api_call -> Z;
  (** the wall clock of Europe/London as a time value, as printed by
      [toLocaleString] *)
  london_wall : list api_call -> Z;
  host_tz : JSDate.timezone;
  BIRTHDAY_CHANNEL : string;
  ADMIN_CHANNEL : string
}.

(** A computation: it ends by returning or by throwing, and in both
    cases leaves a world behind. *)
Definition M (A : Type) : Type := world -> outcome A * world.

Definition ret {A : Type} (a : A) : M A := fun w => (Returned a, w).

Definition throw {A : Type} (e : js_error) : M A := fun w => (Thrown e, w).

Definition bind {A B : Type} (m : M A) (k : A -> M B) : M B :=
  fun w =>
    match m w with
    | (Returned a, w') => k a w'
    | (Thrown e, w') => (Thrown e, w')
    end.

(** [try { m } catch (error) { h error }]. *)
Definition try_catch {A : Type} (m : M A) (h : js_error -> M A) : M A :=
  fun w =>
    match m w with
    | (Returned a, w') => (Returned a, w')
    | (Thrown e, w') => h e w'
    end.

Definition set_db (w : world) (d : Database.db) : world :=
  {| w_db := d; w_cache := w_cache w; w_calls := w_calls w;
     w_console := w_console w |}.

Definition set_cache (w : world) (c : gmap string cache_entry) : world :=
  {| w_db := w_db w; w_cache := c; w_calls := w_calls w;
     w_console := w_console w |}.

Definition add_call (w : world) (c : api_call) : world :=
  {| w_db := w_db w; w_cache := w_cache w; w_calls := c :: w_calls w;
     w_console := w_console w |}.

Definition add_console (w : world) (l : console_line) : world :=
  {| w_db := w_db w; w_cache := w_cache w; w_calls := w_calls w;
     w_console := l :: w_console w |}.

Definition log (msg : string) : M unit :=
  fun w => (Returned tt, add_console w (console_log msg None)).

Definition log_with (msg : string) (e : js_error) : M unit :=
  fun w => (Returned tt, add_console w (console_log msg (Some e))).

Definition log_error (msg : string) (e : js_error) : M unit :=
  fun w => (Returned tt, add_console w (console_error msg e)).

Definition get_db : M Database.db := fun w => (Returned (w_db w), w).

Definition put_db (d : Database.db) : M unit :=
  fun w => (Returned tt, set_db w d).

(** SQLite's [CURRENT_TIMESTAMP], in seconds. *)
Definition sql_now (E : env) : M Z :=
  fun w => (Returned (date_now E (w_calls w) / 1000), w).

Definition api_users_list (E : env) (cursor : option string)
  : M users_response :=
  fun w => (users_list E (w_calls w) cursor, add_call w (UsersList cursor)).

Definition api_conversations_open (E : env) (u : string) : M open_response :=
  fun w =>
    (conversations_open E (w_calls w) u, add_call w (ConversationsOpen u)).

Definition api_postMessage (E : env) (p : post) : M post_response :=
  fun w => (chat_postMessage E (w_calls w) p, add_call w (PostMessage p)).

Definition api_messages_create (E : env) (prompt : string) : M completion :=
  fun w =>
    (messages_create E (w_calls w) prompt, add_call w (MessagesCreate prompt)).

Definition delay (ms : Z) : M unit :=
  fun w => (Returned tt, add_call w (Delay ms)).

(** [for (const x of l) { body x }]. *)
Fixpoint for_of {A : Type} (l : list A) (body : A -> M unit) : M unit :=
  match l with
  | [] => ret tt
  | x :: t => bind (body x) (fun _ => for_of t body)
  end.

End Effects.

Declare Scope js_scope.
Delimit Scope js_scope with js.
Notation "x <- m ;; k" := (Effects.bind m (fun x => k))
  (at level 62, m at next level, right associativity, only parsing)
  : js_scope.
Notation "m ;;; k" := (Effects.bind m (fun _ => k))
  (at level 62, right associativity, only parsing) : js_scope.

(** Decimal text of a number, as template literals print it. *)
Definition show_Z (z : Z) : string :=
  DecimalString.NilZero.string_of_int (Z.to_int z).

Definition nl : string := String (ascii_of_nat 10) EmptyString.

(** ** The birthday service: poem, collection, thread

    The code required as [./birthday-service]: [generateBirthdayPoem],
    [chunk], [triggerBirthdayCollection] and [postBirthdayThread]. *)
Module Service.
Import Slack Effects Database.
Local Open Scope js_scope.

(** [chunk(array, size)] for [size >= 1]; [fuel] bounds the number of
    slices. *)
Fixpoint chunk_fuel {A : Type} (fuel : nat) (array : list A) (size : nat)
  : list (list A) :=
  match fuel, array with
  | O, _ => []
  | _, [] => []
  | S f, _ => List.firstn size array :: chunk_fuel f (List.skipn size array) size
  end.

Definition chunk {A : Type} (array : list A) (size : nat) : list (list A) :=
  chunk_fuel (List.length array) array size.

Definition fallback_poem : string :=
  "Here's to another year of joy and cheer," +:+ nl +:+
  "With colleagues who hold you ever so dear." +:+ nl +:+
  "Your presence makes our workplace bright," +:+ nl +:+
  "Happy birthday, may your day be just right!".

Definition poem_prompt (descriptionsText : string) : string :=
  "Based on these descriptions of some from their colleagues:" +:+ nl +:+ nl
  +:+ descriptionsText +:+ nl +:+ nl +:+
  "Write a warm, personal, and fun birthday poem that incorporates "
  +:+ "these qualities and characteristics. The poem should be "
  +:+ "light-hearted and celebratory. Just return the poem and no "
  +:+ "introduction or other text. Format it with line breaks.".

(** [response.content[0].text.trim()]: reading [text] of a missing first
    block, or [trim] of a missing text, is a TypeError. *)
Definition first_text_trimmed (response : completion) : M string :=
  match content response with
  | [] => throw (TypeError "Cannot read properties of undefined (reading 'text')")
  | b :: _ =>
      match block_text b with
      | None =>
          throw (TypeError "Cannot read properties of undefined (reading 'trim')")
      | Some t => ret (JS.trim t)
      end
  end.

Definition generateBirthdayPoem (E : env) (descriptions : list description_row)
  : M string :=
  try_catch
    (let descriptionsText :=
       String.concat nl (List.map dm_message descriptions) in
     let prompt := poem_prompt descriptionsText in
     response <- api_messages_create E prompt ;;
     poem <- first_text_trimmed response ;;
     ret poem)
    (fun error =>
       log_error "Error generating poem with Claude:" error ;;;
       ret fallback_poem).

Definition eligible (celebrantId : string) (user : member) : bool :=
  negb (is_bot user)
  && negb (deleted user)
  && negb (is_restricted user)
  && negb (is_ultra_restricted user)
  && negb (String.eqb (m_id user) celebrantId)
  && negb (String.eqb (m_id user) "USLACKBOT")
  && negb (String.eqb (m_name user) celebrantId).

(** The body run for one user of a batch; [true] from the inner [try]
    means the DM channel is open. *)
Definition collect_from (E : env) (celebrantId : string) (user : member)
  : M unit :=
  try_catch
    (opened <-
       try_catch
         (conversationResponse <- api_conversations_open E (m_id user) ;;
          if negb (ok conversationResponse)
          then log ("Cannot open DM with user " +:+ m_id user) ;;; ret false
          else ret true)
         (fun dmError =>
            log_with ("Error opening DM with user " +:+ m_id user +:+ ":")
              dmError ;;;
            ret false) ;;
     if opened then
       log ("Sending birthday message collection to " +:+ m_id user) ;;;
       _ <- api_postMessage E
              {| channel := m_id user; thread_ts := None;
                 text := "Birthday message collection for <@" +:+ celebrantId
                         +:+ ">" |} ;;
       ret tt
     else ret tt)
    (fun error =>
       log_error ("Error sending birthday collection message to "
                  +:+ m_id user +:+ ":") error).

(** The batches hold one user each, so that [Promise.all] over a batch
    runs one body to its end before the pause. *)
Definition triggerBirthdayCollection (E : env) (celebrantId : string) : M unit :=
  try_catch
    (d <- get_db ;;
     (if checkUserExists d celebrantId =? 0
      then now <- sql_now E ;; put_db (insertBirthday d now celebrantId None)
      else ret tt) ;;;
     result <- api_users_list E None ;;
     let users := List.filter (eligible celebrantId) (members result) in
     let userBatches := chunk users 1 in
     log ("Attempting to send messages to "
          +:+ show_Z (Z.of_nat (List.length users)) +:+ " users in "
          +:+ show_Z (Z.of_nat (List.length userBatches)) +:+ " batches") ;;;
     for_of userBatches (fun batch =>
       for_of batch (collect_from E celebrantId) ;;;
       delay 2500))
    (fun error => log_error "Error triggering birthday collection:" error).

Definition announcement (E : env) (celebrantId : string) : post :=
  {| channel := BIRTHDAY_CHANNEL E; thread_ts := None;
     text := "Happy Birthday <@" +:+ celebrantId +:+ ">! 🎂" |}.

Definition description_line (acc : string) (desc : description_row) : string :=
  acc +:+ "• " +:+ dm_message desc +:+ " _- " +:+ dm_sender_name desc +:+ "_"
  +:+ nl +:+ nl.

Definition tribute_text (message : message_row) : string :=
  let text := bm_sender_name message +:+ " says:" +:+ nl +:+ bm_message message in
  match bm_media_url message with
  | Some url => if JS.truthy url then text +:+ "<" +:+ url +:+ "|.>" else text
  | None => text
  end.

Definition postBirthdayThread (E : env) (celebrantId : string) : M unit :=
  try_catch
    (mainPost <- api_postMessage E (announcement E celebrantId) ;;
     log ("Getting descriptions for " +:+ celebrantId) ;;;
     d <- get_db ;;
     let descriptions := getDescriptionMessages d celebrantId in
     (if (0 <? Z.of_nat (List.length descriptions)) then
        log ("Generating poem for " +:+ celebrantId) ;;;
        poem <- generateBirthdayPoem E descriptions ;;
        log ("Posting poem for " +:+ celebrantId) ;;;
        _ <- api_postMessage E
               {| channel := BIRTHDAY_CHANNEL E;
                  thread_ts := Some (ts mainPost);
                  text := "*A special birthday poem for you:*" +:+ nl +:+ nl
                          +:+ poem +:+ nl +:+ nl
                          +:+ ":birthday: :sparkles: :cake:" |} ;;
        let descriptionMessage :=
          List.fold_left description_line descriptions
            ("*Here's what your colleagues say about you:*" +:+ nl +:+ nl) in
        _ <- api_postMessage E
               {| channel := BIRTHDAY_CHANNEL E;
                  thread_ts := Some (ts mainPost);
                  text := descriptionMessage |} ;;
        d1 <- get_db ;;
        put_db (snd (markDescriptionMessagesAsSent d1 celebrantId))
      else ret tt) ;;;
     log ("Getting birthday messages for " +:+ celebrantId) ;;;
     d2 <- get_db ;;
     let messages := getBirthdayMessages d2 celebrantId in
     for_of messages (fun message =>
       log ("Posting birthday message for " +:+ celebrantId +:+ " from "
            +:+ bm_sender_name message) ;;;
       _ <- api_postMessage E
              {| channel := BIRTHDAY_CHANNEL E;
                 thread_ts := Some (ts mainPost);
                 text := tribute_text message |} ;;
       ret tt) ;;;
     d3 <- get_db ;;
     put_db (snd (markMessagesAsSent d3 celebrantId)))
    (fun error => log_error "Error posting birthday thread:" error).

End Service.

(** ** birthday-cron.js: the daily scheduler *)
Module Cron.
Import Slack Effects Database.
Local Open Scope js_scope.

Definition maxSearchAttempts : nat := 10.

(** [cursor ? x : undefined] on a cursor that may be missing or empty. *)
Definition truthy_cursor (c : option string) : option string :=
  if JS.truthy_opt c then c else None.

(** The [do ... while (cursor && cursor.length > 0)] loop that gathers
    the pages, [left] being the attempts still allowed. *)
Fixpoint fetch_all_users (E : env) (left : nat) (cursor : option string)
  (allUsers : list member) : M (list member) :=
  match left with
  | O =>
      log "Max search attempts reached, stopping user list pagination" ;;;
      ret allUsers
  | S n =>
      response <-
        try_catch (api_users_list E (truthy_cursor cursor))
          (fun error =>
             log_error "Error fetching users list:" error ;;; throw error) ;;
      let allUsers' := allUsers ++ members response in
      let cursor' := truthy_cursor (next_cursor response) in
      match cursor' with
      | Some _ => fetch_all_users E n cursor' allUsers'
      | None => ret allUsers'
      end
  end.

(** [statements[key].run(arg)]: a key that [statements] does not hold is
    [undefined], and calling [run] on it is a TypeError. *)
Definition run_statement (E : env) (key : string) (arg : string) : M Z :=
  match statements key with
  | None =>
      throw (TypeError "Cannot read properties of undefined (reading 'run')")
  | Some st =>
      now <- sql_now E ;;
      (fun w => let (r, d') := run1 st (w_db w) now arg in (r, set_db w d'))
  end.

Definition find_user (allUsers : list member) (uid : string) : option member :=
  List.find (fun user => String.eqb (m_id user) uid) allUsers.

(** [!slackUser || slackUser.deleted]. *)
Definition gone (allUsers : list member) (uid : string) : bool :=
  match find_user allUsers uid with
  | None => true
  | Some slackUser => deleted slackUser
  end.

(** The loop over the stored birthdays, returning [deletedCount]. *)
Fixpoint cleanup_loop (E : env) (allUsers : list member)
  (birthdays : list birthday_row) (deletedCount : Z) : M Z :=
  match birthdays with
  | [] => ret deletedCount
  | birthday :: rest =>
      if gone allUsers (user_id birthday) then
        _ <- run_statement E "deleteBirthdayMessagesForUser" (user_id birthday) ;;
        _ <- run_statement E "deleteDescriptionMessagesForUser"
               (user_id birthday) ;;
        _ <- run_statement E "deleteUser" (user_id birthday) ;;
        cleanup_loop E allUsers rest (deletedCount + 1)
      else cleanup_loop E allUsers rest deletedCount
  end.

Definition cleanupDeactivatedUsers (E : env) : M unit :=
  try_catch
    (d <- get_db ;;
     let birthdays := getAllBirthdays d in
     allUsers <- fetch_all_users E maxSearchAttempts None [] ;;
     deletedCount <- cleanup_loop E allUsers birthdays 0 ;;
     if 0 <? deletedCount then
       _ <- api_postMessage E
              {| channel := ADMIN_CHANNEL E; thread_ts := None;
                 text := show_Z deletedCount
                         +:+ " deactivated users cleaned up from database" |} ;;
       log ("Cleaned up " +:+ show_Z deletedCount
            +:+ " deactivated users from database")
     else ret tt)
    (fun error => log_error "Error cleaning up deactivated users:" error).

(** [today]: the London wall clock read as local time, at midnight. *)
Definition today_of (tz : JSDate.timezone) (wall : Z) : Z :=
  JSDate.setHours0 tz (JSDate.new_Date_wall tz wall).

(** [birthdayDate] for the parsed month and day. *)
Definition birthdayDate_of (tz : JSDate.timezone) (today month day : Z) : Z :=
  let birthdayDate :=
    JSDate.new_Date tz (JSDate.getFullYear tz today) (month - 1) day in
  if birthdayDate <? today
  then JSDate.setFullYear tz birthdayDate (JSDate.getFullYear tz today + 1)
  else birthdayDate.

(** [diffDays] of the loop body; [None] is NaN, which a birth date without
    two numbers gives. *)
Definition diffDays (tz : JSDate.timezone) (wall : Z) (birth_date : string)
  : option Z :=
  let today := today_of tz wall in
  let parts := JS.split "-" birth_date in
  match JS.parseInt_at parts 1, JS.parseInt_at parts 0 with
  | Some month, Some day =>
      let diffTime := birthdayDate_of tz today month day - today in
      Some (JS.Math_round_div diffTime (1000 * 60 * 60 * 24))
  | _, _ => None
  end.

(** The body of [for (const birthday of upcomingBirthdays)]. *)
Definition dispatch (E : env) (birthday : birthday_row) : M unit :=
  offset <- (fun w =>
     (Returned (diffDays (host_tz E) (london_wall E (w_calls w))
                  (birth_date birthday)), w)) ;;
  match offset with
  | Some 7 =>
      log ("Triggering collection for " +:+ user_id birthday) ;;;
      Service.triggerBirthdayCollection E (user_id birthday)
  | Some 1 =>
      d <- get_db ;;
      let messageCount := getBirthdayMessageCount d (user_id birthday) in
      _ <- api_postMessage E
             {| channel := ADMIN_CHANNEL E; thread_ts := None;
                text := show_Z messageCount
                        +:+ " messages collected for upcoming birthday" |} ;;
      ret tt
  | Some 0 =>
      log ("Posting thread for " +:+ user_id birthday) ;;;
      Service.postBirthdayThread E (user_id birthday)
  | _ => ret tt
  end.

(** One run of the job that [setupCronJobs] schedules for 09:00
    Europe/London every day. *)
Definition setupCronJobs_run (E : env) : M unit :=
  try_catch
    (cleanupDeactivatedUsers E ;;;
     d <- get_db ;;
     let upcomingBirthdays := getAllBirthdays d in
     for_of upcomingBirthdays (dispatch E))
    (fun error => log_error "Error in birthday cron job:" error).

End Cron.

(** ** commands.js: name resolution and date validation *)
Module Commands.
Import Slack Effects Database.
Local Open Scope js_scope.

Definition CACHE_DURATION : Z := 5 * 60 * 1000.

(** [s.trim().toLowerCase()]. *)
Definition normalize (s : string) : string := JS.toLowerCase (JS.trim s).

(** [p && p.trim().toLowerCase() === target] for a property [p] that may
    be missing. *)
Definition prop_is (p : option string) (target : string) : bool :=
  match p with
  | Some s => JS.truthy s && String.eqb (normalize s) target
  | None => false
  end.

(** [m.profile && m.profile.f && ...]. *)
Definition profile_prop_is (m : member) (f : profile -> option string)
  (target : string) : bool :=
  match m_profile m with
  | Some pr => prop_is (f pr) target
  | None => false
  end.

Definition full_name (firstName lastName : string) : string :=
  normalize (firstName +:+ " " +:+ lastName).

Definition by_real_name (firstName lastName : string) (m : member) : bool :=
  negb (deleted m) && prop_is (real_name m) (full_name firstName lastName).

Definition by_real_name_normalized (firstName lastName : string) (m : member)
  : bool :=
  negb (deleted m)
  && profile_prop_is m real_name_normalized (full_name firstName lastName).

Definition by_display_name_normalized (firstName lastName : string)
  (m : member) : bool :=
  negb (deleted m)
  && profile_prop_is m display_name_normalized (full_name firstName lastName).

Definition by_first_name (firstName : string) (m : member) : bool :=
  negb (deleted m) && profile_prop_is m first_name (normalize firstName).

Definition by_last_name (lastName : string) (m : member) : bool :=
  negb (deleted m) && profile_prop_is m last_name (normalize lastName).

(** [if (!user) { user = next }]. *)
Definition or_else {A : Type} (user : option A) (next : option A) : option A :=
  match user with Some _ => user | None => next end.

(** [if (matches.length === 1) { user = matches[0] }]. *)
Definition only_one {A : Type} (matches : list A) : option A :=
  match matches with [x] => Some x | _ => None end.

(** The five lookups made on one page of [users.list]. *)
Definition search_page (memberList : list member) (firstName lastName : string)
  : option member :=
  let user := List.find (by_real_name firstName lastName) memberList in
  let user :=
    or_else user
      (List.find (by_real_name_normalized firstName lastName) memberList) in
  let user :=
    or_else user
      (List.find (by_display_name_normalized firstName lastName) memberList) in
  let user :=
    or_else user (only_one (List.filter (by_first_name firstName) memberList)) in
  let user :=
    or_else user (only_one (List.filter (by_last_name lastName) memberList)) in
  user.

Definition cache_set (key : string) (user : option member) (E : env) : M unit :=
  fun w =>
    (Returned tt,
     set_cache w (<[ key := {| cached_user := user;
                              timestamp := date_now E (w_calls w) |} ]>
                    (w_cache w))).

(** [user.real_name || user.name]. *)
Definition shown_name (user : member) : string :=
  match real_name user with
  | Some s => if JS.truthy s then s else m_name user
  | None => m_name user
  end.

(** The paging loop of [findUserByName], [left] being the attempts still
    allowed. *)
Fixpoint search_pages (E : env) (firstName lastName cacheKey : string)
  (left : nat) (cursor : option string) : M (option member) :=
  match left with
  | O => log "Max search attempts reached, stopping search" ;;; ret None
  | S n =>
      step <-
        try_catch
          (response <- api_users_list E (Cron.truthy_cursor cursor) ;;
           match search_page (members response) firstName lastName with
           | Some user =>
               log ("Found user: " +:+ shown_name user +:+ " (" +:+ m_id user
                    +:+ ")") ;;;
               cache_set cacheKey (Some user) E ;;;
               ret (inl user)
           | None => ret (inr (Cron.truthy_cursor (next_cursor response)))
           end)
          (fun error =>
             log_error "Error searching for user:" error ;;; throw error) ;;
      match step with
      | inl user => ret (Some user)
      | inr (Some c) => search_pages E firstName lastName cacheKey n (Some c)
      | inr None => ret None
      end
  end.

Definition findUserByName (E : env) (firstName lastName : string)
  : M (option member) :=
  log ("Searching for user: " +:+ firstName +:+ " " +:+ lastName) ;;;
  let cacheKey :=
    JS.toLowerCase firstName +:+ "-" +:+ JS.toLowerCase lastName in
  hit <- (fun w =>
     (Returned
        (match w_cache w !! cacheKey with
         | Some cached =>
             if date_now E (w_calls w) - timestamp cached <? CACHE_DURATION
             then Some cached else None
         | None => None
         end), w)) ;;
  match hit with
  | Some cached =>
      match cached_user cached with
      | Some user =>
          log ("Found user in cache: " +:+ shown_name user) ;;;
          ret (Some user)
      | None =>
          throw (TypeError "Cannot read properties of null (reading 'real_name')")
      end
  | None =>
      user <- search_pages E firstName lastName cacheKey 10 None ;;
      match user with
      | Some _ => ret user
      | None => cache_set cacheKey None E ;;; ret None
      end
  end.

Definition is_digit (c : ascii) : bool :=
  let n := N_of_ascii c in (48 <=? n)%N && (n <=? 57)%N.

Definition digit (c : ascii) : Z := Z.of_N (N_of_ascii c) - 48.

(** [isValidDate(dateStr)]: the pattern [^\d{2}-\d{2}$], then the month and
    the day checked against the year 2000. *)
Definition isValidDate (tz : JSDate.timezone) (dateStr : string) : bool :=
  match dateStr with
  | String d1 (String d2 (String "-" (String m1 (String m2 EmptyString)))) =>
      if is_digit d1 && is_digit d2 && is_digit m1 && is_digit m2 then
        let day := 10 * digit d1 + digit d2 in
        let month := 10 * digit m1 + digit m2 in
        if (month <? 1) || (12 <? month) then false
        else
          let daysInMonth :=
            JSDate.getDate tz (JSDate.new_Date tz 2000 month 0) in
          if (day <? 1) || (daysInMonth <? day) then false else true
      else false
  | _ => false
  end.

End Commands.

(** ** The store under the names of its contract

    [addTribute] and [addDescription], [listUndelivered] and
    [markDelivered] by kind, [upsertBirthday]; each is the prepared
    statement of that role. *)
Module Store.
Import Database.

Inductive kind : Type := Tribute | Description.

Definition upsertBirthday := insertBirthday.

(** One submission: the sender's display name and the media link are not
    part of the key. *)
Definition add (k : kind) (d : db) (now : Z) (cid sid sname msg : string)
  (media : option string) : outcome Z * db :=
  match k with
  | Tribute => insertBirthdayMessage d now cid sid sname msg media
  | Description => insertDescriptionMessage d now cid sid sname msg
  end.

(** The keys of the stored rows of a kind. *)
Definition keys (k : kind) (d : db) : list (string * string * string * Z) :=
  match k with
  | Tribute => List.map key_of (birthday_messages d)
  | Description => List.map key_of (description_messages d)
  end.

Definition key_is (cid sid msg : string) (day : Z)
  (key : string * string * string * Z) : bool :=
  let '(c, s, m, dy) := key in
  String.eqb c cid && String.eqb s sid && String.eqb m msg && (dy =? day).

Definition triple_is (cid sid msg : string)
  (key : string * string * string * Z) : bool :=
  let '(c, s, m, _) := key in
  String.eqb c cid && String.eqb s sid && String.eqb m msg.

(** Number of stored rows of (celebrant, sender, text) on day [day]. *)
Definition stored_on (k : kind) (d : db) (cid sid msg : string) (day : Z) : Z :=
  Z.of_nat (List.length (List.filter (key_is cid sid msg day) (keys k d))).

(** Number of stored rows of (celebrant, sender, text) on any day. *)
Definition stored (k : kind) (d : db) (cid sid msg : string) : Z :=
  Z.of_nat (List.length (List.filter (triple_is cid sid msg) (keys k d))).

(** The ids of the rows [listUndelivered] returns, in its order. *)
Definition listUndelivered (k : kind) (d : db) (cid : string) : list Z :=
  match k with
  | Tribute => List.map bm_id (getBirthdayMessages d cid)
  | Description => List.map dm_id (getDescriptionMessages d cid)
  end.

Definition markDelivered (k : kind) (d : db) (cid : string) : Z * db :=
  match k with
  | Tribute => markMessagesAsSent d cid
  | Description => markDescriptionMessagesAsSent d cid
  end.

(** [d'] holds the rows of [d], table by table. *)
Definition same_rows (d d' : db) : Prop :=
  birthdays d' = birthdays d
  /\ birthday_messages d' = birthday_messages d
  /\ description_messages d' = description_messages d.

(** The unique indexes of both message tables hold. *)
Definition indexes_ok (d : db) : Prop :=
  unique_index (birthday_messages d) /\ unique_index (description_messages d).

(** A sequence of [upsertBirthday] calls, each at its own time. *)
Definition upsert_all (d : db) (calls : list (Z * string * option string)) : db :=
  List.fold_left
    (fun acc call => let '(now, uid, date) := call in upsertBirthday acc now uid date)
    calls d.

(** The date the last call for [uid] wrote, if there was such a call. *)
Definition last_written (calls : list (Z * string * option string))
  (uid : string) : option string :=
  List.fold_left
    (fun acc call =>
       let '(_, u, date) := call in
       if String.eqb u uid then Some (COALESCE date "1900-01-01") else acc)
    calls None.

Definition empty_db : db :=
  {| birthdays := []; birthday_messages := []; description_messages := [];
     seq_birthday_messages := 0; seq_description_messages := 0;
     tie_birthday_messages := by_rowid;
     tie_description_messages := by_rowid |}.

End Store.

(** ** Specifications of computations *)
Module Logic.
Import Effects.

(** From a world satisfying [P], [m] either returns [a] in a world
    satisfying [Q a] or throws [e] in a world satisfying [T e]. *)
Definition hoare {A : Type} (P : world -> Prop) (m : M A)
  (Q : A -> world -> Prop) (T : js_error -> world -> Prop) : Prop :=
  forall w, P w ->
    match m w with
    | (Returned a, w') => Q a w'
    | (Thrown e, w') => T e w'
    end.

(** [m] returns, whatever the world and the outside do. *)
Definition never_throws {A : Type} (m : M A) : Prop :=
  forall w, exists a w', m w = (Returned a, w').

(** [m] leaves the database as it found it, also when it throws. *)
Definition keeps_db {A : Type} (m : M A) : Prop :=
  forall w, w_db (snd (m w)) = w_db w.

(** The last call made was a post, and the platform answered it by
    throwing [e]. *)
Definition rejected (E : env) (e : js_error) (w : world) : Prop :=
  exists p earlier,
    w_calls w = PostMessage p :: earlier
    /\ chat_postMessage E earlier p = Thrown e.

End Logic.

(** ** Worlds and outsides used as examples *)
Module Examples.
Import Slack Effects Database.

(** 2024-06-01 00:00 as a time value. *)
Definition june_1_2024 : Z := JSDate.MakeDate (JSDate.MakeDay 2024 5 1) 0.

Definition plain_member (id name : string) : member :=
  {| m_id := id; m_name := name; deleted := false; is_bot := false;
     is_restricted := false; is_ultra_restricted := false;
     real_name := None; m_profile := None |}.

(** An outside in which every call succeeds: one page of members, every
    post accepted, a poem returned. The job runs at 09:00 London time on
    2024-06-01 on a host set to UTC. *)
Definition calm (members : list member) (poem : string) : env :=
  {| users_list := fun _ _ =>
       Returned {| Slack.members := members; next_cursor := None |};
     conversations_open := fun _ _ => Returned {| ok := true |};
     chat_postMessage := fun _ _ => Returned {| ts := "1717228800.000100" |};
     messages_create := fun _ _ =>
       Returned {| content := [ {| block_text := Some poem |} ] |};
     date_now := fun _ => june_1_2024 + 8 * 3600000;
     london_wall := fun _ => june_1_2024 + 9 * 3600000;
     host_tz := JSDate.tz_UTC;
     BIRTHDAY_CHANNEL := "C_BIRTHDAYS";
     ADMIN_CHANNEL := "C_ADMIN" |}.

(** [E] with another answer to [chat.postMessage]. *)
Definition with_postMessage (E : env)
  (f : list api_call -> post -> outcome post_response) : env :=
  {| users_list := users_list E;
     conversations_open := conversations_open E;
     chat_postMessage := f;
     messages_create := messages_create E;
     date_now := date_now E;
     london_wall := london_wall E;
     host_tz := host_tz E;
     BIRTHDAY_CHANNEL := BIRTHDAY_CHANNEL E;
     ADMIN_CHANNEL := ADMIN_CHANNEL E |}.

(** [E] with another answer to [users.list]. *)
Definition with_users_list (E : env)
  (f : list api_call -> option string -> outcome users_response) : env :=
  {| users_list := f;
     conversations_open := conversations_open E;
     chat_postMessage := chat_postMessage E;
     messages_create := messages_create E;
     date_now := date_now E;
     london_wall := london_wall E;
     host_tz := host_tz E;
     BIRTHDAY_CHANNEL := BIRTHDAY_CHANNEL E;
     ADMIN_CHANNEL := ADMIN_CHANNEL E |}.

Definition world_of (d : db) : world :=
  {| w_db := d; w_cache := ∅; w_calls := []; w_console := [] |}.

(** The service answers with a text block that holds only white space. *)
Definition blank_poem_env : env := calm [] "  ".

Definition one_description : list description_row :=
  [ {| dm_id := 1; dm_celebrant_id := "U1"; dm_sender_id := "U2";
       dm_sender_name := "Jane"; dm_message := "Always kind";
       dm_created_at := 1717000000; dm_sent_in_thread := false |} ].

Definition birthday_of (uid date : string) : birthday_row :=
  {| user_id := uid; birth_date := date; created_at := 1700000000;
     updated_at := 1700000000; notification_sent := false;
     last_notification_date := None |}.

Definition tribute (id : Z) (cid sid sname msg : string) (at_ : Z)
  : message_row :=
  {| bm_id := id; bm_celebrant_id := cid; bm_sender_id := sid;
     bm_sender_name := sname; bm_message := msg; bm_media_url := None;
     bm_created_at := at_; bm_sent_in_thread := false |}.

(** A store with one celebrant, one description and two tributes, none
    delivered. *)
Definition party_db : db :=
  {| birthdays := [birthday_of "U1" "01-06"];
     birthday_messages :=
       [tribute 1 "U1" "U2" "Jane" "Happy birthday!" 1717000100;
        tribute 2 "U1" "U3" "Omar" "Have a great day" 1717000200];
     description_messages := one_description;
     seq_birthday_messages := 2;
     seq_description_messages := 1;
     tie_birthday_messages := by_rowid;
     tie_description_messages := by_rowid |}.



(** A store whose member [U_GONE] has left the workspace, with a tribute
    waiting for them; [U_HERE] is still a member. *)
Definition stale_db : db :=
  {| birthdays := [birthday_of "U_GONE" "08-06"; birthday_of "U_HERE" "25-12"];
     birthday_messages :=
       [tribute 1 "U_GONE" "U_HERE" "Jane" "Happy birthday!" 1717000100];
     description_messages := [];
     seq_birthday_messages := 1;
     seq_description_messages := 0;
     tie_birthday_messages := by_rowid;
     tie_description_messages := by_rowid |}.

Definition stale_env : env := calm [plain_member "U_HERE" "jane"] "Roses are red".

Definition stale_world : world := world_of stale_db.

(** Two birthdays on 2024-06-01: [UA] is one day out, [UB] is today. *)
Definition two_birthdays_db : db :=
  {| birthdays := [birthday_of "UA" "02-06"; birthday_of "UB" "01-06"];
     birthday_messages := [];
     description_messages := [];
     seq_birthday_messages := 0;
     seq_description_messages := 0;
     tie_birthday_messages := by_rowid;
     tie_description_messages := by_rowid |}.

Definition two_members : list member :=
  [plain_member "UA" "ann"; plain_member "UB" "bob"].

(** Posts to the admin channel are rejected, all others accepted. *)
Definition admin_channel_down : env :=
  with_postMessage (calm two_members "Roses are red")
    (fun _ p =>
       if String.eqb (channel p) "C_ADMIN" then Thrown (ApiError "channel_not_found")
       else Returned {| ts := "1717228800.000100" |}).

(** Three calls of [upsertBirthday]: two for [U1], one without a date
    for [U2]. *)
Definition three_upserts : list (Z * string * option string) :=
  [(100, "U1", Some "08-06"); (200, "U2", None); (300, "U1", Some "25-12")].

(** A store in which [U1] has a birthday and nothing else is stored. *)
Definition registered_db : db :=
  Store.upsertBirthday Store.empty_db 0 "U1" (Some "08-06").

(** A tribute from [U2] to [U1], submitted in second 1000 of day 0. *)
Definition first_tribute : outcome Z * db :=
  Store.add Store.Tribute registered_db 1000 "U1" "U2" "Jane"
    "Happy birthday!" None.

(** The same tribute again in second 2000 of day 0, and in second 90000,
    which is in day 1. *)
Definition same_day_again : outcome Z * db :=
  Store.add Store.Tribute (snd first_tribute) 2000 "U1" "U2" "Jane"
    "Happy birthday!" None.

Definition next_day_again : outcome Z * db :=
  Store.add Store.Tribute (snd first_tribute) 90000 "U1" "U2" "Jane"
    "Happy birthday!" None.

Definition jane_doe : member :=
  {| m_id := "U_DOE"; m_name := "jdoe"; deleted := false; is_bot := false;
     is_restricted := false; is_ultra_restricted := false;
     real_name := Some "Jane Doe"; m_profile := None |}.

Definition jane_smith : member :=
  {| m_id := "U_SMITH"; m_name := "jsmith"; deleted := false; is_bot := false;
     is_restricted := false; is_ultra_restricted := false;
     real_name := Some "Jane Smith";
     m_profile := Some {| real_name_normalized := None;
                          display_name_normalized := None;
                          first_name := Some "Jane";
                          last_name := None |} |}.

(** A directory of two pages: Jane Smith on the first, Jane Doe on the
    second. *)
Definition two_pages : env :=
  with_users_list (calm [] "Roses are red")
    (fun _ cursor =>
       match cursor with
       | None =>
           Returned {| members := [jane_smith]; next_cursor := Some "page2" |}
       | Some _ =>
           Returned {| members := [jane_doe]; next_cursor := None |}
       end).

(** One page that holds both. *)
Definition one_page : env := calm [jane_doe; jane_smith] "Roses are red".

Definition fresh_world : world := world_of Store.empty_db.

Definition party_world : world := world_of party_db.

Definition two_birthdays_world : world := world_of two_birthdays_db.

End Examples.

(** ** The calendar in the words of the specification *)
Module Calendar.
Import JSDate.

(** Days of month [m] (0 to 11), [leap] being 1 in a leap year. *)
Definition days_in_month (m leap : Z) : Z :=
  if m =? 1 then 28 + leap
  else if (m =? 3) || (m =? 5) || (m =? 8) || (m =? 10) then 30
  else 31.

(** A day-month that [/set-birthday] stores: a month of the year and a
    day of that month, 29 February included. *)
Definition stored_day_month (day month : Z) : Prop :=
  1 <= month <= 12 /\ 1 <= day <= days_in_month (month - 1) 1.

Definition two_digits (n : Z) : string :=
  String (ascii_of_N (Z.to_N (48 + n / 10)))
    (String (ascii_of_N (Z.to_N (48 + n mod 10))) EmptyString).

(** The text DD-MM of a day-month. *)
Definition day_month (day month : Z) : string :=
  two_digits day +:+ "-" +:+ two_digits month.

(** Day number [D] is the [day]th of month [month] (1 to 12). *)
Definition falls_on (day month D : Z) : Prop :=
  MonthFromTime (D * msPerDay) = month - 1
  /\ DateFromTime (D * msPerDay) = day.

(** [D] is the first day on or after [today] that falls on the
    day-month. *)
Definition next_occurrence (day month today D : Z) : Prop :=
  today <= D
  /\ falls_on day month D
  /\ forall D', today <= D' < D -> ~ falls_on day month D'.

(** What the offset computation needs of the host's time zone: local
    midnights exist and read back as themselves, and two offsets never
    differ by half a day. *)
Definition tz_ok (tz : timezone) : Prop :=
  (forall d, LocalTime tz (UTC tz (d * msPerDay)) = d * msPerDay)
  /\ (forall a b,
        Z.abs (LocalTZA_local tz a - LocalTZA_local tz b) < msPerDay / 2).

(** 2024-06-01, 2024-03-01 and 2025-02-22 at 09:00, as wall clock
    values. *)
Definition wall_2024_06_01 : Z := MakeDate (MakeDay 2024 5 1) (9 * 3600000).
Definition wall_2024_03_01 : Z := MakeDate (MakeDay 2024 2 1) (9 * 3600000).
Definition wall_2025_02_22 : Z := MakeDate (MakeDay 2025 1 22) (9 * 3600000).

Definition wall_2024_03_25 : Z := MakeDate (MakeDay 2024 2 25) (9 * 3600000).

(** British summer time 2024 begins when the wall clock reaches 01:00 on
    31 March and shows 02:00, and ends when it reaches 02:00 on 27
    October and shows 01:00. *)
Definition bst_2024_begin : Z := MakeDate (MakeDay 2024 2 31) (2 * 3600000).
Definition bst_2024_end : Z := MakeDate (MakeDay 2024 9 27) (2 * 3600000).

(** A host on London time in 2024. *)
Definition tz_London_2024 : timezone :=
  {| LocalTZA_utc := fun u =>
       if (bst_2024_begin - 3600000 <=? u) && (u <? bst_2024_end - 3600000)
       then 3600000 else 0;
     LocalTZA_local := fun t =>
       if (bst_2024_begin <=? t) && (t <? bst_2024_end) then 3600000 else 0 |}.

End Calendar.

(** ** Name resolution in the words of the specification *)
Module Directory.
Import Slack Effects Commands.

(** How a stage settles on a member: the first one that matches, or the
    only one that matches. *)
Inductive rule : Type := FirstMatch | OnlyIfUnique.

(** The stages in priority order: full display name, normalized real
    name, normalized nickname, first name only, last name only. *)
Definition stages (firstName lastName : string)
  : list ((member -> bool) * rule) :=
  [ (by_real_name firstName lastName, FirstMatch);
    (by_real_name_normalized firstName lastName, FirstMatch);
    (by_display_name_normalized firstName lastName, FirstMatch);
    (by_first_name firstName, OnlyIfUnique);
    (by_last_name lastName, OnlyIfUnique) ].

Definition stage_hit (members : list member) (stage : (member -> bool) * rule)
  : option member :=
  match snd stage with
  | FirstMatch => List.find (fst stage) members
  | OnlyIfUnique =>
      match List.filter (fst stage) members with
      | [only] => Some only
      | _ => None
      end
  end.

(** The hit of the first stage that has one. *)
Fixpoint first_hit (members : list member)
  (todo : list ((member -> bool) * rule)) : option member :=
  match todo with
  | [] => None
  | stage :: later =>
      match stage_hit members stage with
      | Some user => Some user
      | None => first_hit members later
      end
  end.

(** [resolveByName] over one list of members; [None] is "not found". *)
Definition resolveByName (members : list member) (firstName lastName : string)
  : option member :=
  first_hit members (stages firstName lastName).

(** [resolveByName] page by page: the hit of the first page that has
    one. *)
Fixpoint resolve_paged (pages : list (list member)) (firstName lastName : string)
  : option member :=
  match pages with
  | [] => None
  | page :: later =>
      match resolveByName page firstName lastName with
      | Some user => Some user
      | None => resolve_paged later firstName lastName
      end
  end.

(** The platform serves the non-empty directory [pages], one page per
    call, with a continuation cursor on every page but the last. *)
Fixpoint serves (E : env) (calls : list api_call) (cursor : option string)
  (pages : list (list member)) : Prop :=
  match pages with
  | [] => False
  | page :: later =>
      exists next,
        users_list E calls cursor
        = Returned {| members := page; next_cursor := next |}
        /\ match later with
           | [] => Cron.truthy_cursor next = None
           | _ :: _ =>
               Cron.truthy_cursor next <> None
               /\ serves E (UsersList cursor :: calls)
                    (Cron.truthy_cursor next) later
           end
  end.

(** No entry of the cache is fresh enough to answer for [key]. *)
Definition cache_cold (E : env) (w : world) (key : string) : Prop :=
  match w_cache w !! key with
  | Some cached => CACHE_DURATION <= date_now E (w_calls w) - timestamp cached
  | None => True
  end.

Definition cache_key (firstName lastName : string) : string :=
  JS.toLowerCase firstName +:+ "-" +:+ JS.toLowerCase lastName.

End Directory.


(** ** The integrity of the store *)
Module Integrity.
Import Database.

(** The primary key of [birthdays]: one row per member. *)
Definition primary_key_ok (d : db) : Prop :=
  NoDup (List.map user_id (birthdays d)).

(** The foreign keys: every tribute and every description names a
    celebrant that has a birthday record. *)
Definition references_ok (d : db) : Prop :=
  Forall (fun r => celebrant_known d (bm_celebrant_id r) = true)
    (birthday_messages d)
  /\ Forall (fun r => celebrant_known d (dm_celebrant_id r) = true)
       (description_messages d).

(** AUTOINCREMENT: no id is used twice, and none is beyond the
    sequence. *)
Definition ids_ok (d : db) : Prop :=
  NoDup (List.map bm_id (birthday_messages d))
  /\ Forall (fun r => bm_id r <= seq_birthday_messages d) (birthday_messages d)
  /\ NoDup (List.map dm_id (description_messages d))
  /\ Forall (fun r => dm_id r <= seq_description_messages d)
       (description_messages d).

Definition store_ok (d : db) : Prop :=
  primary_key_ok d /\ Store.indexes_ok d /\ references_ok d /\ ids_ok d.

(** The statements that write, with their arguments and the time at
    which they run. *)
Inductive write : Type :=
| Upsert (now : Z) (uid : string) (date : option string)
| Notify (now : Z) (uid : string)
| Add (k : Store.kind) (now : Z) (cid sid sname msg : string)
    (media : option string)
| Mark (k : Store.kind) (cid : string).

(** The store after a write; a write that throws leaves it as it was. *)
Definition apply_write (d : db) (wr : write) : db :=
  match wr with
  | Upsert now uid date => insertBirthday d now uid date
  | Notify now uid => updateLastNotificationDate d now uid
  | Add k now cid sid sname msg media =>
      snd (Store.add k d now cid sid sname msg media)
  | Mark k cid => snd (Store.markDelivered k d cid)
  end.

Definition apply_writes (d : db) (wrs : list write) : db :=
  List.fold_left apply_write wrs d.

(** A row after some deliveries: as it was, or marked delivered where
    it was not. *)
Definition marks {R : Type} `{MsgRow R} (r r' : R) : Prop :=
  r' = r \/ (sent_in_thread r = false /\ r' = set_sent r).

(** [d'] holds the rows of [d], in the same order, some of them marked
    delivered, and the same birthday records. *)
Definition only_marks (d d' : db) : Prop :=
  birthdays d' = birthdays d
  /\ Forall2 marks (birthday_messages d) (birthday_messages d')
  /\ Forall2 marks (description_messages d) (description_messages d').

End Integrity.

(** ** What a computation sends out

    The calls a computation adds to the record, and the computations
    that only page through [users.list]. *)
Module Trace.
Import Slack Effects.

Definition is_users_list (c : api_call) : bool :=
  match c with UsersList _ => true | _ => false end.

(** At most [n] calls, each of them [users.list]. *)
Definition lists_only (n : nat) (new : list api_call) : Prop :=
  (List.length new <= n)%nat /\ Forall (fun c => is_users_list c = true) new.

(** [m] leaves the database as it is and adds at most [n] calls, each of
    them [users.list], whether it returns or throws. *)
Definition pages_only {A : Type} (n : nat) (m : M A) : Prop :=
  forall w,
    w_db (snd (m w)) = w_db w
    /\ exists new, w_calls (snd (m w)) = new ++ w_calls w /\ lists_only n new.

(** The messages posted, the DM channels asked for and the pauses, each
    in the order they were made. *)
Definition posted (calls : list api_call) : list post :=
  List.flat_map (fun c => match c with PostMessage p => [p] | _ => [] end)
    (List.rev calls).

Definition opened (calls : list api_call) : list string :=
  List.flat_map (fun c => match c with ConversationsOpen u => [u] | _ => [] end)
    (List.rev calls).

Definition pauses (calls : list api_call) : list Z :=
  List.flat_map (fun c => match c with Delay ms => [ms] | _ => [] end)
    (List.rev calls).

(** The message [triggerBirthdayCollection] sends to one member. *)
Definition collection_post (celebrantId : string) (user : member) : post :=
  {| channel := m_id user; thread_ts := None;
     text := "Birthday message collection for <@" +:+ celebrantId +:+ ">" |}.

(** The placeholder record [insertBirthday] writes for a missing date. *)
Definition placeholder (now : Z) (uid : string) : Database.birthday_row :=
  {| Database.user_id := uid;
     Database.birth_date := "1900-01-01";
     Database.created_at := now;
     Database.updated_at := now;
     Database.notification_sent := false;
     Database.last_notification_date := None |}.

(** A reply in the thread under the post with timestamp [main]. *)
Definition reply (E : env) (main : string) (body : string) : post :=
  {| channel := BIRTHDAY_CHANNEL E; thread_ts := Some main; text := body |}.



End Trace.
(* ===================================================================== *)
(** * Part II: properties                                                 *)
(* ===================================================================== *)


(** ** The embedding on small inputs *)
Section SmallInputs.
Import JSDate.

Example trim_strips_both_ends : JS.trim "  Jane Doe " = "Jane Doe".
Proof. reflexivity. Qed.

Example toLowerCase_ascii : JS.toLowerCase "Jane DOE-9" = "jane doe-9".
Proof. reflexivity. Qed.

Example split_day_month : JS.split "-" "08-06" = ["08"; "06"].
Proof. reflexivity. Qed.

Example split_placeholder : JS.split "-" "1900-01-01" = ["1900"; "01"; "01"].
Proof. reflexivity. Qed.

Example parseInt_cases :
  JS.parseInt "08" = Some 8 /\ JS.parseInt " 12px" = Some 12
  /\ JS.parseInt "0x1f" = Some 31 /\ JS.parseInt "-7" = Some (-7)
  /\ JS.parseInt EmptyString = None /\ JS.parseInt "june" = None.
Proof. repeat split. Qed.

Example Math_round_cases :
  JS.Math_round_div 5 2 = 3 /\ JS.Math_round_div (-5) 2 = -2
  /\ JS.Math_round_div 7 4 = 2 /\ JS.Math_round_div (-7) 4 = -2.
Proof. repeat split. Qed.

Example epoch_is_day_0 :
  MakeDay 1970 0 1 = 0 /\ YearFromDay 0 = 1970 /\ YearFromDay (-1) = 1969.
Proof. repeat split. Qed.

Example leap_day_2024 :
  let D := MakeDay 2024 1 29 in
  YearFromDay D = 2024 /\ MonthFromTime (D * msPerDay) = 1
  /\ DateFromTime (D * msPerDay) = 29.
Proof. repeat split. Qed.

Example day_overflow_2025 :
  let D := MakeDay 2025 1 29 in
  MonthFromTime (D * msPerDay) = 2 /\ DateFromTime (D * msPerDay) = 1.
Proof. repeat split. Qed.

Example month_overflow : MakeDay 2024 12 1 = MakeDay 2025 0 1.
Proof. reflexivity. Qed.

Example chunk_by_one : Service.chunk [1; 2; 3] 1 = [[1]; [2]; [3]].
Proof. reflexivity. Qed.

Example chunk_by_two : Service.chunk [1; 2; 3; 4; 5] 2 = [[1; 2]; [3; 4]; [5]].
Proof. reflexivity. Qed.

Example placeholder_offset :
  Cron.diffDays tz_UTC Calendar.wall_2024_06_01 "1900-01-01" = Some 1747.
Proof. reflexivity. Qed.

Example unparsable_offset :
  Cron.diffDays tz_UTC Calendar.wall_2024_06_01 "soon" = None.
Proof. reflexivity. Qed.

End SmallInputs.

(** ** Lists and strings *)

Lemma eqb_string_true (a b : string) : String.eqb a b = true <-> a = b.
Proof. apply String.eqb_eq. Qed.

Lemma eqb_string_false (a b : string) : String.eqb a b = false <-> a <> b.
Proof. apply String.eqb_neq. Qed.

Lemma filter_nil_iff {A : Type} (f : A -> bool) (l : list A) :
  List.filter f l = [] <-> (forall x, In x l -> f x = false).
Proof.
  induction l as [|a l IH]; simpl.
  - split; [intros _ x [] | reflexivity].
  - destruct (f a) eqn:Fa.
    + split; [discriminate|]. intros Hall.
      rewrite (Hall a) in Fa by (left; reflexivity). discriminate.
    + rewrite IH. split.
      * intros Hall x [<-|Hx]; [exact Fa | apply Hall, Hx].
      * intros Hall x Hx. apply Hall. right. exact Hx.
Qed.

Lemma existsb_false_iff {A : Type} (f : A -> bool) (l : list A) :
  List.existsb f l = false <-> (forall x, In x l -> f x = false).
Proof.
  induction l as [|a l IH]; simpl.
  - split; [intros _ x [] | reflexivity].
  - rewrite orb_false_iff, IH. split.
    + intros [Fa Hall] x [<-|Hx]; [exact Fa | apply Hall, Hx].
    + intros Hall. split; [apply Hall; left; reflexivity|].
      intros x Hx. apply Hall. right. exact Hx.
Qed.

Lemma find_none_all {A : Type} (f : A -> bool) (l : list A) :
  (forall x, In x l -> f x = false) -> List.find f l = None.
Proof.
  induction l as [|a l IH]; simpl; intros Hall; [reflexivity|].
  rewrite (Hall a) by (left; reflexivity).
  apply IH. intros x Hx. apply Hall. right. exact Hx.
Qed.

Lemma find_app_l {A : Type} (f : A -> bool) (l l' : list A) (x : A) :
  List.find f l = Some x -> List.find f (l ++ l') = Some x.
Proof.
  induction l as [|a l IH]; simpl; [discriminate|].
  destruct (f a); [trivial | exact IH].
Qed.

Lemma find_app_r {A : Type} (f : A -> bool) (l l' : list A) :
  List.find f l = None -> List.find f (l ++ l') = List.find f l'.
Proof.
  induction l as [|a l IH]; simpl; [reflexivity|].
  destruct (f a); [discriminate | exact IH].
Qed.

Lemma find_filter_implied {A : Type} (f g : A -> bool) (l : list A) :
  (forall x, f x = true -> g x = true) ->
  List.find f (List.filter g l) = List.find f l.
Proof.
  intros Himp. induction l as [|a l IH]; simpl; [reflexivity|].
  destruct (g a) eqn:Ga; simpl.
  - destruct (f a); [reflexivity | exact IH].
  - destruct (f a) eqn:Fa; [|exact IH].
    rewrite (Himp a Fa) in Ga. discriminate.
Qed.

Lemma filter_filter_disjoint {A : Type} (f g : A -> bool) (l : list A) :
  (forall x, f x = true -> g x = false) ->
  List.filter f (List.filter g l) = [].
Proof.
  intros Hd. apply filter_nil_iff. intros x Hx.
  apply filter_In in Hx as [_ Gx].
  destruct (f x) eqn:Fx; [|reflexivity].
  rewrite (Hd x Fx) in Gx. discriminate.
Qed.

Lemma filter_filter_implied {A : Type} (f g : A -> bool) (l : list A) :
  (forall x, f x = true -> g x = true) ->
  List.filter f (List.filter g l) = List.filter f l.
Proof.
  intros Himp. induction l as [|a l IH]; simpl; [reflexivity|].
  destruct (g a) eqn:Ga; simpl.
  - destruct (f a); [f_equal|]; exact IH.
  - destruct (f a) eqn:Fa; [|exact IH].
    rewrite (Himp a Fa) in Ga. discriminate.
Qed.

(** ** The table of birthdays *)
Section Birthdays.
Import Database Store.

Lemma insertBirthday_get (d : db) (now : Z) (uid : string)
  (date : option string) :
  getBirthday (insertBirthday d now uid date) uid
  = Some {| user_id := uid; birth_date := COALESCE date "1900-01-01";
            created_at := now; updated_at := now;
            notification_sent := false; last_notification_date := None |}.
Proof.
  unfold getBirthday, insertBirthday. simpl.
  rewrite find_app_r.
  - simpl. now rewrite String.eqb_refl.
  - apply find_none_all. intros x Hx.
    apply filter_In in Hx as [_ Hx].
    now apply negb_true_iff in Hx.
Qed.

Lemma insertBirthday_count (d : db) (now : Z) (uid : string)
  (date : option string) :
  checkUserExists (insertBirthday d now uid date) uid = 1.
Proof.
  unfold checkUserExists, insertBirthday. simpl.
  rewrite List.filter_app, filter_filter_disjoint.
  - simpl. now rewrite String.eqb_refl.
  - intros x Hx. now rewrite Hx.
Qed.

Lemma insertBirthday_get_other (d : db) (now : Z) (uid uid' : string)
  (date : option string) :
  uid' <> uid ->
  getBirthday (insertBirthday d now uid' date) uid = getBirthday d uid.
Proof.
  intros Hne. unfold getBirthday, insertBirthday. simpl.
  assert (Himp : forall x : birthday_row,
             String.eqb (user_id x) uid = true ->
             negb (String.eqb (user_id x) uid') = true).
  { intros x Hx. apply eqb_string_true in Hx. apply negb_true_iff.
    apply eqb_string_false. congruence. }
  destruct (List.find (fun r => String.eqb (user_id r) uid) (birthdays d))
    as [r|] eqn:Hf.
  - apply find_app_l. now rewrite find_filter_implied.
  - rewrite find_app_r by now rewrite find_filter_implied.
    simpl. apply eqb_string_false in Hne. now rewrite Hne.
Qed.

Lemma insertBirthday_count_other (d : db) (now : Z) (uid uid' : string)
  (date : option string) :
  uid' <> uid ->
  checkUserExists (insertBirthday d now uid' date) uid = checkUserExists d uid.
Proof.
  intros Hne. unfold checkUserExists, insertBirthday. simpl.
  rewrite List.filter_app, filter_filter_implied.
  - simpl. apply eqb_string_false in Hne. rewrite Hne. simpl.
    now rewrite List.app_nil_r.
  - intros x Hx. apply eqb_string_true in Hx. apply negb_true_iff.
    apply eqb_string_false. congruence.
Qed.

Lemma upsert_all_snoc (d : db) calls now uid date :
  upsert_all d (calls ++ [(now, uid, date)])
  = upsertBirthday (upsert_all d calls) now uid date.
Proof. unfold upsert_all. now rewrite List.fold_left_app. Qed.

Lemma last_written_snoc calls (now : Z) (u : string) (date : option string)
  (uid : string) :
  last_written (calls ++ [(now, u, date)]) uid
  = if String.eqb u uid then Some (COALESCE date "1900-01-01")
    else last_written calls uid.
Proof. unfold last_written. now rewrite List.fold_left_app. Qed.

(** C7. For every member id, [upsertBirthday] followed by [getBirthday]
    returns the last-written date, and after any sequence of
    [upsertBirthday] calls there is exactly one birthday row for that
    member: the later call overwrites. Whatever the store held and
    whatever calls were made, once a call for [uid] has written [date],
    the store holds one row for [uid] and [getBirthday] reads [date]
    from it. A call on a member id that is already stored is no failure:
    [upsertBirthday] has a result on every store. *)
Theorem C7_upsert_then_get_last_written :
  forall (d : db) (calls : list (Z * string * option string))
         (uid date : string),
    last_written calls uid = Some date ->
    checkUserExists (upsert_all d calls) uid = 1
    /\ exists r, getBirthday (upsert_all d calls) uid = Some r
                 /\ user_id r = uid /\ birth_date r = date.
Proof.
  intros d calls. induction calls as [|[[now u] dt] calls IH] using List.rev_ind;
    intros uid date Hlast.
  - discriminate.
  - rewrite upsert_all_snoc. rewrite last_written_snoc in Hlast.
    unfold upsertBirthday.
    destruct (String.eqb u uid) eqn:Hu.
    + apply eqb_string_true in Hu. subst u. injection Hlast as <-.
      split; [apply insertBirthday_count|].
      eexists. split; [apply insertBirthday_get|]. now simpl.
    + apply eqb_string_false in Hu.
      rewrite insertBirthday_count_other, insertBirthday_get_other by exact Hu.
      now apply IH.
Qed.

Lemma C7_upsert_then_get_last_written_witness :
  last_written Examples.three_upserts "U1" = Some "25-12"
  /\ checkUserExists (upsert_all empty_db Examples.three_upserts) "U1" = 1
  /\ exists r, getBirthday (upsert_all empty_db Examples.three_upserts) "U1"
               = Some r
               /\ user_id r = "U1" /\ birth_date r = "25-12".
Proof.
  split; [reflexivity|].
  apply (C7_upsert_then_get_last_written empty_db Examples.three_upserts
           "U1" "25-12").
  reflexivity.
Defined.

(** C10. Every call to [upsertBirthday], with or without a date and
    whether or not the member had a record, leaves that member with one
    record whose [notification_sent] is false and whose
    [last_notification_date] is null. *)
Theorem C10_upsert_resets_notification_bookkeeping :
  forall (d : db) (now : Z) (uid : string) (date : option string),
    checkUserExists (upsertBirthday d now uid date) uid = 1
    /\ exists r, getBirthday (upsertBirthday d now uid date) uid = Some r
                 /\ notification_sent r = false
                 /\ last_notification_date r = None.
Proof.
  intros d now uid date. unfold upsertBirthday.
  split; [apply insertBirthday_count|].
  eexists. split; [apply insertBirthday_get|]. now simpl.
Qed.

End Birthdays.

(** ** The two message tables *)
Section MessageTables.
Import Database.
Context {R : Type} `{MsgRow R}.

Lemma same_key_iff (a b : R) : same_key a b = true <-> key_of a = key_of b.
Proof.
  unfold same_key, key_of.
  rewrite !andb_true_iff, !eqb_string_true, Z.eqb_eq.
  split.
  - intros [[[-> ->] ->] ->]. reflexivity.
  - intros Heq. injection Heq as -> -> -> ->. auto.
Qed.

Lemma existsb_same_key (r : R) (rows : list R) :
  List.existsb (same_key r) rows = true <-> In (key_of r) (List.map key_of rows).
Proof.
  rewrite List.existsb_exists, List.in_map_iff. split.
  - intros [x [Hx Hk]]. exists x. apply same_key_iff in Hk. auto.
  - intros [x [Hk Hx]]. exists x. split; [exact Hx|].
    apply same_key_iff. auto.
Qed.

Lemma insert_or_ignore_dup (rows : list R) (r : R) :
  In (key_of r) (List.map key_of rows) -> insert_or_ignore rows r = (rows, 0).
Proof.
  intros Hin. unfold insert_or_ignore.
  apply existsb_same_key in Hin. now rewrite Hin.
Qed.

Lemma insert_or_ignore_new (rows : list R) (r : R) :
  ~ In (key_of r) (List.map key_of rows) ->
  insert_or_ignore rows r = (rows ++ [r], 1).
Proof.
  intros Hnin. unfold insert_or_ignore.
  destruct (List.existsb (same_key r) rows) eqn:Hex; [|reflexivity].
  apply existsb_same_key in Hex. contradiction.
Qed.

Lemma insert_or_ignore_holds_key (rows : list R) (r : R) :
  In (key_of r) (List.map key_of (fst (insert_or_ignore rows r))).
Proof.
  unfold insert_or_ignore.
  destruct (List.existsb (same_key r) rows) eqn:Hex; simpl.
  - now apply existsb_same_key.
  - rewrite List.map_app. apply List.in_or_app. right. now left.
Qed.

Lemma insert_or_ignore_unique (rows : list R) (r : R) :
  unique_index rows -> unique_index (fst (insert_or_ignore rows r)).
Proof.
  unfold unique_index, insert_or_ignore. intros Hnd.
  destruct (List.existsb (same_key r) rows) eqn:Hex; simpl; [exact Hnd|].
  rewrite List.map_app. simpl.
  apply List.NoDup_app; [exact Hnd | repeat constructor; intros [] |].
  intros k Hk [<-|[]].
  apply existsb_same_key in Hk. congruence.
Qed.

Lemma mark_sent_no_unsent (rows : list R) (cid : string) :
  List.filter (unsent_for cid) (fst (mark_sent rows cid)) = [].
Proof.
  unfold mark_sent. simpl. apply filter_nil_iff. intros x Hx.
  apply List.in_map_iff in Hx as [r [<- _]].
  destruct (unsent_for cid r) eqn:Hu; [|exact Hu].
  unfold unsent_for. rewrite sent_set_sent. simpl. apply andb_false_r.
Qed.

Lemma mark_sent_keys (rows : list R) (cid : string) :
  List.map key_of (fst (mark_sent rows cid)) = List.map key_of rows.
Proof.
  unfold mark_sent. simpl. rewrite List.map_map. apply List.map_ext.
  intros r. destruct (unsent_for cid r); [|reflexivity].
  unfold key_of.
  now rewrite celebrant_set_sent, sender_set_sent, message_set_sent,
    created_set_sent.
Qed.

Lemma mark_sent_fixpoint (rows : list R) (cid : string) :
  List.filter (unsent_for cid) rows = [] -> mark_sent rows cid = (rows, 0).
Proof.
  intros Hnone. unfold mark_sent, count_unsent. rewrite Hnone. simpl.
  f_equal. rewrite <- (List.map_id rows) at 2. apply List.map_ext_in.
  intros r Hr. rewrite filter_nil_iff in Hnone. now rewrite (Hnone r Hr).
Qed.

Lemma select_unsent_after_mark (tie : R -> R -> bool) (rows : list R)
  (cid : string) :
  select_unsent tie (fst (mark_sent rows cid)) cid = [].
Proof. unfold select_unsent. now rewrite mark_sent_no_unsent. Qed.

Lemma mark_sent_twice (rows : list R) (cid : string) :
  mark_sent (fst (mark_sent rows cid)) cid = (fst (mark_sent rows cid), 0).
Proof. apply mark_sent_fixpoint, mark_sent_no_unsent. Qed.

End MessageTables.

(** ** Counting rows by key *)
Section Keys.
Import Database Store.

Lemma key_is_iff cid sid msg day key :
  key_is cid sid msg day key = true <-> key = (cid, sid, msg, day).
Proof.
  destruct key as [[[c s] m] dy]. unfold key_is.
  rewrite !andb_true_iff, !eqb_string_true, Z.eqb_eq.
  split.
  - intros [[[-> ->] ->] ->]. reflexivity.
  - intros Heq. injection Heq as -> -> -> ->. auto.
Qed.

Lemma count_key_absent cid sid msg day (ks : list (string * string * string * Z)) :
  ~ In (cid, sid, msg, day) ks ->
  List.filter (key_is cid sid msg day) ks = [].
Proof.
  intros Hnin. apply filter_nil_iff. intros x Hx.
  destruct (key_is cid sid msg day x) eqn:Hk; [|reflexivity].
  apply key_is_iff in Hk. subst x. contradiction.
Qed.

Lemma count_key_present cid sid msg day (ks : list (string * string * string * Z)) :
  NoDup ks -> In (cid, sid, msg, day) ks ->
  List.length (List.filter (key_is cid sid msg day) ks) = 1%nat.
Proof.
  induction ks as [|a ks IH]; intros Hnd Hin; [destruct Hin|].
  inversion Hnd as [|? ? Hna Hnd']; subst. simpl.
  destruct (key_is cid sid msg day a) eqn:Hk.
  - apply key_is_iff in Hk. subst a.
    now rewrite count_key_absent.
  - destruct Hin as [->|Hin]; [|now apply IH].
    assert (Ht : key_is cid sid msg day (cid, sid, msg, day) = true)
      by now apply key_is_iff.
    congruence.
Qed.

Lemma stored_on_zero_absent k d cid sid msg day :
  stored_on k d cid sid msg day = 0 -> ~ In (cid, sid, msg, day) (keys k d).
Proof.
  unfold stored_on. intros Hz Hin.
  assert (Hin' : In (cid, sid, msg, day)
                    (List.filter (key_is cid sid msg day) (keys k d))).
  { apply filter_In. split; [exact Hin | now apply key_is_iff]. }
  destruct (List.filter (key_is cid sid msg day) (keys k d)); [destruct Hin'|].
  simpl in Hz. lia.
Qed.

Lemma set_birthday_messages_same d :
  set_birthday_messages d (birthday_messages d) (seq_birthday_messages d) = d.
Proof. now destruct d. Qed.

Lemma set_description_messages_same d :
  set_description_messages d (description_messages d)
    (seq_description_messages d) = d.
Proof. now destruct d. Qed.

(** What one submission does to the keys of its table, the celebrant
    being known. *)
Lemma add_keys k d now cid sid sname msg media :
  celebrant_known d cid = true ->
  let key := (cid, sid, msg, DATE now) in
  (In key (keys k d)
   /\ fst (add k d now cid sid sname msg media) = Returned 0
   /\ same_rows d (snd (add k d now cid sid sname msg media)))
  \/ (~ In key (keys k d)
      /\ fst (add k d now cid sid sname msg media) = Returned 1
      /\ keys k (snd (add k d now cid sid sname msg media))
         = keys k d ++ [key]
      /\ celebrant_known (snd (add k d now cid sid sname msg media)) cid
         = true).
Proof.
  intros Hknown key.
  destruct (List.in_dec
              (fun a b : string * string * string * Z =>
                 ltac:(repeat decide equality) : {a = b} + {a <> b})
              key (keys k d)) as [Hin|Hnin]; [left|right]; split; try assumption.
  - destruct k; simpl in *;
      unfold insertBirthdayMessage, insertDescriptionMessage;
      rewrite Hknown.
    + rewrite insert_or_ignore_dup by exact Hin.
      split; [reflexivity | repeat split].
    + rewrite insert_or_ignore_dup by exact Hin.
      split; [reflexivity | repeat split].
  - destruct k; simpl in *;
      unfold insertBirthdayMessage, insertDescriptionMessage;
      rewrite Hknown.
    + rewrite insert_or_ignore_new by exact Hnin. simpl.
      rewrite List.map_app. auto.
    + rewrite insert_or_ignore_new by exact Hnin. simpl.
      rewrite List.map_app. auto.
Qed.

Lemma same_rows_keys k d d' : same_rows d d' -> keys k d' = keys k d.
Proof. intros [_ [Hm Hd]]. destruct k; unfold keys; congruence. Qed.

Lemma same_rows_known d d' cid :
  same_rows d d' -> celebrant_known d' cid = celebrant_known d cid.
Proof. intros [Hb _]. unfold celebrant_known. now rewrite Hb. Qed.

Lemma add_keeps_indexes k d now cid sid sname msg media :
  indexes_ok d -> indexes_ok (snd (add k d now cid sid sname msg media)).
Proof.
  intros [Hb Hd].
  destruct k; simpl;
    unfold insertBirthdayMessage, insertDescriptionMessage;
    destruct (celebrant_known d cid); simpl; try (split; assumption).
  - pose proof (insert_or_ignore_unique (birthday_messages d)
      {| bm_id := seq_birthday_messages d + 1; bm_celebrant_id := cid;
         bm_sender_id := sid; bm_sender_name := sname; bm_message := msg;
         bm_media_url := media; bm_created_at := now;
         bm_sent_in_thread := false |} Hb) as Hu.
    destruct (insert_or_ignore (birthday_messages d) _) as [rows ch].
    split; [exact Hu | exact Hd].
  - pose proof (insert_or_ignore_unique (description_messages d)
      {| dm_id := seq_description_messages d + 1; dm_celebrant_id := cid;
         dm_sender_id := sid; dm_sender_name := sname; dm_message := msg;
         dm_created_at := now; dm_sent_in_thread := false |} Hd) as Hu.
    destruct (insert_or_ignore (description_messages d) _) as [rows ch].
    split; [exact Hb | exact Hu].
Qed.

Lemma keys_unique k d : indexes_ok d -> NoDup (keys k d).
Proof. intros [Hb Hd]. destruct k; assumption. Qed.

Lemma empty_db_indexes_ok : indexes_ok empty_db.
Proof. split; constructor. Qed.

Lemma upsertBirthday_keeps_indexes d now uid date :
  indexes_ok d -> indexes_ok (upsertBirthday d now uid date).
Proof. intros Hidx. exact Hidx. Qed.

Lemma markDelivered_keeps_indexes k d cid :
  indexes_ok d -> indexes_ok (snd (markDelivered k d cid)).
Proof.
  intros [Hb Hd]. destruct k; unfold markDelivered.
  - unfold markMessagesAsSent.
    pose proof (mark_sent_keys (birthday_messages d) cid) as Hk.
    destruct (mark_sent (birthday_messages d) cid) as [rows ch].
    split; [|exact Hd]. unfold unique_index. simpl in *. now rewrite Hk.
  - unfold markDescriptionMessagesAsSent.
    pose proof (mark_sent_keys (description_messages d) cid) as Hk.
    destruct (mark_sent (description_messages d) cid) as [rows ch].
    split; [exact Hb|]. unfold unique_index. simpl in *. now rewrite Hk.
Qed.

End Keys.

(** ** Deduplication and delivery *)
Section Submissions.
Import Database Store.

Lemma triple_is_key cid sid msg day :
  triple_is cid sid msg (cid, sid, msg, day) = true.
Proof. unfold triple_is. now rewrite !String.eqb_refl. Qed.

Lemma stored_snoc_key k d d' cid sid msg day :
  keys k d' = keys k d ++ [(cid, sid, msg, day)] ->
  stored k d' cid sid msg = stored k d cid sid msg + 1.
Proof.
  intros Hk. unfold stored. rewrite Hk, List.filter_app, List.length_app.
  cbn [List.filter]. rewrite triple_is_key. cbn [List.length]. lia.
Qed.

(** C4. For every celebrant with a birthday record, sender and message
    text, in a store whose unique indexes hold: submitting the identical
    tribute (or description) twice on the same calendar day leaves exactly
    one stored row; the second insert reports zero rows changed, is no
    error, and leaves every table with the rows it had. Submitting it on
    a different calendar day, when neither day held it, yields two rows
    more. *)
Theorem C4_same_day_one_row_other_day_two_rows :
  forall (k : kind) (d : db) (now1 now2 : Z)
         (cid sid sname1 sname2 msg : string) (media1 media2 : option string),
    celebrant_known d cid = true ->
    indexes_ok d ->
    let first := add k d now1 cid sid sname1 msg media1 in
    let second := add k (snd first) now2 cid sid sname2 msg media2 in
    (DATE now1 = DATE now2 ->
       fst second = Returned 0
       /\ same_rows (snd first) (snd second)
       /\ stored_on k (snd second) cid sid msg (DATE now1) = 1)
    /\ (DATE now1 <> DATE now2 ->
        stored_on k d cid sid msg (DATE now1) = 0 ->
        stored_on k d cid sid msg (DATE now2) = 0 ->
        fst first = Returned 1 /\ fst second = Returned 1
        /\ stored k (snd second) cid sid msg = stored k d cid sid msg + 2).
Proof.
  intros k d now1 now2 cid sid sname1 sname2 msg media1 media2 Hknown Hidx
    first second.
  pose proof (add_keeps_indexes k d now1 cid sid sname1 msg media1 Hidx) as Hidx1.
  pose proof (add_keys k d now1 cid sid sname1 msg media1 Hknown) as Hfirst.
  fold first in Hidx1, Hfirst. simpl in Hfirst.
  assert (Hknown1 : celebrant_known (snd first) cid = true).
  { destruct Hfirst as [[_ [_ Hsame]]|[_ [_ [_ Hk]]]]; [|exact Hk].
    now rewrite (same_rows_known _ _ cid Hsame). }
  assert (Hin1 : In (cid, sid, msg, DATE now1) (keys k (snd first))).
  { destruct Hfirst as [[Hin [_ Hsame]]|[_ [_ [-> _]]]].
    - now rewrite (same_rows_keys k _ _ Hsame).
    - apply List.in_or_app. right. now left. }
  pose proof (add_keys k (snd first) now2 cid sid sname2 msg media2 Hknown1)
    as Hsecond.
  fold second in Hsecond. simpl in Hsecond.
  split.
  - intros Hday. rewrite <- Hday in Hsecond.
    destruct Hsecond as [[_ [Hret Hsame]]|[Hnin _]]; [|contradiction].
    split; [exact Hret|]. split; [exact Hsame|].
    unfold stored_on. rewrite (same_rows_keys k _ _ Hsame).
    now rewrite count_key_present by (auto using keys_unique).
  - intros Hday Hz1 Hz2.
    apply stored_on_zero_absent in Hz1, Hz2.
    destruct Hfirst as [[Hin _]|[_ [Hr1 [Hk1 _]]]]; [contradiction|].
    destruct Hsecond as [[Hin _]|[_ [Hr2 [Hk2 _]]]].
    + rewrite Hk1 in Hin. apply List.in_app_or in Hin as [Hin|[Heq|[]]];
        [contradiction|]. injection Heq as Heq. congruence.
    + repeat split; [exact Hr1 | exact Hr2 |].
      rewrite (stored_snoc_key k (snd first) (snd second) cid sid msg (DATE now2))
        by exact Hk2.
      rewrite (stored_snoc_key k d (snd first) cid sid msg (DATE now1))
        by exact Hk1.
      lia.
Qed.

Lemma C4_same_day_one_row_other_day_two_rows_witness :
  celebrant_known Examples.registered_db "U1" = true
  /\ indexes_ok Examples.registered_db
  /\ (fst Examples.same_day_again = Returned 0
      /\ same_rows (snd Examples.first_tribute) (snd Examples.same_day_again)
      /\ stored_on Tribute (snd Examples.same_day_again) "U1" "U2"
           "Happy birthday!" 0 = 1)
  /\ (fst Examples.first_tribute = Returned 1
      /\ fst Examples.next_day_again = Returned 1
      /\ stored Tribute (snd Examples.next_day_again) "U1" "U2"
           "Happy birthday!"
         = stored Tribute Examples.registered_db "U1" "U2" "Happy birthday!"
           + 2).
Proof.
  assert (Hidx : indexes_ok Examples.registered_db) by (split; constructor).
  split; [reflexivity|]. split; [exact Hidx|]. split.
  - apply (proj1 (C4_same_day_one_row_other_day_two_rows Tribute
                    Examples.registered_db 1000 2000
                    "U1" "U2" "Jane" "Jane" "Happy birthday!" None None
                    eq_refl Hidx)).
    reflexivity.
  - apply (proj2 (C4_same_day_one_row_other_day_two_rows Tribute
                    Examples.registered_db 1000 90000
                    "U1" "U2" "Jane" "Jane" "Happy birthday!" None None
                    eq_refl Hidx)).
    + discriminate.
    + reflexivity.
    + reflexivity.
Defined.

(** An ignored insert uses up an id: with the tribute stored as row 1
    and sent again on the same day, the next day's row is row 3. *)
Example ignored_insert_uses_an_id :
  List.map bm_id
    (birthday_messages
       (snd (add Tribute (snd Examples.same_day_again) 90000 "U1" "U2" "Jane"
               "Happy birthday!" None)))
  = [1; 3].
Proof. reflexivity. Qed.

(** C8. For every celebrant and kind, [listUndelivered] returns no row
    after [markDelivered] has been called for that celebrant and kind, and
    a second consecutive [markDelivered] changes zero rows and leaves the
    store as it was. *)
Theorem C8_mark_delivered_empties_list_and_is_idempotent :
  forall (k : kind) (d : db) (cid : string),
    let d1 := snd (markDelivered k d cid) in
    listUndelivered k d1 cid = []
    /\ markDelivered k d1 cid = (0, d1).
Proof.
  intros k d cid.
  destruct k; unfold markDelivered, listUndelivered.
  - unfold markMessagesAsSent, getBirthdayMessages.
    pose proof (select_unsent_after_mark (tie_birthday_messages d)
                  (birthday_messages d) cid) as Hsel.
    pose proof (mark_sent_twice (birthday_messages d) cid) as Htw.
    destruct (mark_sent (birthday_messages d) cid) as [rows ch].
    cbn [fst snd birthday_messages set_birthday_messages
         seq_birthday_messages tie_birthday_messages] in *.
    rewrite Hsel, Htw. split; reflexivity.
  - unfold markDescriptionMessagesAsSent, getDescriptionMessages.
    pose proof (select_unsent_after_mark (tie_description_messages d)
                  (description_messages d) cid) as Hsel.
    pose proof (mark_sent_twice (description_messages d) cid) as Htw.
    destruct (mark_sent (description_messages d) cid) as [rows ch].
    cbn [fst snd description_messages set_description_messages
         seq_description_messages tie_description_messages] in *.
    rewrite Hsel, Htw. split; reflexivity.
Qed.

Lemma markDescriptions_then_none (d : db) (cid : string) :
  getDescriptionMessages (snd (markDescriptionMessagesAsSent d cid)) cid = [].
Proof.
  unfold markDescriptionMessagesAsSent, getDescriptionMessages.
  pose proof (select_unsent_after_mark (tie_description_messages d)
                (description_messages d) cid) as Hsel.
  destruct (mark_sent (description_messages d) cid) as [rows ch].
  exact Hsel.
Qed.

End Submissions.

(** ** A program logic for the computations *)
Section ProgramLogic.
Import Effects Logic.

Lemma hoare_ret {A : Type} (P : world -> Prop) (a : A)
  (T : js_error -> world -> Prop) :
  hoare P (ret a) (fun x w => x = a /\ P w) T.
Proof. intros w Hw. simpl. auto. Qed.

Lemma hoare_throw {A : Type} (P : world -> Prop) (e : js_error)
  (Q : A -> world -> Prop) :
  hoare P (throw e) Q (fun x w => x = e /\ P w).
Proof. intros w Hw. simpl. auto. Qed.

Lemma hoare_bind {A B : Type} (P : world -> Prop) (m : M A) (k : A -> M B)
  (Q : A -> world -> Prop) (Q' : B -> world -> Prop)
  (T : js_error -> world -> Prop) :
  hoare P m Q T -> (forall a, hoare (Q a) (k a) Q' T) ->
  hoare P (bind m k) Q' T.
Proof.
  intros Hm Hk w Hw. unfold bind. specialize (Hm w Hw).
  destruct (m w) as [[a|e] w']; [apply (Hk a w' Hm) | exact Hm].
Qed.

Lemma hoare_try_catch {A : Type} (P : world -> Prop) (m : M A)
  (h : js_error -> M A) (Q : A -> world -> Prop)
  (T T' : js_error -> world -> Prop) :
  hoare P m Q T -> (forall e, hoare (T e) (h e) Q T') ->
  hoare P (try_catch m h) Q T'.
Proof.
  intros Hm Hh w Hw. unfold try_catch. specialize (Hm w Hw).
  destruct (m w) as [[a|e] w']; [exact Hm | apply (Hh e w' Hm)].
Qed.

Lemma hoare_weaken {A : Type} (P P' : world -> Prop) (m : M A)
  (Q Q' : A -> world -> Prop) (T T' : js_error -> world -> Prop) :
  hoare P m Q T ->
  (forall w, P' w -> P w) ->
  (forall a w, Q a w -> Q' a w) ->
  (forall e w, T e w -> T' e w) ->
  hoare P' m Q' T'.
Proof.
  intros Hm HP HQ HT w Hw. specialize (Hm w (HP w Hw)).
  destruct (m w) as [[a|e] w']; auto.
Qed.

Lemma hoare_for_of {A : Type} (I : world -> Prop) (l : list A)
  (body : A -> M unit) (T : js_error -> world -> Prop) :
  (forall x, hoare I (body x) (fun _ => I) T) ->
  hoare I (for_of l body) (fun _ => I) T.
Proof.
  intros Hbody. induction l as [|x l IH]; simpl.
  - intros w Hw. exact Hw.
  - eapply hoare_bind; [apply Hbody|]. intros u. exact IH.
Qed.

(** *** Computations that never throw *)

Lemma never_throws_hoare {A : Type} (m : M A) :
  never_throws m <-> hoare (fun _ => True) m (fun _ _ => True) (fun _ _ => False).
Proof.
  split.
  - intros Hm w _. destruct (Hm w) as [a [w' ->]]. exact I.
  - intros Hm w. specialize (Hm w I).
    destruct (m w) as [[a|e] w']; [eauto | contradiction].
Qed.

Lemma never_throws_ret {A : Type} (a : A) : never_throws (ret a).
Proof. intros w. unfold ret. eauto. Qed.

Lemma never_throws_bind {A B : Type} (m : M A) (k : A -> M B) :
  never_throws m -> (forall a, never_throws (k a)) -> never_throws (bind m k).
Proof.
  intros Hm Hk w. unfold bind. destruct (Hm w) as [a [w' ->]]. apply Hk.
Qed.

Lemma never_throws_try_catch {A : Type} (m : M A) (h : js_error -> M A) :
  (forall e, never_throws (h e)) -> never_throws (try_catch m h).
Proof.
  intros Hh w. unfold try_catch.
  destruct (m w) as [[a|e] w']; [eauto | apply Hh].
Qed.

Lemma never_throws_for_of {A : Type} (l : list A) (body : A -> M unit) :
  (forall x, never_throws (body x)) -> never_throws (for_of l body).
Proof.
  intros Hbody. induction l as [|x l IH]; simpl.
  - apply never_throws_ret.
  - apply never_throws_bind; [apply Hbody | intros u; exact IH].
Qed.

Lemma never_throws_log msg : never_throws (log msg).
Proof. intros w. unfold log. eauto. Qed.

Lemma never_throws_log_with msg e : never_throws (log_with msg e).
Proof. intros w. unfold log_with. eauto. Qed.

Lemma never_throws_log_error msg e : never_throws (log_error msg e).
Proof. intros w. unfold log_error. eauto. Qed.

Lemma never_throws_get_db : never_throws get_db.
Proof. intros w. unfold get_db. eauto. Qed.

Lemma never_throws_put_db d : never_throws (put_db d).
Proof. intros w. unfold put_db. eauto. Qed.

Lemma never_throws_sql_now E : never_throws (sql_now E).
Proof. intros w. unfold sql_now. eauto. Qed.

Lemma never_throws_delay ms : never_throws (delay ms).
Proof. intros w. unfold delay. eauto. Qed.

(** *** Computations that leave the database alone *)

Lemma keeps_db_ret {A : Type} (a : A) : keeps_db (ret a).
Proof. intros w. reflexivity. Qed.

Lemma keeps_db_throw {A : Type} (e : js_error) : keeps_db (@throw A e).
Proof. intros w. reflexivity. Qed.

Lemma keeps_db_bind {A B : Type} (m : M A) (k : A -> M B) :
  keeps_db m -> (forall a, keeps_db (k a)) -> keeps_db (bind m k).
Proof.
  intros Hm Hk w. unfold bind. specialize (Hm w).
  destruct (m w) as [[a|e] w']; simpl in *; [|exact Hm].
  now rewrite Hk.
Qed.

Lemma keeps_db_try_catch {A : Type} (m : M A) (h : js_error -> M A) :
  keeps_db m -> (forall e, keeps_db (h e)) -> keeps_db (try_catch m h).
Proof.
  intros Hm Hh w. unfold try_catch. specialize (Hm w).
  destruct (m w) as [[a|e] w']; simpl in *; [exact Hm|].
  now rewrite Hh.
Qed.

Lemma keeps_db_for_of {A : Type} (l : list A) (body : A -> M unit) :
  (forall x, keeps_db (body x)) -> keeps_db (for_of l body).
Proof.
  intros Hbody. induction l as [|x l IH]; simpl.
  - apply keeps_db_ret.
  - apply keeps_db_bind; [apply Hbody | intros u; exact IH].
Qed.

Lemma keeps_db_log msg : keeps_db (log msg).
Proof. intros w. reflexivity. Qed.

Lemma keeps_db_log_with msg e : keeps_db (log_with msg e).
Proof. intros w. reflexivity. Qed.

Lemma keeps_db_log_error msg e : keeps_db (log_error msg e).
Proof. intros w. reflexivity. Qed.

Lemma keeps_db_get_db : keeps_db get_db.
Proof. intros w. reflexivity. Qed.

Lemma keeps_db_sql_now E : keeps_db (sql_now E).
Proof. intros w. reflexivity. Qed.

Lemma keeps_db_delay ms : keeps_db (delay ms).
Proof. intros w. reflexivity. Qed.

Lemma keeps_db_users_list E c : keeps_db (api_users_list E c).
Proof. intros w. reflexivity. Qed.

Lemma keeps_db_conversations_open E u : keeps_db (api_conversations_open E u).
Proof. intros w. reflexivity. Qed.

Lemma keeps_db_postMessage E p : keeps_db (api_postMessage E p).
Proof. intros w. reflexivity. Qed.

Lemma keeps_db_messages_create E p : keeps_db (api_messages_create E p).
Proof. intros w. reflexivity. Qed.

Lemma keeps_db_hoare {A : Type} (m : M A) (d : Database.db) :
  keeps_db m ->
  hoare (fun w => w_db w = d) m (fun _ w => w_db w = d) (fun _ w => w_db w = d).
Proof.
  intros Hm w Hw. specialize (Hm w).
  destruct (m w) as [[a|e] w']; simpl in Hm; congruence.
Qed.

End ProgramLogic.

Create HintDb js discriminated.
#[export] Hint Resolve
  never_throws_ret never_throws_log never_throws_log_with
  never_throws_log_error never_throws_get_db never_throws_put_db
  never_throws_sql_now never_throws_delay
  keeps_db_ret keeps_db_throw keeps_db_log keeps_db_log_with
  keeps_db_log_error keeps_db_get_db keeps_db_sql_now keeps_db_delay
  keeps_db_users_list keeps_db_conversations_open keeps_db_postMessage
  keeps_db_messages_create : js.

(** Splits a goal about a composed computation along its structure. *)
Ltac step_js :=
  repeat first
    [ apply never_throws_bind; [|intros ?]
    | apply never_throws_try_catch; intros ?
    | apply never_throws_for_of; intros ?
    | apply keeps_db_bind; [|intros ?]
    | apply keeps_db_try_catch; [|intros ?]
    | apply keeps_db_for_of; intros ?
    | solve [auto with js] ].

(** ** The poem generator *)
Section Poem.
Import Slack Effects Logic Database Service.

Lemma fallback_poem_not_empty : fallback_poem <> EmptyString.
Proof. discriminate. Qed.

Lemma keeps_db_first_text_trimmed r : keeps_db (first_text_trimmed r).
Proof.
  unfold first_text_trimmed.
  destruct (content r) as [|b ?]; [step_js|].
  destruct (block_text b); step_js.
Qed.

Lemma generateBirthdayPoem_never_throws E descriptions :
  never_throws (generateBirthdayPoem E descriptions).
Proof. unfold generateBirthdayPoem. step_js. Qed.

Lemma generateBirthdayPoem_keeps_db E descriptions :
  keeps_db (generateBirthdayPoem E descriptions).
Proof.
  unfold generateBirthdayPoem. step_js. apply keeps_db_first_text_trimmed.
Qed.

(** C5, as the code has it. For every input list of descriptions the poem
    generator returns a string to its caller and never raises. When the
    generative call fails (a rejected call: timeout or error response),
    or answers without a first content block or with a first block that
    has no text, the string is the fixed fallback poem, which is not
    empty. Otherwise it is the trimmed text of the first block. *)
Theorem C5_poem_never_raises_fallback_on_failure :
  forall (E : env) (descriptions : list description_row) (w : world),
    fallback_poem <> EmptyString
    /\ exists poem w',
         generateBirthdayPoem E descriptions w = (Returned poem, w')
         /\ poem =
            match messages_create E (w_calls w)
                    (poem_prompt
                       (String.concat nl (List.map dm_message descriptions)))
            with
            | Thrown _ => fallback_poem
            | Returned response =>
                match content response with
                | [] => fallback_poem
                | b :: _ =>
                    match block_text b with
                    | None => fallback_poem
                    | Some t => JS.trim t
                    end
                end
            end.
Proof.
  intros E descriptions w. split; [exact fallback_poem_not_empty|].
  unfold generateBirthdayPoem, try_catch, bind, api_messages_create,
    first_text_trimmed.
  destruct (messages_create E (w_calls w) _) as [response|e]; simpl.
  - destruct (content response) as [|b rest]; simpl; [eauto|].
    destruct (block_text b); simpl; eauto.
  - eauto.
Qed.

(** C5 as stated fails: a generative call that succeeds with a text of
    white space only makes the generator return the empty string. *)
Lemma C5_blank_output_gives_empty_poem :
  fst (generateBirthdayPoem Examples.blank_poem_env Examples.one_description
         Examples.fresh_world)
  = Returned EmptyString.
Proof. reflexivity. Qed.

End Poem.

(** ** The thread poster *)
Section ThreadPoster.
Import Slack Effects Logic Database Service.

Lemma hoare_quiet_bind {A B : Type} (d : db) (m : M A) (k : A -> M B)
  (Q : B -> world -> Prop) (T : js_error -> world -> Prop) :
  never_throws m -> keeps_db m ->
  (forall a, hoare (fun w => w_db w = d) (k a) Q T) ->
  hoare (fun w => w_db w = d) (bind m k) Q T.
Proof.
  intros Hnt Hkeep Hk w Hw. unfold bind.
  destruct (Hnt w) as [a [w' Hrun]]. specialize (Hkeep w).
  rewrite Hrun in *. simpl in Hkeep. apply Hk. congruence.
Qed.

Lemma hoare_post_bind {B : Type} (E : env) (d : db) (p : post)
  (k : post_response -> M B)
  (Q : B -> world -> Prop) (T : js_error -> world -> Prop) :
  (forall e w, w_db w = d -> rejected E e w -> T e w) ->
  (forall a, hoare (fun w => w_db w = d) (k a) Q T) ->
  hoare (fun w => w_db w = d) (bind (api_postMessage E p) k) Q T.
Proof.
  intros HT Hk w Hw. unfold bind, api_postMessage.
  destruct (chat_postMessage E (w_calls w) p) as [a|e] eqn:Hpost.
  - apply Hk. exact Hw.
  - apply HT; [exact Hw|]. exists p, (w_calls w). split; [reflexivity|exact Hpost].
Qed.

Lemma hoare_get_db_bind {B : Type} (d : db) (k : db -> M B)
  (Q : B -> world -> Prop) (T : js_error -> world -> Prop) :
  hoare (fun w => w_db w = d) (k d) Q T ->
  hoare (fun w => w_db w = d) (bind get_db k) Q T.
Proof.
  intros Hk w Hw. unfold bind, get_db. rewrite Hw. apply Hk, Hw.
Qed.

Lemma hoare_put_db (P : world -> Prop) (d : db)
  (T : js_error -> world -> Prop) :
  hoare P (put_db d) (fun _ w => w_db w = d) T.
Proof. intros w _. reflexivity. Qed.

Lemma insert_by_created_at_length {R : Type} `{MsgRow R}
  (tie : R -> R -> bool) (r : R) (l : list R) :
  List.length (insert_by_created_at tie r l) = S (List.length l).
Proof.
  induction l as [|x l IH]; cbn [insert_by_created_at]; [reflexivity|].
  destruct (comes_before tie r x); cbn [List.length]; congruence.
Qed.

Lemma order_by_created_at_length {R : Type} `{MsgRow R}
  (tie : R -> R -> bool) (l : list R) :
  List.length (order_by_created_at tie l) = List.length l.
Proof.
  unfold order_by_created_at.
  enough (Hgen : forall acc : list R,
             List.length
               (List.fold_left (fun a r => insert_by_created_at tie r a) l acc)
             = (List.length l + List.length acc)%nat).
  { rewrite Hgen. simpl. lia. }
  induction l as [|x l IH]; intros acc; simpl; [reflexivity|].
  rewrite IH, insert_by_created_at_length. lia.
Qed.

Lemma select_unsent_nil {R : Type} `{MsgRow R} (tie : R -> R -> bool)
  (rows : list R) (cid : string) :
  select_unsent tie rows cid = [] -> List.filter (unsent_for cid) rows = [].
Proof.
  unfold select_unsent. intros Hsel.
  apply List.length_zero_iff_nil.
  rewrite <- (order_by_created_at_length tie), Hsel. reflexivity.
Qed.

Lemma no_descriptions_mark_is_identity (d : db) (cid : string) :
  getDescriptionMessages d cid = [] ->
  snd (markDescriptionMessagesAsSent d cid) = d.
Proof.
  unfold getDescriptionMessages, markDescriptionMessagesAsSent. intros Hnone.
  rewrite mark_sent_fixpoint by (eapply select_unsent_nil, Hnone).
  simpl. apply set_description_messages_same.
Qed.

(** [postBirthdayThread] from a database [d]: it returns, and either
    both tables are marked, or a post was rejected, the error logged, and
    the database is as it was or has the descriptions marked. *)
Lemma postBirthdayThread_hoare (E : env) (cid : string) (d : db) :
  let dd := snd (markDescriptionMessagesAsSent d cid) in
  let full := snd (markMessagesAsSent dd cid) in
  hoare (fun w => w_db w = d) (postBirthdayThread E cid)
    (fun _ w =>
       w_db w = full
       \/ exists e rest,
            rejected E e w
            /\ w_console w
               = console_error "Error posting birthday thread:" e :: rest
            /\ (w_db w = d \/ w_db w = dd))
    (fun _ _ => False).
Proof.
  intros dd full. unfold postBirthdayThread.
  apply hoare_try_catch
    with (T := fun e w => rejected E e w /\ (w_db w = d \/ w_db w = dd)).
  - apply hoare_post_bind; [auto|]. intros mainPost.
    apply hoare_quiet_bind; [auto with js | auto with js |]. intros _.
    apply hoare_get_db_bind.
    apply hoare_bind with (Q := fun _ w => w_db w = dd).
    + destruct (0 <? Z.of_nat (List.length (getDescriptionMessages d cid)))
        eqn:Hlen.
      * apply hoare_quiet_bind; [auto with js | auto with js |]. intros _.
        apply hoare_quiet_bind;
          [apply generateBirthdayPoem_never_throws
          | apply generateBirthdayPoem_keeps_db |]. intros poem.
        apply hoare_quiet_bind; [auto with js | auto with js |]. intros _.
        apply hoare_post_bind; [auto|]. intros _.
        apply hoare_post_bind; [auto|]. intros _.
        apply hoare_get_db_bind. apply hoare_put_db.
      * intros w Hw. simpl. subst dd.
        rewrite no_descriptions_mark_is_identity; [exact Hw|].
        destruct (getDescriptionMessages d cid); [reflexivity|].
        simpl in Hlen. discriminate.
    + intros _.
      apply hoare_quiet_bind; [auto with js | auto with js |]. intros _.
      apply hoare_get_db_bind.
      apply hoare_bind with (Q := fun _ w => w_db w = dd).
      * apply hoare_for_of. intros message.
        apply hoare_quiet_bind; [auto with js | auto with js |]. intros _.
        apply hoare_post_bind; [auto|]. intros _.
        intros w Hw. exact Hw.
      * intros _. apply hoare_get_db_bind.
        apply hoare_weaken with (P := fun _ => True)
          (Q := fun _ w => w_db w = full) (T := fun _ _ => False);
          [apply hoare_put_db | auto | auto | intros ? ? []].
  - intros e w [Hrej Hdb]. simpl. right. exists e, (w_console w).
    split; [|split; [reflexivity | exact Hdb]].
    destruct Hrej as [p [earlier [Hcalls Hpost]]]. exists p, earlier. auto.
Qed.

End ThreadPoster.


(** ** The daily scheduler *)
Section Scheduler.
Import Slack Effects Logic Database Service Cron.

Lemma triggerBirthdayCollection_never_throws E cid :
  never_throws (triggerBirthdayCollection E cid).
Proof. unfold triggerBirthdayCollection. step_js. Qed.

Lemma postBirthdayThread_never_throws E cid :
  never_throws (postBirthdayThread E cid).
Proof. unfold postBirthdayThread. step_js. Qed.

Lemma fetch_all_users_keeps_db E left cursor acc :
  keeps_db (fetch_all_users E left cursor acc).
Proof.
  revert cursor acc. induction left as [|n IH]; intros cursor acc; simpl.
  - step_js.
  - apply keeps_db_bind; [step_js|]. intros response.
    destruct (truthy_cursor (next_cursor response)); [apply IH | step_js].
Qed.

(** The three statements the cleanup asks for are not among the keys of
    [statements]. *)
Lemma delete_statements_undefined :
  statements "deleteBirthdayMessagesForUser" = None
  /\ statements "deleteDescriptionMessagesForUser" = None
  /\ statements "deleteUser" = None.
Proof. repeat split. Qed.

Lemma cleanup_loop_keeps_db E allUsers birthdays n :
  keeps_db (cleanup_loop E allUsers birthdays n).
Proof.
  revert n. induction birthdays as [|b rest IH]; intros n; simpl.
  - step_js.
  - destruct (gone allUsers (user_id b)); [|apply IH].
    apply keeps_db_bind; [unfold run_statement; simpl; step_js|]. intros _.
    apply keeps_db_bind; [unfold run_statement; simpl; step_js|]. intros _.
    apply keeps_db_bind; [unfold run_statement; simpl; step_js|]. intros _.
    apply IH.
Qed.

Lemma cleanupDeactivatedUsers_keeps_db E : keeps_db (cleanupDeactivatedUsers E).
Proof.
  unfold cleanupDeactivatedUsers.
  apply keeps_db_try_catch; [|step_js].
  apply keeps_db_bind; [step_js|]. intros d.
  apply keeps_db_bind; [apply fetch_all_users_keeps_db|]. intros allUsers.
  apply keeps_db_bind; [apply cleanup_loop_keeps_db|]. intros n.
  destruct (0 <? n); step_js.
Qed.

Lemma cleanupDeactivatedUsers_never_throws E :
  never_throws (cleanupDeactivatedUsers E).
Proof. unfold cleanupDeactivatedUsers. step_js. Qed.

(** The cleanup phase changes no table, whatever the membership list
    says. *)
Lemma cleanup_removes_nothing (E : env) (w : world) :
  exists w', cleanupDeactivatedUsers E w = (Returned tt, w')
             /\ w_db w' = w_db w.
Proof.
  destruct (cleanupDeactivatedUsers_never_throws E w) as [[] [w' Hrun]].
  exists w'. split; [exact Hrun|].
  pose proof (cleanupDeactivatedUsers_keeps_db E w) as Hk.
  now rewrite Hrun in Hk.
Qed.

(** C1. The cleanup phase is to delete the tributes, the descriptions
    and the birthday record of every stored member who is absent from the
    fetched membership or marked deleted, whenever the fetch succeeded.
    On the code it does not: here the fetch succeeds and does not list
    [U_GONE]; the cleanup reaches the first delete statement, which
    [statements] does not define, and stops on the TypeError, which it
    logs. The birthday record and the tribute of [U_GONE] are still
    stored. *)
Theorem C1_cleanup_stops_before_deleting :
  users_list Examples.stale_env [] None
  = Returned {| members := [Examples.plain_member "U_HERE" "jane"];
                next_cursor := None |}
  /\ gone [Examples.plain_member "U_HERE" "jane"] "U_GONE" = true
  /\ fst (cleanupDeactivatedUsers Examples.stale_env Examples.stale_world)
     = Returned tt
  /\ w_db (snd (cleanupDeactivatedUsers Examples.stale_env
                  Examples.stale_world))
     = Examples.stale_db
  /\ checkUserExists Examples.stale_db "U_GONE" = 1
  /\ getBirthdayMessageCount Examples.stale_db "U_GONE" = 1
  /\ w_console (snd (cleanupDeactivatedUsers Examples.stale_env
                       Examples.stale_world))
     = [console_error "Error cleaning up deactivated users:"
          (TypeError "Cannot read properties of undefined (reading 'run')")].
Proof. vm_compute. repeat split. Qed.

Lemma for_of_cons_eq {A : Type} (x : A) (l : list A) (body : A -> M unit)
  (w : world) :
  for_of (x :: l) body w
  = match body x w with
    | (Returned _, w') => for_of l body w'
    | (Thrown e, w') => (Thrown e, w')
    end.
Proof. reflexivity. Qed.

Lemma dispatch_eq (E : env) (birthday : birthday_row) (w : world) :
  dispatch E birthday w
  = match diffDays (host_tz E) (london_wall E (w_calls w))
            (birth_date birthday) with
    | Some 7 =>
        bind (log ("Triggering collection for " +:+ user_id birthday))
          (fun _ => triggerBirthdayCollection E (user_id birthday))
    | Some 1 =>
        bind get_db (fun d =>
          bind (api_postMessage E
                  {| channel := ADMIN_CHANNEL E; thread_ts := None;
                     text := show_Z (getBirthdayMessageCount d (user_id birthday))
                             +:+ " messages collected for upcoming birthday" |})
            (fun _ => ret tt))
    | Some 0 =>
        bind (log ("Posting thread for " +:+ user_id birthday))
          (fun _ => postBirthdayThread E (user_id birthday))
    | _ => ret tt
    end w.
Proof. reflexivity. Qed.

Lemma dispatch_step (E : env) (birthday : birthday_row) (w : world) :
  let offset :=
    diffDays (host_tz E) (london_wall E (w_calls w)) (birth_date birthday) in
  let digest :=
    {| channel := ADMIN_CHANNEL E; thread_ts := None;
       text := show_Z (getBirthdayMessageCount (w_db w) (user_id birthday))
               +:+ " messages collected for upcoming birthday" |} in
  match offset, chat_postMessage E (w_calls w) digest with
  | Some 1, Thrown e =>
      dispatch E birthday w = (Thrown e, add_call w (PostMessage digest))
  | _, _ => exists w', dispatch E birthday w = (Returned tt, w')
  end.
Proof.
  intros offset digest.
  assert (Hthread : exists w', (bind (log ("Posting thread for " +:+ user_id birthday))
             (fun _ => postBirthdayThread E (user_id birthday))) w
           = (Returned tt, w')).
  { assert (Hnt : never_throws
               (bind (log ("Posting thread for " +:+ user_id birthday))
                  (fun _ => postBirthdayThread E (user_id birthday)))).
    { apply never_throws_bind;
        [apply never_throws_log
        | intros; apply postBirthdayThread_never_throws]. }
    destruct (Hnt w) as [[] [w' Hrun]]. eauto. }
  assert (Htrigger : exists w', (bind (log ("Triggering collection for " +:+ user_id birthday))
             (fun _ => triggerBirthdayCollection E (user_id birthday))) w
           = (Returned tt, w')).
  { assert (Hnt : never_throws
               (bind (log ("Triggering collection for " +:+ user_id birthday))
                  (fun _ => triggerBirthdayCollection E (user_id birthday)))).
    { apply never_throws_bind;
        [apply never_throws_log
        | intros; apply triggerBirthdayCollection_never_throws]. }
    destruct (Hnt w) as [[] [w' Hrun]]. eauto. }
  rewrite dispatch_eq. fold offset.
  destruct offset as [[|[[[r|r|]|q|]|q|]|p]|]; cbv beta iota;
    try exact Hthread; try exact Htrigger;
    try (eexists; reflexivity).
  unfold bind, get_db, api_postMessage. fold digest.
  destruct (chat_postMessage E (w_calls w) digest);
    [eexists; reflexivity | reflexivity].
Qed.

(** C2, as the code has it. In the dispatch loop, whatever goes wrong
    inside Collection Trigger or Thread Poster stays inside them: the
    record's dispatch returns and the remaining records are processed
    from the world it leaves. The admin digest post (offset 1) is not
    guarded: when it is rejected, the loop stops there and the remaining
    records are not processed. The job itself never raises. *)
Theorem C2_dispatch_isolated_except_admin_digest :
  forall (E : env) (birthday : birthday_row) (rest : list birthday_row)
         (w : world),
    let offset :=
      diffDays (host_tz E) (london_wall E (w_calls w)) (birth_date birthday) in
    let digest :=
      {| channel := ADMIN_CHANNEL E; thread_ts := None;
         text := show_Z (getBirthdayMessageCount (w_db w) (user_id birthday))
                 +:+ " messages collected for upcoming birthday" |} in
    never_throws (setupCronJobs_run E)
    /\ match offset, chat_postMessage E (w_calls w) digest with
       | Some 1, Thrown e =>
           for_of (birthday :: rest) (dispatch E) w
           = (Thrown e, add_call w (PostMessage digest))
       | _, _ =>
           exists w',
             dispatch E birthday w = (Returned tt, w')
             /\ for_of (birthday :: rest) (dispatch E) w
                = for_of rest (dispatch E) w'
       end.
Proof.
  intros E birthday rest w offset digest.
  split; [unfold setupCronJobs_run; step_js|].
  pose proof (dispatch_step E birthday w) as Hstep.
  cbv zeta in Hstep. fold offset digest in Hstep.
  rewrite for_of_cons_eq.
  destruct offset as [[|[[[r|r|]|q|]|q|]|p]|]; cbv beta iota in *;
    try (destruct Hstep as [w' Hd]; exists w'; rewrite Hd; split; reflexivity).
  destruct (chat_postMessage E (w_calls w) digest).
  - destruct Hstep as [w' Hd]. exists w'. rewrite Hd. split; reflexivity.
  - rewrite Hstep. reflexivity.
Qed.

(** C2 as stated fails: on 2024-06-01 the store holds [UA] (birthday
    tomorrow) before [UB] (birthday today), and the admin channel rejects
    posts. The digest for [UA] raises, the job logs the error, and the
    thread for [UB] is never posted: the only calls made are the
    membership fetch and the rejected digest. Were the digest accepted,
    the announcement for [UB] would follow. *)
Lemma C2_rejected_digest_stops_the_loop :
  diffDays JSDate.tz_UTC (london_wall Examples.admin_channel_down []) "02-06"
  = Some 1
  /\ diffDays JSDate.tz_UTC (london_wall Examples.admin_channel_down []) "01-06"
     = Some 0
  /\ w_calls (snd (setupCronJobs_run Examples.admin_channel_down
                     Examples.two_birthdays_world))
     = [PostMessage
          {| channel := "C_ADMIN"; thread_ts := None;
             text := "0 messages collected for upcoming birthday" |};
        UsersList None]
  /\ w_console (snd (setupCronJobs_run Examples.admin_channel_down
                       Examples.two_birthdays_world))
     = [console_error "Error in birthday cron job:"
          (ApiError "channel_not_found")]
  /\ In (PostMessage (announcement Examples.admin_channel_down "UB"))
        (w_calls (snd (setupCronJobs_run (Examples.calm Examples.two_members
                                   "Roses are red")
                         Examples.two_birthdays_world))).
Proof. vm_compute. repeat split. left. reflexivity. Qed.

End Scheduler.

(** ** The calendar of ECMA-262 *)

(** Decides the comparisons of a table lookup by arithmetic. *)
Ltac table_cases :=
  repeat match goal with
         | |- context [?a <? ?b] => destruct (Z.ltb_spec a b); try lia
         | |- context [?a =? ?b] => destruct (Z.eqb_spec a b); try lia
         end.

Section CalendarFacts.
Import JSDate Calendar.

Lemma DayFromYear_succ y : DayFromYear (y + 1) = DayFromYear y + DaysInYear y.
Proof.
  unfold DayFromYear, DaysInYear.
  destruct (Z.eqb_spec (y mod 4) 0) as [H4|H4];
    destruct (Z.eqb_spec (y mod 100) 0) as [H100|H100];
    destruct (Z.eqb_spec (y mod 400) 0) as [H400|H400]; cbn [negb];
    Z.div_mod_to_equations; lia.
Qed.

Lemma DaysInYear_leap y : DaysInYear y = 365 + InLeapYear_year y.
Proof.
  unfold InLeapYear_year, DaysInYear.
  destruct (negb (y mod 4 =? 0)); [reflexivity|].
  destruct (negb (y mod 100 =? 0)); [reflexivity|].
  destruct (negb (y mod 400 =? 0)); reflexivity.
Qed.

Lemma InLeapYear_year_01 y : InLeapYear_year y = 0 \/ InLeapYear_year y = 1.
Proof. unfold InLeapYear_year. destruct (DaysInYear y =? 366); auto. Qed.

Lemma DayFromYear_lt y y' :
  y < y' -> DayFromYear y + 365 * (y' - y) <= DayFromYear y'.
Proof. unfold DayFromYear. intros. Z.div_mod_to_equations. lia. Qed.

Lemma DayFromYear_next_le y y' : y < y' -> DayFromYear (y + 1) <= DayFromYear y'.
Proof.
  intros Hlt. destruct (Z.eq_dec (y + 1) y') as [<-|Hne]; [lia|].
  pose proof (DayFromYear_lt (y + 1) y'). lia.
Qed.

Lemma YearFromDay_spec d :
  DayFromYear (YearFromDay d) <= d < DayFromYear (YearFromDay d + 1).
Proof.
  unfold YearFromDay.
  set (y0 := 1970 + 400 * d / 146097).
  destruct (d <? DayFromYear y0) eqn:H1.
  - apply Z.ltb_lt in H1. replace (y0 - 1 + 1) with y0 by lia.
    split; [|exact H1].
    unfold DayFromYear in *. subst y0. Z.div_mod_to_equations. lia.
  - apply Z.ltb_ge in H1. destruct (DayFromYear (y0 + 1) <=? d) eqn:H2.
    + apply Z.leb_le in H2. split; [exact H2|].
      unfold DayFromYear in *. subst y0. Z.div_mod_to_equations. lia.
    + apply Z.leb_gt in H2. lia.
Qed.

Lemma YearFromDay_unique d y :
  DayFromYear y <= d < DayFromYear (y + 1) -> YearFromDay d = y.
Proof.
  intros Hy. pose proof (YearFromDay_spec d) as Hs.
  destruct (Z.lt_trichotomy (YearFromDay d) y) as [Hlt|[Heq|Hgt]];
    [|exact Heq|].
  - pose proof (DayFromYear_next_le _ _ Hlt). lia.
  - pose proof (DayFromYear_next_le _ _ Hgt). lia.
Qed.

Lemma YearFromDay_mono d d' : d <= d' -> YearFromDay d <= YearFromDay d'.
Proof.
  intros Hle. pose proof (YearFromDay_spec d) as Hs.
  pose proof (YearFromDay_spec d') as Hs'.
  destruct (Z.le_gt_cases (YearFromDay d) (YearFromDay d')) as [|Hgt];
    [assumption|].
  pose proof (DayFromYear_next_le _ _ Hgt). lia.
Qed.

Lemma Day_midnight d : Day (d * msPerDay) = d.
Proof. unfold Day, msPerDay. apply Z.div_mul. discriminate. Qed.

Lemma TimeWithinDay_midnight d : TimeWithinDay (d * msPerDay) = 0.
Proof. unfold TimeWithinDay, msPerDay. apply Z.mod_mul. discriminate. Qed.

Lemma Day_MakeDate d tod : 0 <= tod < msPerDay -> Day (MakeDate d tod) = d.
Proof.
  unfold Day, MakeDate, msPerDay. intros Ht. Z.div_mod_to_equations. lia.
Qed.

Lemma MakeDay_in_year y m dt :
  0 <= m <= 11 ->
  MakeDay y m dt = DayFromYear y + month_start m (InLeapYear_year y) + dt - 1.
Proof.
  intros Hm. unfold MakeDay.
  rewrite (Z.div_small m 12), (Z.mod_small m 12) by lia.
  now rewrite Z.add_0_r.
Qed.

Lemma month_of_yday_range dwy leap : 0 <= month_of_yday dwy leap <= 11.
Proof. unfold month_of_yday. table_cases. Qed.

Lemma month_start_nonneg m leap : 0 <= leap -> 0 <= month_start m leap.
Proof. intros Hl. unfold month_start. table_cases. Qed.

Lemma month_start_of_yday dwy leap :
  0 <= dwy -> 0 <= leap <= 1 ->
  month_start (month_of_yday dwy leap) leap <= dwy.
Proof. intros Hd Hl. unfold month_of_yday, month_start. table_cases. Qed.

Lemma month_of_yday_start m leap dt :
  0 <= m <= 11 -> 0 <= leap <= 1 -> 1 <= dt <= days_in_month m leap ->
  month_of_yday (month_start m leap + dt - 1) leap = m.
Proof.
  intros Hm Hl. unfold days_in_month, month_of_yday, month_start.
  assert (Hcases : m = 0 \/ m = 1 \/ m = 2 \/ m = 3 \/ m = 4 \/ m = 5 \/ m = 6
                   \/ m = 7 \/ m = 8 \/ m = 9 \/ m = 10 \/ m = 11) by lia.
  repeat (destruct Hcases as [->|Hcases]); try subst m; cbn; intros Hdt;
    table_cases.
Qed.

Lemma month_end_in_year m leap :
  0 <= m <= 11 -> 0 <= leap <= 1 ->
  month_start m leap + days_in_month m leap <= 365 + leap.
Proof.
  intros Hm Hl. unfold days_in_month, month_start.
  assert (Hcases : m = 0 \/ m = 1 \/ m = 2 \/ m = 3 \/ m = 4 \/ m = 5 \/ m = 6
                   \/ m = 7 \/ m = 8 \/ m = 9 \/ m = 10 \/ m = 11) by lia.
  repeat (destruct Hcases as [->|Hcases]); try subst m; cbn; lia.
Qed.

(** A date of the calendar reads back as itself. *)
Lemma MakeDay_reads_back y m dt :
  0 <= m <= 11 -> 1 <= dt <= days_in_month m (InLeapYear_year y) ->
  let D := MakeDay y m dt in
  YearFromDay D = y
  /\ MonthFromTime (D * msPerDay) = m
  /\ DateFromTime (D * msPerDay) = dt.
Proof.
  intros Hm Hdt D.
  pose proof (InLeapYear_year_01 y) as Hleap.
  assert (Hl : 0 <= InLeapYear_year y <= 1) by lia.
  assert (HD : D = DayFromYear y + month_start m (InLeapYear_year y) + dt - 1)
    by (apply MakeDay_in_year, Hm).
  assert (Hy : YearFromDay D = y).
  { apply YearFromDay_unique.
    rewrite DayFromYear_succ, DaysInYear_leap, HD.
    pose proof (month_start_nonneg m (InLeapYear_year y)).
    pose proof (month_end_in_year m (InLeapYear_year y) Hm Hl). lia. }
  split; [exact Hy|].
  assert (Hmonth : MonthFromTime (D * msPerDay) = m).
  { unfold MonthFromTime, DayWithinYear, InLeapYear, YearFromTime.
    rewrite Day_midnight, Hy, HD.
    replace (DayFromYear y + month_start m (InLeapYear_year y) + dt - 1
             - DayFromYear y)
      with (month_start m (InLeapYear_year y) + dt - 1) by lia.
    now apply month_of_yday_start. }
  split; [exact Hmonth|].
  unfold DateFromTime. rewrite Hmonth.
  unfold DayWithinYear, InLeapYear, YearFromTime.
  rewrite Day_midnight, Hy, HD. lia.
Qed.

(** Every day number is the date it reads as. *)
Lemma day_is_its_date D :
  let t := D * msPerDay in
  0 <= MonthFromTime t <= 11
  /\ 1 <= DateFromTime t
  /\ D = MakeDay (YearFromDay D) (MonthFromTime t) (DateFromTime t).
Proof.
  intros t.
  pose proof (month_of_yday_range (DayWithinYear t) (InLeapYear t)) as Hr.
  fold (MonthFromTime t) in Hr.
  pose proof (YearFromDay_spec D) as Hs.
  pose proof (InLeapYear_year_01 (YearFromDay D)) as Hleap.
  assert (Hdwy : DayWithinYear t = D - DayFromYear (YearFromDay D)).
  { unfold DayWithinYear, YearFromTime, t. now rewrite Day_midnight. }
  assert (Hly : InLeapYear t = InLeapYear_year (YearFromDay D)).
  { unfold InLeapYear, YearFromTime, t. now rewrite Day_midnight. }
  split; [exact Hr|]. split.
  - unfold DateFromTime, MonthFromTime.
    pose proof (month_start_of_yday (DayWithinYear t) (InLeapYear t)).
    lia.
  - rewrite MakeDay_in_year by exact Hr.
    unfold DateFromTime. rewrite Hdwy, Hly. lia.
Qed.

Lemma Math_round_div_days n delta :
  Z.abs delta < msPerDay / 2 ->
  JS.Math_round_div (n * msPerDay + delta) (1000 * 60 * 60 * 24) = n.
Proof.
  unfold JS.Math_round_div, msPerDay. intros Hd.
  change (1000 * 60 * 60 * 24) with 86400000.
  change (86400000 / 2) with 43200000 in Hd.
  Z.div_mod_to_equations. lia.
Qed.

End CalendarFacts.

(** ** The offset computed by the scheduler *)
Section Offset.
Import JSDate Calendar Cron.

Variable tz : timezone.
Hypothesis Htz : tz_ok tz.

Lemma UTC_midnight_lt a b :
  (UTC tz (a * msPerDay) <? UTC tz (b * msPerDay)) = (a <? b).
Proof.
  destruct (Z.eq_dec a b) as [->|Hne]; [now rewrite !Z.ltb_irrefl|].
  destruct Htz as [_ Hskew].
  specialize (Hskew (a * msPerDay) (b * msPerDay)).
  unfold UTC, msPerDay in *. change (86400000 / 2) with 43200000 in Hskew.
  destruct (Z.ltb_spec a b);
    destruct (Z.ltb_spec (a * 86400000 - LocalTZA_local tz (a * 86400000))
                (b * 86400000 - LocalTZA_local tz (b * 86400000)));
    try reflexivity; lia.
Qed.

Lemma UTC_midnight_diff a b :
  JS.Math_round_div (UTC tz (a * msPerDay) - UTC tz (b * msPerDay))
    (1000 * 60 * 60 * 24) = a - b.
Proof.
  destruct Htz as [_ Hskew].
  specialize (Hskew (b * msPerDay) (a * msPerDay)).
  unfold UTC.
  replace (a * msPerDay - LocalTZA_local tz (a * msPerDay)
           - (b * msPerDay - LocalTZA_local tz (b * msPerDay)))
    with ((a - b) * msPerDay
          + (LocalTZA_local tz (b * msPerDay) - LocalTZA_local tz (a * msPerDay)))
    by lia.
  now apply Math_round_div_days.
Qed.

Lemma full_year_late y : 100 <= y -> full_year y = y.
Proof.
  intros Hy. unfold full_year.
  destruct (Z.leb_spec y 99); [lia | now rewrite andb_false_r].
Qed.

Lemma new_Date_midnight y m d :
  100 <= y -> new_Date tz y m d = UTC tz (MakeDay y m d * msPerDay).
Proof.
  intros Hy. unfold new_Date, MakeDate.
  now rewrite full_year_late, Z.add_0_r.
Qed.

Lemma year_since_epoch wall : 0 <= wall -> 1970 <= YearFromDay (Day wall).
Proof.
  intros Hw. change 1970 with (YearFromDay 0).
  apply YearFromDay_mono. unfold Day, msPerDay. now apply Z.div_pos.
Qed.

Lemma getFullYear_midnight D :
  getFullYear tz (UTC tz (D * msPerDay)) = YearFromDay D.
Proof.
  unfold getFullYear, YearFromTime. destruct Htz as [Hback _].
  now rewrite Hback, Day_midnight.
Qed.

Lemma setFullYear_midnight D y :
  setFullYear tz (UTC tz (D * msPerDay)) y
  = UTC tz (MakeDay y (MonthFromTime (D * msPerDay))
              (DateFromTime (D * msPerDay)) * msPerDay).
Proof.
  unfold setFullYear. destruct Htz as [Hback _].
  rewrite Hback, TimeWithinDay_midnight. unfold MakeDate.
  now rewrite Z.add_0_r.
Qed.

Lemma today_of_midnight wall :
  Day (LocalTime tz (UTC tz wall)) = Day wall ->
  today_of tz wall = UTC tz (Day wall * msPerDay).
Proof.
  intros Hwall. unfold today_of, setHours0, new_Date_wall, MakeDate.
  now rewrite Hwall, Z.add_0_r.
Qed.

(** The day [birthdayDate] ends on: this year's date, or, when that is
    before today, next year's date of the same month and day numbers. *)
Lemma birthdayDate_of_midnight Dt month day :
  100 <= YearFromDay Dt ->
  let Y := YearFromDay Dt in
  let D0 := MakeDay Y (month - 1) day in
  birthdayDate_of tz (UTC tz (Dt * msPerDay)) month day
  = UTC tz ((if D0 <? Dt
             then MakeDay (Y + 1) (MonthFromTime (D0 * msPerDay))
                    (DateFromTime (D0 * msPerDay))
             else D0) * msPerDay).
Proof.
  intros HY Y D0. unfold birthdayDate_of.
  rewrite getFullYear_midnight, new_Date_midnight, UTC_midnight_lt
    by exact HY.
  fold Y D0. destruct (D0 <? Dt); [|reflexivity].
  apply setFullYear_midnight.
Qed.

Lemma diffDays_midnight wall birth_date month day :
  0 <= wall ->
  Day (LocalTime tz (UTC tz wall)) = Day wall ->
  JS.parseInt_at (JS.split "-" birth_date) 1 = Some month ->
  JS.parseInt_at (JS.split "-" birth_date) 0 = Some day ->
  let Dt := Day wall in
  let Y := YearFromDay Dt in
  let D0 := MakeDay Y (month - 1) day in
  diffDays tz wall birth_date
  = Some ((if D0 <? Dt
           then MakeDay (Y + 1) (MonthFromTime (D0 * msPerDay))
                  (DateFromTime (D0 * msPerDay))
           else D0) - Dt).
Proof.
  intros Hpos Hwall Hm Hd Dt Y D0. unfold diffDays.
  pose proof (year_since_epoch wall Hpos) as HY.
  rewrite Hm, Hd, (today_of_midnight wall Hwall), birthdayDate_of_midnight
    by lia.
  fold Dt Y D0. now rewrite UTC_midnight_diff.
Qed.

Lemma rolled_day_not_before Dt month day :
  let Y := YearFromDay Dt in
  let D0 := MakeDay Y (month - 1) day in
  Dt <= (if D0 <? Dt
         then MakeDay (Y + 1) (MonthFromTime (D0 * msPerDay))
                (DateFromTime (D0 * msPerDay))
         else D0).
Proof.
  intros Y D0. destruct (Z.ltb_spec D0 Dt) as [Hlt|Hge]; [|exact Hge].
  destruct (day_is_its_date D0) as [Hmon [Hdate _]].
  rewrite MakeDay_in_year by exact Hmon.
  pose proof (YearFromDay_spec Dt) as Hs. fold Y in Hs.
  pose proof (InLeapYear_year_01 (Y + 1)) as Hl.
  pose proof (month_start_nonneg (MonthFromTime (D0 * msPerDay))
                (InLeapYear_year (Y + 1))).
  lia.
Qed.

Lemma diffDays_nonneg wall birth_date z :
  0 <= wall ->
  Day (LocalTime tz (UTC tz wall)) = Day wall ->
  diffDays tz wall birth_date = Some z -> 0 <= z.
Proof.
  intros Hpos Hwall Hdiff.
  destruct (JS.parseInt_at (JS.split "-" birth_date) 1) as [month|] eqn:Hm;
    [|unfold diffDays in Hdiff; rewrite Hm in Hdiff; discriminate].
  destruct (JS.parseInt_at (JS.split "-" birth_date) 0) as [day|] eqn:Hd;
    [|unfold diffDays in Hdiff; rewrite Hm, Hd in Hdiff; discriminate].
  rewrite (diffDays_midnight wall birth_date month day Hpos Hwall Hm Hd)
    in Hdiff.
  injection Hdiff as <-.
  pose proof (rolled_day_not_before (Day wall) month day) as Hge.
  cbv zeta in Hge. lia.
Qed.

End Offset.

(** ** Stored day-months *)
Section DayMonths.
Import JSDate Calendar Cron Commands.

Lemma in_range (n : Z) (lo len : nat) :
  Z.of_nat lo <= n < Z.of_nat lo + Z.of_nat len ->
  In n (List.map Z.of_nat (List.seq lo len)).
Proof.
  intros Hn. apply List.in_map_iff. exists (Z.to_nat n).
  split; [lia | apply List.in_seq; lia].
Qed.

Lemma day_month_parses_table :
  List.forallb (fun dy =>
    List.forallb (fun mo =>
      match JS.parseInt_at (JS.split "-" (day_month dy mo)) 0,
            JS.parseInt_at (JS.split "-" (day_month dy mo)) 1 with
      | Some a, Some b => (a =? dy) && (b =? mo)
      | _, _ => false
      end) (List.map Z.of_nat (List.seq 1 12)))
    (List.map Z.of_nat (List.seq 1 31)) = true.
Proof. vm_compute. reflexivity. Qed.

Lemma day_month_parses day month :
  1 <= day <= 31 -> 1 <= month <= 12 ->
  JS.parseInt_at (JS.split "-" (day_month day month)) 0 = Some day
  /\ JS.parseInt_at (JS.split "-" (day_month day month)) 1 = Some month.
Proof.
  intros Hd Hm. pose proof day_month_parses_table as Ht.
  rewrite List.forallb_forall in Ht.
  specialize (Ht day (in_range day 1 31 ltac:(lia))).
  rewrite List.forallb_forall in Ht.
  specialize (Ht month (in_range month 1 12 ltac:(lia))).
  destruct (JS.parseInt_at (JS.split "-" (day_month day month)) 0) as [a|];
    [|discriminate].
  destruct (JS.parseInt_at (JS.split "-" (day_month day month)) 1) as [b|];
    [|discriminate].
  apply andb_true_iff in Ht as [Ha Hb].
  apply Z.eqb_eq in Ha, Hb. now subst.
Qed.

Lemma days_in_month_le_31 m leap : leap <= 1 -> days_in_month m leap <= 31.
Proof. intros Hl. unfold days_in_month. table_cases; simpl; lia. Qed.

Lemma tz_UTC_ok : tz_ok tz_UTC.
Proof.
  split.
  - intros d. unfold LocalTime, UTC. simpl. lia.
  - intros a b. simpl. reflexivity.
Qed.

Lemma tz_London_2024_ok : tz_ok tz_London_2024.
Proof.
  split.
  - intros d. unfold LocalTime, UTC, tz_London_2024, LocalTZA_utc,
      LocalTZA_local.
    change bst_2024_begin with 1711850400000.
    change bst_2024_end with 1729994400000.
    unfold msPerDay.
    destruct (Z.leb_spec 1711850400000 (d * 86400000));
      destruct (Z.ltb_spec (d * 86400000) 1729994400000); cbn [andb];
      repeat match goal with
             | |- context [?a <=? ?b] => destruct (Z.leb_spec a b)
             | |- context [?a <? ?b] => destruct (Z.ltb_spec a b)
             end; cbn [andb]; lia.
  - intros a b. unfold tz_London_2024, LocalTZA_local, msPerDay.
    change (86400000 / 2) with 43200000.
    destruct ((bst_2024_begin <=? a) && (a <? bst_2024_end));
      destruct ((bst_2024_begin <=? b) && (b <? bst_2024_end)); simpl; lia.
Qed.

(** Across the change to summer time the two midnights are 8 days less
    one hour apart, and the offset is 8. *)
Example offset_across_clock_change :
  today_of tz_London_2024 wall_2024_03_25 = 1711324800000
  /\ birthdayDate_of tz_London_2024 1711324800000 4 2
     = 1711324800000 + 8 * msPerDay - 3600000
  /\ diffDays tz_London_2024 wall_2024_03_25 "02-04" = Some 8.
Proof. repeat split. Qed.

Lemma getDate_new_Date tz m d :
  tz_ok tz ->
  getDate tz (new_Date tz 2000 m d) = DateFromTime (MakeDay 2000 m d * msPerDay).
Proof.
  intros Htz. unfold getDate. rewrite new_Date_midnight by lia.
  destruct Htz as [Hback _]. now rewrite Hback.
Qed.

Lemma isValidDate_any_tz tz s :
  tz_ok tz -> isValidDate tz s = isValidDate tz_UTC s.
Proof.
  intros Htz. unfold isValidDate.
  destruct s as [|d1 [|d2 [|c [|m1 [|m2 [|x rest]]]]]]; try reflexivity;
    destruct c as [[] [] [] [] [] [] [] []]; try reflexivity.
  now rewrite !getDate_new_Date by auto using tz_UTC_ok.
Qed.

Lemma stored_is_valid_table :
  List.forallb (fun dy =>
    List.forallb (fun mo =>
      Bool.eqb (isValidDate tz_UTC (day_month dy mo))
        (dy <=? days_in_month (mo - 1) 1))
      (List.map Z.of_nat (List.seq 1 12)))
    (List.map Z.of_nat (List.seq 1 31)) = true.
Proof. vm_compute. reflexivity. Qed.

(** Every stored day-month passes [isValidDate]. *)
Lemma stored_is_valid tz day month :
  tz_ok tz -> stored_day_month day month ->
  isValidDate tz (day_month day month) = true.
Proof.
  intros Htz [Hm Hd]. rewrite isValidDate_any_tz by exact Htz.
  pose proof (days_in_month_le_31 (month - 1) 1 ltac:(lia)) as H31.
  pose proof stored_is_valid_table as Ht.
  rewrite List.forallb_forall in Ht.
  specialize (Ht day (in_range day 1 31 ltac:(lia))).
  rewrite List.forallb_forall in Ht.
  specialize (Ht month (in_range month 1 12 ltac:(lia))).
  apply Bool.eqb_prop in Ht. rewrite Ht. apply Z.leb_le. lia.
Qed.

Lemma not_leap_day day month :
  day_month day month <> "29-02" -> ~ (day = 29 /\ month = 2).
Proof. intros Hne [-> ->]. apply Hne. reflexivity. Qed.

Lemma day_in_every_year day month leap :
  stored_day_month day month -> ~ (day = 29 /\ month = 2) ->
  0 <= leap <= 1 ->
  1 <= day <= days_in_month (month - 1) leap.
Proof.
  intros [Hm Hd] Hne Hl. revert Hd. unfold days_in_month.
  destruct (Z.eqb_spec (month - 1) 1); [lia|].
  destruct ((month - 1 =? 3) || (month - 1 =? 5) || (month - 1 =? 8)
            || (month - 1 =? 10)); lia.
Qed.

(** For a day-month other than 29 February, the day the scheduler
    counts to is the next day that falls on it. *)
Lemma rolled_day_is_next_occurrence Dt day month :
  stored_day_month day month -> ~ (day = 29 /\ month = 2) ->
  let Y := YearFromDay Dt in
  let D0 := MakeDay Y (month - 1) day in
  let D := if D0 <? Dt then MakeDay (Y + 1) (month - 1) day else D0 in
  (if D0 <? Dt
   then MakeDay (Y + 1) (MonthFromTime (D0 * msPerDay))
          (DateFromTime (D0 * msPerDay))
   else D0) = D
  /\ next_occurrence day month Dt D.
Proof.
  intros Hst Hne Y D0 D.
  assert (Hm : 0 <= month - 1 <= 11) by (destruct Hst; lia).
  pose proof (InLeapYear_year_01 Y) as HlY.
  pose proof (InLeapYear_year_01 (Y + 1)) as HlY1.
  assert (Hl0 : 0 <= InLeapYear_year Y <= 1) by lia.
  assert (Hl1 : 0 <= InLeapYear_year (Y + 1) <= 1) by lia.
  destruct (MakeDay_reads_back Y (month - 1) day Hm
              (day_in_every_year day month _ Hst Hne Hl0))
    as [Hy0 [Hmon0 Hdate0]].
  destruct (MakeDay_reads_back (Y + 1) (month - 1) day Hm
              (day_in_every_year day month _ Hst Hne Hl1))
    as [Hy1 [Hmon1 Hdate1]].
  fold D0 in Hy0, Hmon0, Hdate0.
  set (D1 := MakeDay (Y + 1) (month - 1) day) in *.
  split; [now rewrite Hmon0, Hdate0|].
  pose proof (YearFromDay_spec Dt) as HsT. fold Y in HsT.
  assert (HD0 : D0 = DayFromYear Y + month_start (month - 1) (InLeapYear_year Y)
                     + day - 1) by (apply MakeDay_in_year, Hm).
  assert (HD1 : D1 = DayFromYear (Y + 1)
                     + month_start (month - 1) (InLeapYear_year (Y + 1))
                     + day - 1) by (apply MakeDay_in_year, Hm).
  assert (Hlater : Dt < D1).
  { pose proof (month_start_nonneg (month - 1) (InLeapYear_year (Y + 1))).
    destruct Hst. lia. }
  assert (Hread : forall D', falls_on day month D' ->
            D' = DayFromYear (YearFromDay D')
                 + month_start (month - 1) (InLeapYear_year (YearFromDay D'))
                 + day - 1).
  { intros D' [Hmon Hdate]. destruct (day_is_its_date D') as [_ [_ HD']].
    rewrite Hmon, Hdate in HD'. rewrite <- MakeDay_in_year by exact Hm.
    exact HD'. }
  subst D. destruct (Z.ltb_spec D0 Dt) as [Hpassed|Hahead].
  - split; [lia|]. split; [split; assumption|].
    intros D' [Hlo Hhi] Hfalls. pose proof (Hread D' Hfalls) as HD'.
    pose proof (YearFromDay_mono Dt D' Hlo) as Hy. fold Y in Hy.
    pose proof (YearFromDay_mono D' D1 ltac:(lia)) as Hy'. rewrite Hy1 in Hy'.
    assert (Hcase : YearFromDay D' = Y \/ YearFromDay D' = Y + 1) by lia.
    destruct Hcase as [Heq|Heq]; rewrite Heq in HD'; lia.
  - split; [exact Hahead|]. split; [split; assumption|].
    intros D' [Hlo Hhi] Hfalls. pose proof (Hread D' Hfalls) as HD'.
    pose proof (YearFromDay_mono Dt D' Hlo) as Hy. fold Y in Hy.
    pose proof (YearFromDay_mono D' D0 ltac:(lia)) as Hy'. rewrite Hy0 in Hy'.
    assert (Heq : YearFromDay D' = Y) by lia.
    rewrite Heq in HD'. lia.
Qed.

(** C3, as the code has it. On a host whose time zone is well behaved
    and reads the wall clock back on the same day: the offset is never
    negative, whatever the stored birth date; for every stored day-month
    other than 29-02 and every current date it is the whole-day
    difference to the next occurrence of that day-month, this year's or,
    when that has passed, next year's; and on 2024-06-01 it is 7 for
    08-06, 0 for 01-06 and 207 for 25-12. The current date is any date
    from 1970 on. *)
Theorem C3_offset_counts_days_to_next_occurrence :
  forall (tz : timezone) (wall : Z),
    tz_ok tz ->
    0 <= wall ->
    Day (LocalTime tz (UTC tz wall)) = Day wall ->
    (forall birth_date z, diffDays tz wall birth_date = Some z -> 0 <= z)
    /\ (forall day month,
          stored_day_month day month ->
          day_month day month <> "29-02" ->
          let Y := YearFromDay (Day wall) in
          let D := if MakeDay Y (month - 1) day <? Day wall
                   then MakeDay (Y + 1) (month - 1) day
                   else MakeDay Y (month - 1) day in
          isValidDate tz (day_month day month) = true
          /\ diffDays tz wall (day_month day month) = Some (D - Day wall)
          /\ next_occurrence day month (Day wall) D)
    /\ (Day wall = MakeDay 2024 5 1 ->
        diffDays tz wall "08-06" = Some 7
        /\ diffDays tz wall "01-06" = Some 0
        /\ diffDays tz wall "25-12" = Some 207).
Proof.
  intros tz wall Htz Hpos Hwall. split; [|split].
  - intros birth_date z. now apply diffDays_nonneg.
  - intros day month Hst Hne Y D.
    split; [now apply stored_is_valid|].
    apply not_leap_day in Hne.
    assert (Hd31 : 1 <= day <= 31).
    { destruct Hst as [Hm Hd].
      pose proof (days_in_month_le_31 (month - 1) 1 ltac:(lia)). lia. }
    destruct (day_month_parses day month Hd31 (proj1 Hst)) as [Hpd Hpm].
    destruct (rolled_day_is_next_occurrence (Day wall) day month Hst Hne)
      as [Hroll Hnext].
    fold Y in Hroll, Hnext. fold D in Hroll, Hnext.
    split; [|exact Hnext].
    rewrite (diffDays_midnight tz Htz wall _ month day Hpos Hwall Hpm Hpd).
    cbv zeta. fold Y. now rewrite Hroll.
  - intros Hday. repeat split.
    + rewrite (diffDays_midnight tz Htz wall "08-06" 6 8 Hpos Hwall eq_refl
                 eq_refl).
      cbv zeta. rewrite Hday. reflexivity.
    + rewrite (diffDays_midnight tz Htz wall "01-06" 6 1 Hpos Hwall eq_refl
                 eq_refl).
      cbv zeta. rewrite Hday. reflexivity.
    + rewrite (diffDays_midnight tz Htz wall "25-12" 12 25 Hpos Hwall eq_refl
                 eq_refl).
      cbv zeta. rewrite Hday. reflexivity.
Qed.

Lemma C3_offset_counts_days_to_next_occurrence_witness :
  tz_ok tz_UTC
  /\ 0 <= wall_2024_06_01
  /\ Day (LocalTime tz_UTC (UTC tz_UTC wall_2024_06_01)) = Day wall_2024_06_01
  /\ (forall birth_date z,
        diffDays tz_UTC wall_2024_06_01 birth_date = Some z -> 0 <= z)
  /\ diffDays tz_UTC wall_2024_06_01 (day_month 15 3)
     = Some (MakeDay 2025 2 15 - Day wall_2024_06_01)
  /\ next_occurrence 15 3 (Day wall_2024_06_01) (MakeDay 2025 2 15)
  /\ diffDays tz_UTC wall_2024_06_01 "08-06" = Some 7
  /\ diffDays tz_UTC wall_2024_06_01 "01-06" = Some 0
  /\ diffDays tz_UTC wall_2024_06_01 "25-12" = Some 207
  /\ tz_ok tz_London_2024
  /\ 0 <= wall_2024_03_25
  /\ Day (LocalTime tz_London_2024 (UTC tz_London_2024 wall_2024_03_25))
     = Day wall_2024_03_25
  /\ next_occurrence 2 4 (Day wall_2024_03_25) (Day wall_2024_03_25 + 8).
Proof.
  assert (Hpos1 : 0 <= wall_2024_06_01) by (vm_compute; discriminate).
  assert (Hpos2 : 0 <= wall_2024_03_25) by (vm_compute; discriminate).
  assert (Hlondon :
    tz_ok tz_London_2024
    /\ 0 <= wall_2024_03_25
    /\ Day (LocalTime tz_London_2024 (UTC tz_London_2024 wall_2024_03_25))
       = Day wall_2024_03_25
    /\ next_occurrence 2 4 (Day wall_2024_03_25) (Day wall_2024_03_25 + 8)).
  { split; [exact tz_London_2024_ok|]. split; [exact Hpos2|].
    split; [reflexivity|].
    assert (Hst : stored_day_month 2 4).
    { unfold stored_day_month. change (days_in_month (4 - 1) 1) with 30. lia. }
    assert (Hne : day_month 2 4 <> "29-02") by discriminate.
    exact (proj2 (proj2 (proj1 (proj2
             (C3_offset_counts_days_to_next_occurrence tz_London_2024
                wall_2024_03_25 tz_London_2024_ok Hpos2 eq_refl))
             2 4 Hst Hne))). }
  pose proof (C3_offset_counts_days_to_next_occurrence tz_UTC wall_2024_06_01
                tz_UTC_ok Hpos1 eq_refl) as [Hnn [Hnext Hex]].
  split; [exact tz_UTC_ok|]. split; [exact Hpos1|]. split; [reflexivity|].
  split; [exact Hnn|].
  assert (Hst : stored_day_month 15 3).
  { unfold stored_day_month. change (days_in_month (3 - 1) 1) with 31. lia. }
  assert (Hne : day_month 15 3 <> "29-02") by discriminate.
  destruct (Hnext 15 3 Hst Hne) as [_ [Hdiff Hocc]].
  split; [exact Hdiff|]. split; [exact Hocc|].
  destruct (Hex eq_refl) as [H7 [H0 H207]].
  split; [exact H7|]. split; [exact H0|]. split; [exact H207|].
  exact Hlondon.
Defined.

(** C3 as stated fails for 29-02, which [isValidDate] accepts: on
    2024-03-01 the offset is 365, and the day it counts to, 2025-03-01,
    does not fall on 29 February. *)
Lemma C3_leap_day_counts_to_first_of_march :
  isValidDate tz_UTC "29-02" = true
  /\ stored_day_month 29 2
  /\ day_month 29 2 = "29-02"
  /\ diffDays tz_UTC wall_2024_03_01 "29-02" = Some 365
  /\ Day wall_2024_03_01 + 365 = MakeDay 2025 2 1
  /\ ~ next_occurrence 29 2 (Day wall_2024_03_01) (Day wall_2024_03_01 + 365).
Proof.
  split; [reflexivity|]. split.
  { unfold stored_day_month. change (days_in_month (2 - 1) 1) with 29. lia. }
  split; [reflexivity|]. split; [reflexivity|]. split; [reflexivity|].
  intros [_ [[Hmon _] _]]. vm_compute in Hmon. discriminate.
Qed.

End DayMonths.

(** ** What [isValidDate] accepts *)
Section ValidDates.
Import JSDate Calendar Commands.

Lemma is_digit_range c : is_digit c = true -> 0 <= digit c <= 9.
Proof.
  unfold is_digit, digit. intros Hd.
  apply andb_true_iff in Hd as [Hlo Hhi].
  apply N.leb_le in Hlo, Hhi. lia.
Qed.

Lemma two_digits_of_chars c1 c2 :
  is_digit c1 = true -> is_digit c2 = true ->
  two_digits (10 * digit c1 + digit c2) = String c1 (String c2 EmptyString).
Proof.
  intros H1 H2.
  pose proof (is_digit_range c1 H1) as R1.
  pose proof (is_digit_range c2 H2) as R2.
  unfold two_digits.
  replace ((10 * digit c1 + digit c2) / 10) with (digit c1)
    by (Z.div_mod_to_equations; lia).
  replace ((10 * digit c1 + digit c2) mod 10) with (digit c2)
    by (Z.div_mod_to_equations; lia).
  unfold digit.
  replace (48 + (Z.of_N (N_of_ascii c1) - 48)) with (Z.of_N (N_of_ascii c1))
    by lia.
  replace (48 + (Z.of_N (N_of_ascii c2) - 48)) with (Z.of_N (N_of_ascii c2))
    by lia.
  now rewrite !N2Z.id, !ascii_N_embedding.
Qed.

Lemma last_day_of_month_2000 month :
  1 <= month <= 12 ->
  DateFromTime (MakeDay 2000 month 0 * msPerDay) = days_in_month (month - 1) 1.
Proof.
  intros Hm.
  assert (Hcases : month = 1 \/ month = 2 \/ month = 3 \/ month = 4
                   \/ month = 5 \/ month = 6 \/ month = 7 \/ month = 8
                   \/ month = 9 \/ month = 10 \/ month = 11 \/ month = 12)
    by lia.
  repeat (destruct Hcases as [->|Hcases]); try subst month; reflexivity.
Qed.

(** A text that passes [isValidDate] is the DD-MM of a stored
    day-month. *)
Lemma valid_is_stored tz s :
  tz_ok tz -> isValidDate tz s = true ->
  exists day month, stored_day_month day month /\ s = day_month day month.
Proof.
  intros Htz. unfold isValidDate.
  destruct s as [|d1 [|d2 [|c [|m1 [|m2 [|x rest]]]]]]; try discriminate;
    destruct c as [[] [] [] [] [] [] [] []]; try discriminate.
  destruct (is_digit d1 && is_digit d2 && is_digit m1 && is_digit m2) eqn:Hdig;
    [|discriminate].
  apply andb_true_iff in Hdig as [Hdig Hm2].
  apply andb_true_iff in Hdig as [Hdig Hm1].
  apply andb_true_iff in Hdig as [Hd1 Hd2].
  set (day := 10 * digit d1 + digit d2).
  set (month := 10 * digit m1 + digit m2).
  destruct ((month <? 1) || (12 <? month)) eqn:Hmonth; [discriminate|].
  apply orb_false_iff in Hmonth as [Hlo Hhi].
  apply Z.ltb_ge in Hlo, Hhi.
  rewrite getDate_new_Date by exact Htz.
  rewrite last_day_of_month_2000 by lia.
  destruct ((day <? 1) || (days_in_month (month - 1) 1 <? day)) eqn:Hday;
    [discriminate|].
  apply orb_false_iff in Hday as [Hdlo Hdhi].
  apply Z.ltb_ge in Hdlo, Hdhi.
  intros _. exists day, month. split; [split; lia|].
  unfold day_month, day, month.
  now rewrite !two_digits_of_chars by assumption.
Qed.

End ValidDates.

(** ** The directory resolver *)
Section Resolver.
Import Slack Effects Logic Commands Directory.

(** On one page the lookups of the code are the stages of the
    specification, in its order. *)
Lemma search_page_is_resolveByName memberList firstName lastName :
  search_page memberList firstName lastName
  = resolveByName memberList firstName lastName.
Proof.
  unfold search_page, resolveByName, stages, first_hit, stage_hit, or_else,
    only_one. simpl.
  destruct (List.find (by_real_name firstName lastName) memberList);
    [reflexivity|].
  destruct (List.find (by_real_name_normalized firstName lastName) memberList);
    [reflexivity|].
  destruct (List.find (by_display_name_normalized firstName lastName)
              memberList); [reflexivity|].
  destruct (List.filter (by_first_name firstName) memberList) as [|a [|b l]];
    destruct (List.filter (by_last_name lastName) memberList) as [|c [|e l']];
    reflexivity.
Qed.

Lemma truthy_cursor_idem c :
  Cron.truthy_cursor (Cron.truthy_cursor c) = Cron.truthy_cursor c.
Proof.
  unfold Cron.truthy_cursor. destruct (JS.truthy_opt c) eqn:Hc; [|reflexivity].
  now rewrite Hc.
Qed.

Lemma truthy_cursor_some c s :
  Cron.truthy_cursor c = Some s -> Cron.truthy_cursor (Some s) = Some s.
Proof. intros Hc. rewrite <- Hc. apply truthy_cursor_idem. Qed.

(** The paging loop returns the hit of the first page, among the first
    [left] pages, that has one. *)
Lemma search_pages_resolves E firstName lastName key :
  forall (left : nat) (pages : list (list member)) (cursor : option string)
         (w : world),
    Cron.truthy_cursor cursor = cursor ->
    serves E (w_calls w) cursor pages ->
    exists w',
      search_pages E firstName lastName key left cursor w
      = (Returned (resolve_paged (List.firstn left pages) firstName lastName),
         w').
Proof.
  induction left as [|n IH]; intros pages cursor w Hcur Hserve.
  - simpl. unfold bind, log, ret. eauto.
  - destruct pages as [|page later]; [destruct Hserve|].
    destruct Hserve as [next [Hlist Hlater]].
    cbn [search_pages List.firstn resolve_paged].
    unfold bind at 1. unfold try_catch. unfold bind at 1.
    unfold api_users_list. rewrite Hcur, Hlist.
    cbn [members next_cursor].
    rewrite search_page_is_resolveByName.
    destruct (resolveByName page firstName lastName) as [user|].
    + unfold bind, log, cache_set, ret. simpl. eauto.
    + unfold ret at 1.
      destruct later as [|page2 later'].
      * rewrite Hlater. unfold ret.
        destruct n; simpl; eauto.
      * destruct Hlater as [Hnext Hrest].
        destruct (Cron.truthy_cursor next) as [c|] eqn:Hc; [|contradiction].
        apply (IH (page2 :: later') (Some c)); [|exact Hrest].
        now apply truthy_cursor_some with (c := next).
Qed.

(** C9, as the code has it. With no fresh cache entry for the name pair
    and a directory served in pages, [findUserByName] returns the result
    of the five stages (full display name, normalized real name, normalized
    nickname, each taking the first member that matches; then first name
    only and last name only, each needing exactly one candidate) applied
    to each page in turn, for at most ten pages: the hit of the first page
    that has one, and "not found" when no page has one. On a directory of
    one page this is [resolveByName] on the member list. *)
Theorem C9_resolver_applies_stages_page_by_page :
  forall (E : env) (firstName lastName : string) (w : world)
         (pages : list (list member)),
    cache_cold E w (cache_key firstName lastName) ->
    serves E (w_calls w) None pages ->
    (exists w',
       findUserByName E firstName lastName w
       = (Returned (resolve_paged (List.firstn 10 pages) firstName lastName),
          w'))
    /\ (forall members,
          pages = [members] ->
          resolve_paged (List.firstn 10 pages) firstName lastName
          = resolveByName members firstName lastName)
    /\ (forall members,
          search_page members firstName lastName
          = resolveByName members firstName lastName).
Proof.
  intros E firstName lastName w pages Hcold Hserve.
  split; [|split].
  - unfold findUserByName. unfold bind at 1. unfold log at 1.
    unfold bind at 1. cbn [w_cache w_calls add_console].
    fold (cache_key firstName lastName).
    assert (Hmiss :
      match w_cache w !! cache_key firstName lastName with
      | Some cached =>
          if date_now E (w_calls w) - timestamp cached <? CACHE_DURATION
          then Some cached else None
      | None => None
      end = None).
    { unfold cache_cold in Hcold.
      destruct (w_cache w !! cache_key firstName lastName) as [cached|];
        [|reflexivity].
      destruct (Z.ltb_spec (date_now E (w_calls w) - timestamp cached)
                  CACHE_DURATION); [lia | reflexivity]. }
    rewrite Hmiss.
    destruct (search_pages_resolves E firstName lastName
                (cache_key firstName lastName) 10 pages None
                (add_console w
                   (console_log ("Searching for user: " +:+ firstName +:+ " "
                                 +:+ lastName) None))
                eq_refl Hserve) as [w1 Hrun].
    unfold bind at 1. rewrite Hrun.
    destruct (resolve_paged (List.firstn 10 pages) firstName lastName);
      unfold bind, cache_set, ret; simpl; eauto.
  - intros members ->. simpl.
    now destruct (resolveByName members firstName lastName).
  - intros members. apply search_page_is_resolveByName.
Qed.

Lemma C9_resolver_applies_stages_page_by_page_witness :
  cache_cold Examples.one_page Examples.fresh_world (cache_key "Jane" "Doe")
  /\ serves Examples.one_page (w_calls Examples.fresh_world) None
       [[Examples.jane_doe; Examples.jane_smith]]
  /\ exists w',
       findUserByName Examples.one_page "Jane" "Doe" Examples.fresh_world
       = (Returned (resolveByName [Examples.jane_doe; Examples.jane_smith]
                      "Jane" "Doe"), w').
Proof.
  assert (Hcold : cache_cold Examples.one_page Examples.fresh_world
                    (cache_key "Jane" "Doe")) by exact I.
  assert (Hserve : serves Examples.one_page (w_calls Examples.fresh_world) None
                     [[Examples.jane_doe; Examples.jane_smith]]).
  { simpl. exists None. split; reflexivity. }
  split; [exact Hcold|]. split; [exact Hserve|].
  destruct (C9_resolver_applies_stages_page_by_page Examples.one_page
              "Jane" "Doe" Examples.fresh_world
              [[Examples.jane_doe; Examples.jane_smith]] Hcold Hserve)
    as [[w' Hrun] [Hone _]].
  exists w'. rewrite Hrun, (Hone _ eq_refl). reflexivity.
Defined.

(** C9 as stated fails on a directory of two pages. Jane Doe, on the
    second page, matches ("Jane", "Doe") by full display name, the first
    stage; the code settles on the first page, where Jane Smith is the
    only member with that first name, the fourth stage. *)
Lemma C9_first_page_wins_over_priority :
  fst (findUserByName Examples.two_pages "Jane" "Doe" Examples.fresh_world)
  = Returned (Some Examples.jane_smith)
  /\ resolveByName [Examples.jane_smith; Examples.jane_doe] "Jane" "Doe"
     = Some Examples.jane_doe
  /\ Examples.jane_smith <> Examples.jane_doe.
Proof. split; [reflexivity|]. split; [reflexivity|]. discriminate. Qed.

(** The members of the name resolution example of the specification, on
    one page: ("Jane", "Doe") resolves to Jane Doe by display name, and
    ("Jane", "Roe") to Jane Smith, the only member whose profile carries
    the first name. *)
Lemma resolveByName_on_the_two_janes :
  resolveByName [Examples.jane_doe; Examples.jane_smith] "Jane" "Doe"
  = Some Examples.jane_doe
  /\ resolveByName [Examples.jane_doe; Examples.jane_smith] "Jane" "Roe"
     = Some Examples.jane_smith.
Proof. split; reflexivity. Qed.

End Resolver.

(** ** Reading the message tables *)
Section Listing.
Import Database.
Context {R : Type} `{MsgRow R}.
Variable tie : R -> R -> bool.

Lemma comes_before_le (r x : R) :
  comes_before tie r x = true -> msg_created_at r <= msg_created_at x.
Proof.
  unfold comes_before. intros Hb. apply orb_true_iff in Hb as [Hlt|Heq].
  - apply Z.ltb_lt in Hlt. lia.
  - apply andb_true_iff in Heq as [Heq _]. apply Z.eqb_eq in Heq. lia.
Qed.

Lemma not_comes_before_ge (r x : R) :
  comes_before tie r x = false -> msg_created_at x <= msg_created_at r.
Proof.
  unfold comes_before. intros Hb. apply orb_false_iff in Hb as [Hlt _].
  apply Z.ltb_ge in Hlt. exact Hlt.
Qed.

Lemma insert_by_created_at_perm (r : R) (l : list R) :
  Permutation (r :: l) (insert_by_created_at tie r l).
Proof.
  induction l as [|x l IH]; cbn [insert_by_created_at]; [reflexivity|].
  destruct (comes_before tie r x); [reflexivity|].
  rewrite perm_swap. now apply perm_skip.
Qed.

Lemma insert_by_created_at_sorted (r : R) (l : list R) :
  Sorted (fun a b => msg_created_at a <= msg_created_at b) l ->
  Sorted (fun a b => msg_created_at a <= msg_created_at b)
    (insert_by_created_at tie r l).
Proof.
  induction l as [|x l IH]; intros Hs; cbn [insert_by_created_at].
  - repeat constructor.
  - destruct (comes_before tie r x) eqn:Hrx.
    + constructor; [exact Hs|]. constructor. now apply comes_before_le.
    + apply not_comes_before_ge in Hrx.
      inversion Hs as [|? ? Hs' Hhd]; subst.
      constructor; [now apply IH|].
      destruct l as [|y l]; cbn [insert_by_created_at].
      * constructor. exact Hrx.
      * destruct (comes_before tie r y);
          constructor; [exact Hrx|].
        now inversion Hhd.
Qed.

Lemma order_by_created_at_acc (l acc : list R) :
  Sorted (fun a b => msg_created_at a <= msg_created_at b) acc ->
  let out := List.fold_left (fun a r => insert_by_created_at tie r a) l acc in
  Sorted (fun a b => msg_created_at a <= msg_created_at b) out
  /\ Permutation (acc ++ l) out.
Proof.
  revert acc. induction l as [|r l IH]; intros acc Hacc; cbn [List.fold_left].
  - rewrite List.app_nil_r. auto.
  - destruct (IH (insert_by_created_at tie r acc)
                (insert_by_created_at_sorted r acc Hacc)) as [Hs Hp].
    split; [exact Hs|].
    rewrite <- Hp. rewrite <- insert_by_created_at_perm.
    symmetry. apply Permutation_middle.
Qed.

(** Whatever the engine does with rows of one second, the listing of a
    celebrant's undelivered rows holds each of them once, oldest
    first. *)
Lemma select_unsent_sorted_perm (rows : list R) (cid : string) :
  Sorted (fun a b => msg_created_at a <= msg_created_at b)
    (select_unsent tie rows cid)
  /\ Permutation (List.filter (unsent_for cid) rows)
       (select_unsent tie rows cid)
  /\ count_unsent rows cid
     = Z.of_nat (List.length (select_unsent tie rows cid)).
Proof.
  unfold select_unsent, order_by_created_at.
  destruct (order_by_created_at_acc (List.filter (unsent_for cid) rows) []
              (Sorted_nil _)) as [Hs Hp].
  split; [exact Hs|]. split; [exact Hp|].
  unfold count_unsent. f_equal. now apply Permutation_length.
Qed.

End Listing.

Section ListingBothTables.
Import Database.

(** The statement leaves the order of rows of one second to the
    engine: two tributes of one second are listed in rowid order by an
    engine that walks the table, and the other way round by one that
    walks the unique index, whose second column is the sender. *)
Example ties_follow_the_engine :
  let rows := [Examples.tribute 1 "U1" "U3" "Omar" "Have a great day" 1717000100;
               Examples.tribute 2 "U1" "U2" "Jane" "Happy birthday!" 1717000100] in
  List.map bm_id (select_unsent by_rowid rows "U1") = [1; 2]
  /\ List.map bm_id
       (select_unsent
          (fun r x => String.ltb (bm_sender_id r) (bm_sender_id x)) rows "U1")
     = [2; 1].
Proof. split; reflexivity. Qed.

(** X1. Whatever order the engine gives to rows of one second,
    [getBirthdayMessages] and [getDescriptionMessages] return each
    undelivered row of the celebrant exactly once and no other row,
    ordered by [created_at] ascending; [getBirthdayMessageCount] is the
    number of rows the tribute listing holds. *)
Theorem X1_listing_is_the_undelivered_rows_oldest_first :
  forall (d : db) (cid : string),
    (Sorted (fun a b => bm_created_at a <= bm_created_at b)
       (getBirthdayMessages d cid)
     /\ Permutation
          (List.filter (unsent_for cid) (birthday_messages d))
          (getBirthdayMessages d cid)
     /\ getBirthdayMessageCount d cid
        = Z.of_nat (List.length (getBirthdayMessages d cid)))
    /\ (Sorted (fun a b => dm_created_at a <= dm_created_at b)
          (getDescriptionMessages d cid)
        /\ Permutation
             (List.filter (unsent_for cid)
                (description_messages d))
             (getDescriptionMessages d cid)).
Proof.
  intros d cid. split.
  - exact (select_unsent_sorted_perm (tie_birthday_messages d)
             (birthday_messages d) cid).
  - destruct (select_unsent_sorted_perm (tie_description_messages d)
                (description_messages d) cid) as [Hs [Hp _]].
    split; assumption.
Qed.

End ListingBothTables.

(** ** The integrity of the store *)
Section StoreIntegrity.
Import Database Store Integrity.

Lemma celebrant_known_iff d cid :
  celebrant_known d cid = true <-> In cid (List.map user_id (birthdays d)).
Proof.
  unfold celebrant_known. rewrite List.existsb_exists, List.in_map_iff.
  split.
  - intros [r [Hr Heq]]. apply eqb_string_true in Heq. eauto.
  - intros [r [Heq Hr]]. exists r. split; [exact Hr|].
    now apply eqb_string_true.
Qed.

Lemma upsert_user_ids d now uid date :
  List.map user_id (birthdays (insertBirthday d now uid date))
  = List.filter (fun u => negb (String.eqb u uid)) (List.map user_id (birthdays d))
    ++ [uid].
Proof.
  unfold insertBirthday. simpl. rewrite List.map_app. simpl. f_equal.
  induction (birthdays d) as [|r l IH]; simpl; [reflexivity|].
  destruct (negb (String.eqb (user_id r) uid)); simpl; now rewrite IH.
Qed.

Lemma notify_user_ids d now uid :
  List.map user_id (birthdays (updateLastNotificationDate d now uid))
  = List.map user_id (birthdays d).
Proof.
  unfold updateLastNotificationDate. simpl. rewrite List.map_map.
  apply List.map_ext. intros r. now destruct (String.eqb (user_id r) uid).
Qed.

Lemma upsert_keeps_known d now uid date cid :
  celebrant_known d cid = true ->
  celebrant_known (insertBirthday d now uid date) cid = true.
Proof.
  rewrite !celebrant_known_iff, upsert_user_ids. intros Hin.
  apply List.in_or_app.
  destruct (String.eqb cid uid) eqn:Heq.
  - apply eqb_string_true in Heq. subst. right. now left.
  - left. apply List.filter_In. split; [exact Hin|]. now rewrite Heq.
Qed.

Lemma upsert_primary_key d now uid date :
  primary_key_ok d -> primary_key_ok (insertBirthday d now uid date).
Proof.
  unfold primary_key_ok. rewrite upsert_user_ids. intros Hnd.
  apply List.NoDup_app.
  - now apply List.NoDup_filter.
  - repeat constructor. intros [].
  - intros u Hu [<-|[]]. apply List.filter_In in Hu as [_ Hu].
    now rewrite String.eqb_refl in Hu.
Qed.

Lemma add_birthdays k d now cid sid sname msg media :
  birthdays (snd (add k d now cid sid sname msg media)) = birthdays d.
Proof.
  destruct k; simpl; unfold insertBirthdayMessage, insertDescriptionMessage;
    destruct (celebrant_known d cid); try reflexivity.
  - now destruct (insert_or_ignore (birthday_messages d) _).
  - now destruct (insert_or_ignore (description_messages d) _).
Qed.

Lemma mark_birthdays k d cid :
  birthdays (snd (markDelivered k d cid)) = birthdays d.
Proof.
  destruct k; simpl; unfold markMessagesAsSent, markDescriptionMessagesAsSent.
  - now destruct (mark_sent (birthday_messages d) cid).
  - now destruct (mark_sent (description_messages d) cid).
Qed.

Lemma known_by_birthdays d d' cid :
  birthdays d' = birthdays d -> celebrant_known d' cid = celebrant_known d cid.
Proof. unfold celebrant_known. now intros ->. Qed.

Lemma known_by_user_ids d d' cid :
  List.map user_id (birthdays d') = List.map user_id (birthdays d) ->
  celebrant_known d cid = true -> celebrant_known d' cid = true.
Proof. rewrite !celebrant_known_iff. now intros ->. Qed.

(** What a submission does to its table: no row more, the sequence
    being as it was or one further, or one row more at the end, with
    the next id. *)
Lemma insertBirthdayMessage_rows d now cid sid sname msg media :
  let d' := snd (insertBirthdayMessage d now cid sid sname msg media) in
  description_messages d' = description_messages d
  /\ seq_description_messages d' = seq_description_messages d
  /\ ((birthday_messages d' = birthday_messages d
       /\ seq_birthday_messages d <= seq_birthday_messages d')
      \/ (celebrant_known d cid = true
          /\ seq_birthday_messages d' = seq_birthday_messages d + 1
          /\ birthday_messages d'
             = birthday_messages d
               ++ [ {| bm_id := seq_birthday_messages d + 1;
                       bm_celebrant_id := cid; bm_sender_id := sid;
                       bm_sender_name := sname; bm_message := msg;
                       bm_media_url := media; bm_created_at := now;
                       bm_sent_in_thread := false |} ])).
Proof.
  unfold insertBirthdayMessage.
  destruct (celebrant_known d cid);
    [|simpl; split; [reflexivity|]; split; [reflexivity|];
      left; split; [reflexivity | lia]].
  unfold insert_or_ignore.
  destruct (List.existsb _ (birthday_messages d)); simpl;
    (split; [reflexivity|]); (split; [reflexivity|]);
    first [left; split; [reflexivity | lia]
          | right; repeat split; reflexivity].
Qed.

Lemma insertDescriptionMessage_rows d now cid sid sname msg :
  let d' := snd (insertDescriptionMessage d now cid sid sname msg) in
  birthday_messages d' = birthday_messages d
  /\ seq_birthday_messages d' = seq_birthday_messages d
  /\ ((description_messages d' = description_messages d
       /\ seq_description_messages d <= seq_description_messages d')
      \/ (celebrant_known d cid = true
          /\ seq_description_messages d' = seq_description_messages d + 1
          /\ description_messages d'
             = description_messages d
               ++ [ {| dm_id := seq_description_messages d + 1;
                       dm_celebrant_id := cid; dm_sender_id := sid;
                       dm_sender_name := sname; dm_message := msg;
                       dm_created_at := now;
                       dm_sent_in_thread := false |} ])).
Proof.
  unfold insertDescriptionMessage.
  destruct (celebrant_known d cid);
    [|simpl; split; [reflexivity|]; split; [reflexivity|];
      left; split; [reflexivity | lia]].
  unfold insert_or_ignore.
  destruct (List.existsb _ (description_messages d)); simpl;
    (split; [reflexivity|]); (split; [reflexivity|]);
    first [left; split; [reflexivity | lia]
          | right; repeat split; reflexivity].
Qed.

Lemma fresh_id_keeps_ids {A : Type} (id : A -> Z) (rows : list A) (r : A) (sq : Z) :
  NoDup (List.map id rows) -> Forall (fun x => id x <= sq) rows ->
  id r = sq + 1 ->
  NoDup (List.map id (rows ++ [r]))
  /\ Forall (fun x => id x <= sq + 1) (rows ++ [r]).
Proof.
  intros Hnd Hle Hid. split.
  - rewrite List.map_app. apply List.NoDup_app; [exact Hnd| |].
    + repeat constructor. intros [].
    + intros z Hz [<-|[]]. apply List.in_map_iff in Hz as [x [Hx Hin]].
      rewrite List.Forall_forall in Hle. specialize (Hle x Hin). lia.
  - apply List.Forall_app. split.
    + eapply List.Forall_impl; [|exact Hle]. intros x Hx. simpl in Hx. lia.
    + constructor; [lia | constructor].
Qed.

Lemma mark_messages_rows d cid :
  let d' := snd (markMessagesAsSent d cid) in
  description_messages d' = description_messages d
  /\ seq_description_messages d' = seq_description_messages d
  /\ seq_birthday_messages d' = seq_birthday_messages d
  /\ List.map bm_id (birthday_messages d') = List.map bm_id (birthday_messages d)
  /\ List.map bm_celebrant_id (birthday_messages d')
     = List.map bm_celebrant_id (birthday_messages d).
Proof.
  unfold markMessagesAsSent, mark_sent. simpl. repeat split.
  - rewrite List.map_map. apply List.map_ext. intros r.
    now destruct (unsent_for cid r).
  - rewrite List.map_map. apply List.map_ext. intros r.
    now destruct (unsent_for cid r).
Qed.

Lemma mark_descriptions_rows d cid :
  let d' := snd (markDescriptionMessagesAsSent d cid) in
  birthday_messages d' = birthday_messages d
  /\ seq_birthday_messages d' = seq_birthday_messages d
  /\ seq_description_messages d' = seq_description_messages d
  /\ List.map dm_id (description_messages d')
     = List.map dm_id (description_messages d)
  /\ List.map dm_celebrant_id (description_messages d')
     = List.map dm_celebrant_id (description_messages d).
Proof.
  unfold markDescriptionMessagesAsSent, mark_sent. simpl. repeat split.
  - rewrite List.map_map. apply List.map_ext. intros r.
    now destruct (unsent_for cid r).
  - rewrite List.map_map. apply List.map_ext. intros r.
    now destruct (unsent_for cid r).
Qed.

Lemma Forall_by_map {A B : Type} (f : A -> B) (P : B -> Prop) (l l' : list A) :
  List.map f l' = List.map f l ->
  Forall (fun x => P (f x)) l -> Forall (fun x => P (f x)) l'.
Proof.
  intros Hmap Hall.
  rewrite <- (List.Forall_map f P) in *. now rewrite Hmap.
Qed.

Lemma references_by_known d d' :
  (forall c, celebrant_known d c = true -> celebrant_known d' c = true) ->
  List.map bm_celebrant_id (birthday_messages d')
  = List.map bm_celebrant_id (birthday_messages d) ->
  List.map dm_celebrant_id (description_messages d')
  = List.map dm_celebrant_id (description_messages d) ->
  references_ok d -> references_ok d'.
Proof.
  intros Hknown Hb Hd [Rb Rd]. split.
  - apply (Forall_by_map bm_celebrant_id
             (fun c => celebrant_known d' c = true) _ _ Hb).
    eapply List.Forall_impl; [|exact Rb]. intros r. apply Hknown.
  - apply (Forall_by_map dm_celebrant_id
             (fun c => celebrant_known d' c = true) _ _ Hd).
    eapply List.Forall_impl; [|exact Rd]. intros r. apply Hknown.
Qed.

Lemma apply_write_keeps_store_ok d wr :
  store_ok d -> store_ok (apply_write d wr).
Proof.
  intros [Hpk [Hidx [Href Hids]]].
  destruct wr as [now uid date|now uid|k now cid sid sname msg media|k cid];
    cbn [apply_write].
  - split; [now apply upsert_primary_key|]. split; [exact Hidx|].
    split; [|exact Hids].
    apply (references_by_known d); auto using upsert_keeps_known.
  - split; [unfold primary_key_ok; now rewrite notify_user_ids|].
    split; [exact Hidx|]. split; [|exact Hids].
    apply (references_by_known d); auto.
    intros c. apply known_by_user_ids, notify_user_ids.
  - split; [unfold primary_key_ok; now rewrite add_birthdays|].
    split; [now apply add_keeps_indexes|].
    assert (Hk : forall c, celebrant_known
                             (snd (add k d now cid sid sname msg media)) c
                           = celebrant_known d c).
    { intros c. apply known_by_birthdays, add_birthdays. }
    assert (Hk' : forall c, celebrant_known d c = true ->
                  celebrant_known (snd (add k d now cid sid sname msg media)) c
                  = true) by (intros c Hc; now rewrite Hk).
    pose proof Href as [Rb Rd]. destruct Hids as [Nb [Lb [Nd Ld]]].
    destruct k; cbn [add] in *.
    + destruct (insertBirthdayMessage_rows d now cid sid sname msg media)
        as [Hd [Hsd [[Hb Hsb]|[Hc [Hsb Hb]]]]]; cbv zeta in *.
      * split.
        -- apply (references_by_known d); auto; now rewrite ?Hb, ?Hd.
        -- unfold ids_ok. rewrite Hd, Hsd, Hb.
           repeat split; try assumption.
           eapply List.Forall_impl; [|exact Lb]. intros r Hr.
           cbv beta in Hr. lia.
      * destruct (fresh_id_keeps_ids bm_id (birthday_messages d)
                    {| bm_id := seq_birthday_messages d + 1;
                       bm_celebrant_id := cid; bm_sender_id := sid;
                       bm_sender_name := sname; bm_message := msg;
                       bm_media_url := media; bm_created_at := now;
                       bm_sent_in_thread := false |}
                    (seq_birthday_messages d) Nb Lb eq_refl) as [Nb' Lb'].
        split.
        -- split.
           ++ rewrite Hb. apply List.Forall_app. split.
              ** eapply List.Forall_impl; [|exact Rb]. intros r. apply Hk'.
              ** constructor; [|constructor]. simpl. now apply Hk'.
           ++ rewrite Hd. eapply List.Forall_impl; [|exact Rd].
              intros r. apply Hk'.
        -- unfold ids_ok. rewrite Hd, Hsd, Hb, Hsb. auto.
    + destruct (insertDescriptionMessage_rows d now cid sid sname msg)
        as [Hb [Hsb [[Hd Hsd]|[Hc [Hsd Hd]]]]]; cbv zeta in *.
      * split.
        -- apply (references_by_known d); auto; now rewrite ?Hb, ?Hd.
        -- unfold ids_ok. rewrite Hd, Hsb, Hb.
           repeat split; try assumption.
           eapply List.Forall_impl; [|exact Ld]. intros r Hr.
           cbv beta in Hr. lia.
      * destruct (fresh_id_keeps_ids dm_id (description_messages d)
                    {| dm_id := seq_description_messages d + 1;
                       dm_celebrant_id := cid; dm_sender_id := sid;
                       dm_sender_name := sname; dm_message := msg;
                       dm_created_at := now;
                       dm_sent_in_thread := false |}
                    (seq_description_messages d) Nd Ld eq_refl) as [Nd' Ld'].
        split.
        -- split.
           ++ rewrite Hb. eapply List.Forall_impl; [|exact Rb].
              intros r. apply Hk'.
           ++ rewrite Hd. apply List.Forall_app. split.
              ** eapply List.Forall_impl; [|exact Rd]. intros r. apply Hk'.
              ** constructor; [|constructor]. simpl. now apply Hk'.
        -- unfold ids_ok. rewrite Hd, Hsd, Hb, Hsb. auto.
  - split; [unfold primary_key_ok; now rewrite mark_birthdays|].
    split; [now apply markDelivered_keeps_indexes|].
    assert (Hk : forall c, celebrant_known d c = true ->
                           celebrant_known (snd (markDelivered k d cid)) c = true).
    { intros c Hc. erewrite known_by_birthdays; [exact Hc|].
      apply mark_birthdays. }
    destruct Hids as [Nb [Lb [Nd Ld]]].
    destruct k; cbn [markDelivered] in *.
    + destruct (mark_messages_rows d cid) as [Hd [Hsd [Hsb [Hid Hcel]]]].
      cbv zeta in *. split.
      * apply (references_by_known d); auto; now rewrite ?Hd.
      * unfold ids_ok. rewrite Hd, Hsd, Hsb, Hid.
        repeat split; try assumption.
        apply (Forall_by_map bm_id (fun i => i <= seq_birthday_messages d)
                 _ _ Hid Lb).
    + destruct (mark_descriptions_rows d cid) as [Hb [Hsb [Hsd [Hid Hcel]]]].
      cbv zeta in *. split.
      * apply (references_by_known d); auto; now rewrite ?Hb.
      * unfold ids_ok. rewrite Hb, Hsb, Hsd, Hid.
        repeat split; try assumption.
        apply (Forall_by_map dm_id (fun i => i <= seq_description_messages d)
                 _ _ Hid Ld).
Qed.

Lemma empty_db_store_ok : store_ok empty_db.
Proof.
  repeat split; try constructor.
Qed.

(** X2. Whatever prepared statements have written, in whatever order
    and at whatever times, starting from the empty store: [birthdays]
    has one row per member, no two tributes and no two descriptions share
    (celebrant, sender, text, day), every tribute and description names a
    celebrant that has a birthday record, and no row id is used twice. *)
Theorem X2_writes_keep_the_store_consistent :
  forall (wrs : list write), store_ok (apply_writes empty_db wrs).
Proof.
  intros wrs. unfold apply_writes.
  assert (Hgen : forall d, store_ok d -> store_ok (List.fold_left apply_write wrs d)).
  { induction wrs as [|wr wrs IH]; intros d Hd; simpl; [exact Hd|].
    apply IH, apply_write_keeps_store_ok, Hd. }
  apply Hgen, empty_db_store_ok.
Qed.

End StoreIntegrity.

(** ** One celebrant at a time *)
Section OneCelebrant.
Import Database Store.

Lemma mark_sent_other {R : Type} `{MsgRow R} (rows : list R) (cid cid' : string) :
  cid' <> cid ->
  List.filter (unsent_for cid') (fst (mark_sent rows cid))
  = List.filter (unsent_for cid') rows.
Proof.
  intros Hne. unfold mark_sent. cbn [fst].
  induction rows as [|r rows IH]; simpl; [reflexivity|].
  destruct (unsent_for cid r) eqn:Hu.
  - assert (Hc : celebrant_id r = cid).
    { unfold unsent_for in Hu. apply andb_true_iff in Hu as [Hu _].
      now apply eqb_string_true in Hu. }
    assert (H1 : unsent_for cid' (set_sent r) = false).
    { unfold unsent_for. rewrite celebrant_set_sent, Hc.
      apply eqb_string_false in Hne. rewrite String.eqb_sym in Hne.
      now rewrite Hne. }
    assert (H2 : unsent_for cid' r = false).
    { unfold unsent_for. rewrite Hc.
      apply eqb_string_false in Hne. rewrite String.eqb_sym in Hne.
      now rewrite Hne. }
    now rewrite H1, H2.
  - destruct (unsent_for cid' r); [f_equal|]; exact IH.
Qed.

Lemma select_unsent_snoc {R : Type} `{MsgRow R} (tie : R -> R -> bool)
  (rows : list R) (r : R) (cid : string) :
  select_unsent tie (rows ++ [r]) cid
  = if unsent_for cid r
    then insert_by_created_at tie r (select_unsent tie rows cid)
    else select_unsent tie rows cid.
Proof.
  unfold select_unsent, order_by_created_at.
  rewrite List.filter_app. cbn [List.filter].
  destruct (unsent_for cid r).
  - now rewrite List.fold_left_app.
  - now rewrite List.app_nil_r.
Qed.

(** X3. [markDelivered] for one celebrant and kind reports as many rows
    changed as the listing held, and touches nothing else: the listing of
    every other celebrant, the listings of the other kind and the
    birthday records are as before. *)
Theorem X3_mark_delivered_touches_one_celebrant_and_kind :
  forall (k : kind) (d : db) (cid : string),
    fst (markDelivered k d cid)
    = Z.of_nat (List.length (listUndelivered k d cid))
    /\ birthdays (snd (markDelivered k d cid)) = birthdays d
    /\ (forall cid', cid' <> cid ->
          listUndelivered k (snd (markDelivered k d cid)) cid'
          = listUndelivered k d cid')
    /\ (forall k' cid', k' <> k ->
          listUndelivered k' (snd (markDelivered k d cid)) cid'
          = listUndelivered k' d cid').
Proof.
  intros k d cid.
  destruct k; unfold markDelivered, listUndelivered.
  - unfold markMessagesAsSent, getBirthdayMessages, getDescriptionMessages.
    pose proof (fun c => mark_sent_other (birthday_messages d) cid c) as Hoth.
    destruct (select_unsent_sorted_perm (tie_birthday_messages d)
                (birthday_messages d) cid) as [_ [_ Hcount]].
    unfold mark_sent in *. cbn [fst snd] in *.
    cbn [birthday_messages description_messages birthdays
         set_birthday_messages].
    split; [now rewrite List.length_map|]. split; [reflexivity|]. split.
    + intros cid' Hne. unfold select_unsent. now rewrite Hoth.
    + intros [|] cid' Hk; [contradiction | reflexivity].
  - unfold markDescriptionMessagesAsSent, getBirthdayMessages,
      getDescriptionMessages.
    pose proof (fun c => mark_sent_other (description_messages d) cid c) as Hoth.
    destruct (select_unsent_sorted_perm (tie_description_messages d)
                (description_messages d) cid) as [_ [_ Hcount]].
    unfold mark_sent in *. cbn [fst snd] in *.
    cbn [birthday_messages description_messages birthdays
         set_description_messages].
    split; [now rewrite List.length_map|]. split; [reflexivity|]. split.
    + intros cid' Hne. unfold select_unsent. now rewrite Hoth.
    + intros [|] cid' Hk; [reflexivity | contradiction].
Qed.

Lemma stored_on_pos_present k d cid sid msg day :
  In (cid, sid, msg, day) (keys k d) -> 0 < stored_on k d cid sid msg day.
Proof.
  intros Hin. unfold stored_on.
  assert (Hin' : In (cid, sid, msg, day)
                    (List.filter (key_is cid sid msg day) (keys k d))).
  { apply filter_In. split; [exact Hin | now apply key_is_iff]. }
  destruct (List.filter (key_is cid sid msg day) (keys k d)); [destruct Hin'|].
  simpl. lia.
Qed.

Lemma stored_on_absent_zero k d cid sid msg day :
  ~ In (cid, sid, msg, day) (keys k d) -> stored_on k d cid sid msg day = 0.
Proof.
  intros Hnin. unfold stored_on. now rewrite count_key_absent.
Qed.

(** X4. For a celebrant who has a birthday record, a tribute that is new
    for its day is stored as one row with the next id, undelivered: the
    celebrant's listing then holds that row and the rows it held, still
    oldest first; the count goes up by one, and the listings of other
    celebrants, the descriptions and the birthdays are as before. *)
Theorem X4_new_tribute_enters_the_listing :
  forall (d : db) (now : Z) (cid sid sname msg : string)
         (media : option string),
    celebrant_known d cid = true ->
    stored_on Tribute d cid sid msg (DATE now) = 0 ->
    let row := {| bm_id := seq_birthday_messages d + 1;
                  bm_celebrant_id := cid; bm_sender_id := sid;
                  bm_sender_name := sname; bm_message := msg;
                  bm_media_url := media; bm_created_at := now;
                  bm_sent_in_thread := false |} in
    let after := insertBirthdayMessage d now cid sid sname msg media in
    fst after = Returned 1
    /\ Permutation (row :: getBirthdayMessages d cid)
         (getBirthdayMessages (snd after) cid)
    /\ Sorted (fun a b => bm_created_at a <= bm_created_at b)
         (getBirthdayMessages (snd after) cid)
    /\ getBirthdayMessageCount (snd after) cid
       = getBirthdayMessageCount d cid + 1
    /\ (forall cid', cid' <> cid ->
          getBirthdayMessages (snd after) cid'
          = getBirthdayMessages d cid')
    /\ description_messages (snd after) = description_messages d
    /\ birthdays (snd after) = birthdays d.
Proof.
  intros d now cid sid sname msg media Hknown Habsent row after.
  apply stored_on_zero_absent in Habsent. cbn [keys] in Habsent.
  subst after. unfold insertBirthdayMessage. rewrite Hknown.
  fold row. rewrite (insert_or_ignore_new (birthday_messages d) row)
    by exact Habsent.
  cbn [fst snd]. unfold getBirthdayMessages, getBirthdayMessageCount.
  cbn [birthday_messages description_messages birthdays
       tie_birthday_messages set_birthday_messages].
  assert (Hrow : unsent_for cid row = true).
  { unfold unsent_for. simpl. now rewrite String.eqb_refl. }
  split; [reflexivity|]. split.
  { rewrite select_unsent_snoc, Hrow. apply insert_by_created_at_perm. }
  split.
  { exact (proj1 (select_unsent_sorted_perm (tie_birthday_messages d)
                    (birthday_messages d ++ [row]) cid)). }
  split.
  { unfold count_unsent. rewrite List.filter_app, List.length_app.
    cbn [List.filter]. rewrite Hrow. simpl. lia. }
  split; [|split; reflexivity].
  intros cid' Hne. rewrite select_unsent_snoc.
  assert (Hrow' : unsent_for cid' row = false).
  { unfold unsent_for. simpl.
    apply eqb_string_false in Hne. rewrite String.eqb_sym in Hne.
    now rewrite Hne. }
  now rewrite Hrow'.
Qed.

Lemma X4_new_tribute_enters_the_listing_witness :
  celebrant_known Examples.registered_db "U1" = true
  /\ stored_on Tribute Examples.registered_db "U1" "U2" "Happy birthday!"
       (DATE 1000) = 0
  /\ fst (insertBirthdayMessage Examples.registered_db 1000 "U1" "U2" "Jane"
            "Happy birthday!" None) = Returned 1
  /\ getBirthdayMessageCount
       (snd (insertBirthdayMessage Examples.registered_db 1000 "U1" "U2"
               "Jane" "Happy birthday!" None)) "U1"
     = getBirthdayMessageCount Examples.registered_db "U1" + 1.
Proof.
  split; [reflexivity|]. split; [reflexivity|].
  destruct (X4_new_tribute_enters_the_listing Examples.registered_db
              1000 "U1" "U2" "Jane" "Happy birthday!" None
              eq_refl eq_refl) as [H1 [_ [_ [Hcount _]]]].
  split; [exact H1 | exact Hcount].
Defined.

(** X5. A submission of either kind has exactly three outcomes. The
    celebrant has no birthday record: the foreign-key error is thrown
    and the store is as it was. The same (celebrant, sender, text) is
    already stored on that day: 0 rows changed and every table holds the
    rows it held. Otherwise: 1 row changed, and the key is stored once
    more at the end of its table. *)
Theorem X5_submission_has_three_outcomes :
  forall (k : kind) (d : db) (now : Z) (cid sid sname msg : string)
         (media : option string),
    (celebrant_known d cid = false
     /\ add k d now cid sid sname msg media
        = (Thrown (SqliteError "SQLITE_CONSTRAINT_FOREIGNKEY"), d))
    \/ (celebrant_known d cid = true
        /\ 0 < stored_on k d cid sid msg (DATE now)
        /\ fst (add k d now cid sid sname msg media) = Returned 0
        /\ same_rows d (snd (add k d now cid sid sname msg media)))
    \/ (celebrant_known d cid = true
        /\ stored_on k d cid sid msg (DATE now) = 0
        /\ fst (add k d now cid sid sname msg media) = Returned 1
        /\ keys k (snd (add k d now cid sid sname msg media))
           = keys k d ++ [(cid, sid, msg, DATE now)]).
Proof.
  intros k d now cid sid sname msg media.
  destruct (celebrant_known d cid) eqn:Hknown.
  - right.
    destruct (add_keys k d now cid sid sname msg media Hknown)
      as [[Hin [Hret Hsame]] | [Hnin [Hret [Hkeys _]]]].
    + left. split; [reflexivity|]. split; [|split; assumption].
      now apply stored_on_pos_present.
    + right. split; [reflexivity|]. split; [|split; assumption].
      now apply stored_on_absent_zero.
  - left. split; [reflexivity|].
    destruct k; unfold add, insertBirthdayMessage, insertDescriptionMessage;
      now rewrite Hknown.
Qed.

(** X6. [upsertBirthday] for one member leaves the record of every other
    member, every tribute and every description as they were, and every
    celebrant that had a record still has one; the member's own record
    is replaced whole, creation time included. *)
Theorem X6_upsert_touches_one_record :
  forall (d : db) (now : Z) (uid : string) (date : option string),
    let d' := upsertBirthday d now uid date in
    (forall uid', uid' <> uid -> getBirthday d' uid' = getBirthday d uid')
    /\ (forall uid', uid' <> uid ->
          checkUserExists d' uid' = checkUserExists d uid')
    /\ birthday_messages d' = birthday_messages d
    /\ description_messages d' = description_messages d
    /\ (forall cid, celebrant_known d cid = true ->
          celebrant_known d' cid = true)
    /\ (forall cid, listUndelivered Tribute d' cid = listUndelivered Tribute d cid)
    /\ exists r, getBirthday d' uid = Some r
                 /\ created_at r = now /\ updated_at r = now.
Proof.
  intros d now uid date d'. subst d'. unfold upsertBirthday.
  split; [intros uid' Hne; apply insertBirthday_get_other; congruence|].
  split; [intros uid' Hne; apply insertBirthday_count_other; congruence|].
  split; [reflexivity|]. split; [reflexivity|].
  split; [intros cid; apply upsert_keeps_known|].
  split; [reflexivity|].
  eexists. split; [apply insertBirthday_get|]. split; reflexivity.
Qed.

End OneCelebrant.

(** ** [chunk] *)
Section Chunks.
Import Service.
Local Open Scope nat_scope.
Context {A : Type}.

(** More fuel than the array is long changes nothing. *)
Lemma chunk_fuel_irrelevant (size : nat) :
  1 <= size ->
  forall (f1 f2 : nat) (array : list A),
    List.length array <= f1 -> List.length array <= f2 ->
    chunk_fuel f1 array size = chunk_fuel f2 array size.
Proof.
  intros Hsize.
  induction f1 as [|f1 IH]; intros f2 array H1 H2.
  - destruct array; [now destruct f2 | simpl in H1; lia].
  - destruct array as [|a t]; [now destruct f2|].
    destruct f2 as [|f2]; [simpl in H2; lia|].
    cbn [chunk_fuel]. f_equal.
    assert (Hskip : List.length (List.skipn size (a :: t)) <= List.length t).
    { rewrite List.length_skipn. simpl. lia. }
    simpl in H1, H2. apply IH; lia.
Qed.

Lemma chunk_fuel_enough (size : nat) :
  1 <= size ->
  forall (fuel : nat) (array : list A),
    List.length array <= fuel ->
    chunk_fuel fuel array size = chunk array size.
Proof.
  intros Hsize fuel array Hlen. unfold chunk.
  apply chunk_fuel_irrelevant; [exact Hsize | exact Hlen | lia].
Qed.

Lemma chunk_nil (size : nat) : chunk (@nil A) size = [].
Proof. reflexivity. Qed.

Lemma chunk_cons (size : nat) (a : A) (t : list A) :
  1 <= size ->
  chunk (a :: t) size
  = List.firstn size (a :: t) :: chunk (List.skipn size (a :: t)) size.
Proof.
  intros Hsize. unfold chunk at 1. cbn [chunk_fuel List.length]. f_equal.
  apply chunk_fuel_enough; [exact Hsize|].
  rewrite List.length_skipn. simpl. lia.
Qed.

(** Induction along the slices. *)
Lemma chunk_ind (size : nat) (Hsize : 1 <= size) (P : list A -> Prop) :
  P [] ->
  (forall a t, P (List.skipn size (a :: t)) -> P (a :: t)) ->
  forall l, P l.
Proof.
  intros Hnil Hstep l.
  assert (Hgen : forall n l, List.length l <= n -> P l).
  { induction n as [|n IH]; intros l' Hlen.
    - destruct l'; [exact Hnil | simpl in Hlen; lia].
    - destruct l' as [|a t]; [exact Hnil|].
      apply Hstep. apply IH. rewrite List.length_skipn.
      simpl in *. lia. }
  apply (Hgen (List.length l)). lia.
Qed.

Lemma chunk_concat (size : nat) (l : list A) :
  1 <= size -> List.concat (chunk l size) = l.
Proof.
  intros Hsize. induction l as [|a t IH] using (chunk_ind size Hsize).
  - reflexivity.
  - rewrite chunk_cons by exact Hsize. cbn [List.concat].
    rewrite IH. apply List.firstn_skipn.
Qed.

Lemma chunk_slice (size : nat) (l : list A) :
  1 <= size ->
  forall i c, List.nth_error (chunk l size) i = Some c ->
              c = List.firstn size (List.skipn (i * size) l)
              /\ i * size < List.length l.
Proof.
  intros Hsize. induction l as [|a t IH] using (chunk_ind size Hsize).
  - intros i c Hnth. rewrite chunk_nil in Hnth. now destruct i.
  - intros i c Hnth. rewrite chunk_cons in Hnth by exact Hsize.
    destruct i as [|i].
    + injection Hnth as <-. split; [reflexivity | simpl; lia].
    + cbn [List.nth_error] in Hnth. apply IH in Hnth as [Hc Hlt].
      rewrite List.skipn_skipn in Hc.
      rewrite List.length_skipn in Hlt.
      replace (S i * size) with (i * size + size) by lia.
      split; [exact Hc | lia].
Qed.

Lemma chunk_length (size : nat) (l : list A) :
  1 <= size ->
  List.length (chunk l size) = (List.length l + size - 1) / size.
Proof.
  intros Hsize. induction l as [|a t IH] using (chunk_ind size Hsize).
  - rewrite chunk_nil. simpl.
    symmetry. apply Nat.div_small. lia.
  - rewrite chunk_cons by exact Hsize. cbn [List.length].
    rewrite IH, List.length_skipn. cbn [List.length].
    destruct (Nat.le_gt_cases size (S (List.length t))) as [Hle|Hgt].
    + replace (S (List.length t) + size - 1)
        with ((S (List.length t) - size + size - 1) + 1 * size) by lia.
      rewrite Nat.div_add by lia. lia.
    + replace (S (List.length t) - size) with 0 by lia.
      rewrite (Nat.div_small (0 + size - 1)) by lia.
      apply (Nat.div_unique _ _ 1 (List.length t)); lia.
Qed.

(** X7. For a size of at least 1, [chunk] cuts the array into
    consecutive slices: slice [i] holds the elements from position
    [i * size] up to [size] of them, slices are never empty, there are
    ceil(length / size) of them, and put end to end they give the array
    back. *)
Theorem X7_chunk_cuts_into_consecutive_slices :
  forall (array : list A) (size : nat),
    1 <= size ->
    List.concat (chunk array size) = array
    /\ List.length (chunk array size)
       = (List.length array + size - 1) / size
    /\ (forall i c,
          List.nth_error (chunk array size) i = Some c ->
          c = List.firstn size (List.skipn (i * size) array)
          /\ 1 <= List.length c <= size).
Proof.
  intros array size Hsize.
  split; [now apply chunk_concat|]. split; [now apply chunk_length|].
  intros i c Hnth. destruct (chunk_slice size array Hsize i c Hnth) as [Hc Hlt].
  split; [exact Hc|]. subst c.
  rewrite List.length_firstn, List.length_skipn. lia.
Qed.

Lemma chunk_of_size_one (l : list A) : chunk l 1 = List.map (fun x => [x]) l.
Proof.
  induction l as [|a t IH]; [reflexivity|].
  rewrite chunk_cons by lia.
  change (List.skipn 1 (a :: t)) with t.
  change (List.firstn 1 (a :: t)) with [a].
  cbn [List.map]. now rewrite IH.
Qed.

End Chunks.

Lemma X7_chunk_cuts_into_consecutive_slices_witness :
  (1 <= 2)%nat
  /\ List.concat (Service.chunk [1; 2; 3] 2) = [1; 2; 3]
  /\ List.length (Service.chunk [1; 2; 3] 2) = 2%nat.
Proof.
  split; [lia|].
  destruct (X7_chunk_cuts_into_consecutive_slices [1; 2; 3] 2%nat
              ltac:(lia)) as [Hc [Hl _]].
  split; [exact Hc | exact Hl].
Defined.

(** ** Paging through the directory *)
Section Paging.
Import Slack Effects Database Cron Commands Trace Logic.
Local Open Scope js_scope.

Lemma lists_only_nil (n : nat) : lists_only n [].
Proof. split; [simpl; lia | constructor]. Qed.

Lemma lists_only_app (n1 n2 : nat) (l1 l2 : list api_call) :
  lists_only n1 l1 -> lists_only n2 l2 -> lists_only (n1 + n2) (l2 ++ l1).
Proof.
  intros [H1 F1] [H2 F2]. split.
  - rewrite List.length_app. lia.
  - apply Forall_app. split; assumption.
Qed.

Lemma lists_only_le (n n' : nat) (l : list api_call) :
  (n <= n')%nat -> lists_only n l -> lists_only n' l.
Proof. intros Hle [H F]. split; [lia | exact F]. Qed.

Lemma pages_only_quiet {A : Type} (m : M A) :
  (forall w, w_db (snd (m w)) = w_db w /\ w_calls (snd (m w)) = w_calls w) ->
  pages_only 0 m.
Proof.
  intros Hq w. destruct (Hq w) as [Hd Hc]. split; [exact Hd|].
  exists []. split; [exact Hc | apply lists_only_nil].
Qed.

Lemma pages_only_ret {A : Type} (a : A) : pages_only 0 (ret a).
Proof. apply pages_only_quiet. intros w. split; reflexivity. Qed.

Lemma pages_only_throw {A : Type} (e : js_error) : pages_only 0 (@throw A e).
Proof. apply pages_only_quiet. intros w. split; reflexivity. Qed.

Lemma pages_only_log (msg : string) : pages_only 0 (log msg).
Proof. apply pages_only_quiet. intros w. split; reflexivity. Qed.

Lemma pages_only_log_error (msg : string) (e : js_error) :
  pages_only 0 (log_error msg e).
Proof. apply pages_only_quiet. intros w. split; reflexivity. Qed.

Lemma pages_only_cache_set (key : string) (u : option member) (E : env) :
  pages_only 0 (cache_set key u E).
Proof. apply pages_only_quiet. intros w. split; reflexivity. Qed.

Lemma pages_only_read {A : Type} (f : world -> A) :
  pages_only 0 (fun w => (Returned (f w), w)).
Proof. apply pages_only_quiet. intros w. split; reflexivity. Qed.

Lemma pages_only_users_list (E : env) (cursor : option string) :
  pages_only 1 (api_users_list E cursor).
Proof.
  intros w. split; [reflexivity|].
  exists [UsersList cursor]. split; [reflexivity|].
  split; [simpl; lia | repeat constructor].
Qed.

Lemma pages_only_le {A : Type} (n n' : nat) (m : M A) :
  (n <= n')%nat -> pages_only n m -> pages_only n' m.
Proof.
  intros Hle Hm w. destruct (Hm w) as [Hd [new [Hc Hl]]].
  split; [exact Hd|]. exists new. split; [exact Hc|].
  now apply lists_only_le with (n := n).
Qed.

Lemma pages_only_bind {A B : Type} (n1 n2 : nat) (m : M A) (k : A -> M B) :
  pages_only n1 m -> (forall a, pages_only n2 (k a)) ->
  pages_only (n1 + n2) (bind m k).
Proof.
  intros Hm Hk w. unfold bind.
  destruct (Hm w) as [Hd [new [Hc Hl]]].
  destruct (m w) as [[a|e] w1]; cbn [snd] in *.
  - destruct (Hk a w1) as [Hd2 [new2 [Hc2 Hl2]]].
    split; [congruence|]. exists (new2 ++ new).
    split; [rewrite Hc2, Hc; apply List.app_assoc|].
    now apply lists_only_app.
  - split; [exact Hd|]. exists new. split; [exact Hc|].
    apply lists_only_le with (n := n1); [lia | exact Hl].
Qed.

Lemma pages_only_try_catch {A : Type} (n1 n2 : nat) (m : M A)
  (h : js_error -> M A) :
  pages_only n1 m -> (forall e, pages_only n2 (h e)) ->
  pages_only (n1 + n2) (try_catch m h).
Proof.
  intros Hm Hh w. unfold try_catch.
  destruct (Hm w) as [Hd [new [Hc Hl]]].
  destruct (m w) as [[a|e] w1]; cbn [snd] in *.
  - split; [exact Hd|]. exists new. split; [exact Hc|].
    apply lists_only_le with (n := n1); [lia | exact Hl].
  - destruct (Hh e w1) as [Hd2 [new2 [Hc2 Hl2]]].
    split; [congruence|]. exists (new2 ++ new).
    split; [rewrite Hc2, Hc; apply List.app_assoc|].
    now apply lists_only_app.
Qed.

Lemma fetch_all_users_pages_only (E : env) :
  forall (left : nat) (cursor : option string) (acc : list member),
    pages_only left (fetch_all_users E left cursor acc).
Proof.
  induction left as [|n IH]; intros cursor acc; cbn [fetch_all_users].
  - apply (pages_only_bind 0 0); [apply pages_only_log|].
    intros _. apply pages_only_ret.
  - apply (pages_only_bind 1 n).
    + apply (pages_only_try_catch 1 0); [apply pages_only_users_list|].
      intros e. apply (pages_only_bind 0 0); [apply pages_only_log_error|].
      intros _. apply pages_only_throw.
    + intros response.
      destruct (truthy_cursor (next_cursor response)).
      * apply IH.
      * apply pages_only_le with (n := 0%nat); [lia | apply pages_only_ret].
Qed.

Lemma search_pages_pages_only (E : env) (firstName lastName key : string) :
  forall (left : nat) (cursor : option string),
    pages_only left (search_pages E firstName lastName key left cursor).
Proof.
  induction left as [|n IH]; intros cursor; cbn [search_pages].
  - apply (pages_only_bind 0 0); [apply pages_only_log|].
    intros _. apply pages_only_ret.
  - apply (pages_only_bind 1 n).
    + apply (pages_only_try_catch 1 0).
      * apply (pages_only_bind 1 0); [apply pages_only_users_list|].
        intros response.
        destruct (search_page (members response) firstName lastName).
        -- apply (pages_only_bind 0 0); [apply pages_only_log|]. intros _.
           apply (pages_only_bind 0 0); [apply pages_only_cache_set|].
           intros _. apply pages_only_ret.
        -- apply pages_only_ret.
      * intros e. apply (pages_only_bind 0 0); [apply pages_only_log_error|].
        intros _. apply pages_only_throw.
    + intros [user|[c|]].
      * apply pages_only_le with (n := 0%nat); [lia | apply pages_only_ret].
      * apply IH.
      * apply pages_only_le with (n := 0%nat); [lia | apply pages_only_ret].
Qed.

(** The loop over the stored birthdays sends nothing and logs nothing:
    it returns the count it was given, or stops on an error. *)
Lemma cleanup_loop_silent (E : env) (allUsers : list member) :
  forall (rows : list birthday_row) (n : Z) (w : world),
    cleanup_loop E allUsers rows n w = (Returned n, w)
    \/ exists e, cleanup_loop E allUsers rows n w = (Thrown e, w).
Proof.
  induction rows as [|b rest IH]; intros n w; cbn [cleanup_loop].
  - left. reflexivity.
  - destruct (gone allUsers (user_id b)); [|apply IH].
    right. eexists. reflexivity.
Qed.

(** X8. Whatever the platform answers and whatever is stored, the
    cleanup phase returns without throwing, leaves the database as it
    is, and sends nothing but [users.list] requests, ten at most: it
    never posts to the admin channel. *)
Theorem X8_cleanup_only_pages_through_the_directory :
  forall (E : env) (w : world),
    exists w' new,
      cleanupDeactivatedUsers E w = (Returned tt, w')
      /\ w_db w' = w_db w
      /\ w_calls w' = new ++ w_calls w
      /\ (List.length new <= 10)%nat
      /\ Forall (fun c => is_users_list c = true) new
      /\ posted (w_calls w') = posted (w_calls w).
Proof.
  intros E w.
  assert (Hrun : exists w' new,
    cleanupDeactivatedUsers E w = (Returned tt, w')
    /\ w_db w' = w_db w
    /\ w_calls w' = new ++ w_calls w /\ lists_only 10 new).
  { unfold cleanupDeactivatedUsers, try_catch.
    unfold bind at 1. unfold get_db at 1. unfold bind at 1.
    destruct (fetch_all_users_pages_only E maxSearchAttempts None [] w)
      as [Hd [new [Hc Hl]]].
    destruct (fetch_all_users E maxSearchAttempts None [] w) as [[all|e] w1];
      cbn [snd] in Hd, Hc.
    - unfold bind at 1.
      destruct (cleanup_loop_silent E all (getAllBirthdays (w_db w)) 0 w1)
        as [Hloop | [e Hloop]]; rewrite Hloop.
      + exists w1, new. cbn [Z.ltb Z.compare]. unfold ret. auto.
      + eexists _, new. unfold log_error. split; [reflexivity|]. auto.
    - eexists _, new. unfold log_error. split; [reflexivity|]. auto. }
  destruct Hrun as [w' [new [Hr [Hd [Hc [Hlen Hall]]]]]].
  exists w', new. repeat (split; [assumption|]).
  unfold posted. rewrite Hc, List.rev_app_distr, List.flat_map_app.
  assert (Hnone : List.flat_map
            (fun c => match c with PostMessage p => [p] | _ => [] end)
            (List.rev new) = []).
  { apply Forall_rev in Hall. clear Hc Hlen.
    induction Hall as [|c new' Hc' _ IH]; [reflexivity|].
    destruct c; try discriminate. exact IH. }
  rewrite Hnone. apply List.app_nil_r.
Qed.

Lemma findUserByName_pages_only (E : env) (firstName lastName : string) :
  pages_only 10 (findUserByName E firstName lastName).
Proof.
  unfold findUserByName.
  apply (pages_only_bind 0 10); [apply pages_only_log|]. intros _.
  apply (pages_only_bind 0 10); [apply pages_only_read|]. intros [cached|].
  - apply pages_only_le with (n := 0%nat); [lia|].
    destruct (cached_user cached) as [user|].
    + apply (pages_only_bind 0 0); [apply pages_only_log|]. intros _.
      apply pages_only_ret.
    + apply pages_only_throw.
  - apply (pages_only_bind 10 0); [apply search_pages_pages_only|].
    intros [user|]; [apply pages_only_ret|].
    apply (pages_only_bind 0 0); [apply pages_only_cache_set|]. intros _.
    apply pages_only_ret.
Qed.

Lemma only_one_in {A : Type} (l : list A) (x : A) :
  only_one l = Some x -> In x l.
Proof.
  destruct l as [|a [|b t]]; try discriminate.
  intros [= ->]. now left.
Qed.

(** Every lookup of a page asks for a member that is not deleted. *)
Lemma search_page_not_deleted (memberList : list member)
  (firstName lastName : string) (user : member) :
  search_page memberList firstName lastName = Some user ->
  In user memberList /\ deleted user = false.
Proof.
  unfold search_page, or_else.
  assert (Hfind : forall p,
    List.find (fun m => negb (deleted m) && p m) memberList = Some user ->
    In user memberList /\ deleted user = false).
  { intros p Hf. apply List.find_some in Hf as [Hin Hp].
    apply andb_true_iff in Hp as [Hd _]. split; [exact Hin|].
    now destruct (deleted user). }
  assert (Hone : forall p,
    only_one (List.filter (fun m => negb (deleted m) && p m) memberList)
    = Some user ->
    In user memberList /\ deleted user = false).
  { intros p Hf. apply only_one_in in Hf. apply filter_In in Hf as [Hin Hp].
    apply andb_true_iff in Hp as [Hd _]. split; [exact Hin|].
    now destruct (deleted user). }
  destruct (List.find (by_real_name firstName lastName) memberList) eqn:H1.
  { intros [= ->]. exact (Hfind _ H1). }
  destruct (List.find (by_real_name_normalized firstName lastName) memberList)
    eqn:H2.
  { intros [= ->]. exact (Hfind _ H2). }
  destruct (List.find (by_display_name_normalized firstName lastName)
              memberList) eqn:H3.
  { intros [= ->]. exact (Hfind _ H3). }
  destruct (only_one (List.filter (by_first_name firstName) memberList)) eqn:H4.
  { intros [= ->]. exact (Hone _ H4). }
  intros H5. exact (Hone _ H5).
Qed.

(** A search that ends on a member found them on a page the platform
    served, and has written them to the cache at the time it ended. *)
Lemma search_pages_hit (E : env) (firstName lastName key : string) :
  forall (left : nat) (cursor : option string) (w w1 : world) (user : member),
    search_pages E firstName lastName key left cursor w
    = (Returned (Some user), w1) ->
    deleted user = false
    /\ w_cache w1 !! key
       = Some {| cached_user := Some user;
                 timestamp := date_now E (w_calls w1) |}.
Proof.
  induction left as [|n IH]; intros cursor w w1 user Hrun.
  - discriminate Hrun.
  - cbn [search_pages] in Hrun.
    unfold bind at 1, try_catch, bind at 1, api_users_list in Hrun.
    destruct (users_list E (w_calls w) (truthy_cursor cursor))
      as [response|e]; [|discriminate Hrun].
    destruct (search_page (members response) firstName lastName)
      as [found|] eqn:Hpage.
    + unfold bind, log, cache_set, ret in Hrun.
      cbn [w_cache w_calls add_console add_call set_cache] in Hrun.
      injection Hrun as <- <-.
      split; [apply (search_page_not_deleted _ _ _ _ Hpage)|].
      cbn [w_cache w_calls set_cache]. apply lookup_insert_eq.
    + unfold ret at 1 in Hrun.
      destruct (truthy_cursor (next_cursor response)) as [c|].
      * exact (IH _ _ _ _ Hrun).
      * discriminate Hrun.
Qed.

(** X9. [findUserByName] answers a name with at most ten [users.list]
    requests and no other call, and leaves the database as it is,
    whether it returns or throws. A member it returns from a search
    (no fresh cache entry for the name) is not a deleted one. *)
Theorem X9_lookup_is_bounded_and_skips_deleted_members :
  forall (E : env) (firstName lastName : string) (w : world),
    w_db (snd (findUserByName E firstName lastName w)) = w_db w
    /\ (exists new,
          w_calls (snd (findUserByName E firstName lastName w))
          = new ++ w_calls w
          /\ (List.length new <= 10)%nat
          /\ Forall (fun c => is_users_list c = true) new)
    /\ (forall user,
          Directory.cache_cold E w (Directory.cache_key firstName lastName) ->
          fst (findUserByName E firstName lastName w) = Returned (Some user) ->
          deleted user = false).
Proof.
  intros E firstName lastName w.
  destruct (findUserByName_pages_only E firstName lastName w)
    as [Hd [new [Hc [Hlen Hall]]]].
  split; [exact Hd|]. split; [exists new; auto|].
  intros user Hcold Hrun.
  unfold findUserByName in Hrun. unfold bind at 1, log at 1 in Hrun.
  unfold bind at 1 in Hrun. cbn [w_cache w_calls add_console] in Hrun.
  fold (Directory.cache_key firstName lastName) in Hrun.
  unfold Directory.cache_cold in Hcold.
  assert (Hmiss :
    match w_cache w !! Directory.cache_key firstName lastName with
    | Some cached =>
        if date_now E (w_calls w) - timestamp cached <? CACHE_DURATION
        then Some cached else None
    | None => None
    end = None).
  { destruct (w_cache w !! Directory.cache_key firstName lastName)
      as [cached|]; [|reflexivity].
    destruct (Z.ltb_spec (date_now E (w_calls w) - timestamp cached)
                CACHE_DURATION); [lia | reflexivity]. }
  rewrite Hmiss in Hrun. unfold bind at 1 in Hrun.
  destruct (search_pages E firstName lastName
              (Directory.cache_key firstName lastName) 10 None _)
    as [[[found|]|e] w1] eqn:Hsearch.
  - unfold ret in Hrun. cbn [fst] in Hrun. injection Hrun as ->.
    apply (search_pages_hit _ _ _ _ _ _ _ _ _ Hsearch).
  - unfold bind, cache_set, ret in Hrun. discriminate Hrun.
  - discriminate Hrun.
Qed.

(** X10. A lookup that returned is remembered: the cache then holds its
    result under the lower-cased name pair, and a lookup of the same
    name made while that entry is younger than five minutes sends
    nothing. It returns the same member when one was found; when none
    was found it throws a TypeError, reading [real_name] of the cached
    [null]. *)
Theorem X10_lookup_result_is_cached :
  forall (E : env) (firstName lastName : string) (w w1 : world)
         (result : option member),
    findUserByName E firstName lastName w = (Returned result, w1) ->
    exists t,
      w_cache w1 !! Directory.cache_key firstName lastName
      = Some {| cached_user := result; timestamp := t |}
      /\ date_now E (w_calls w1) - t < CACHE_DURATION
      /\ forall E',
           date_now E' (w_calls w1) - t < CACHE_DURATION ->
           exists w2,
             findUserByName E' firstName lastName w1
             = (match result with
                | Some user => Returned (Some user)
                | None =>
                    Thrown (TypeError
                      "Cannot read properties of null (reading 'real_name')")
                end, w2)
             /\ w_calls w2 = w_calls w1
             /\ w_cache w2 = w_cache w1
             /\ w_db w2 = w_db w1.
Proof.
  intros E firstName lastName w w1 result Hrun.
  assert (Hentry : exists t,
    w_cache w1 !! Directory.cache_key firstName lastName
    = Some {| cached_user := result; timestamp := t |}
    /\ date_now E (w_calls w1) - t < CACHE_DURATION).
  { unfold findUserByName in Hrun. unfold bind at 1, log at 1 in Hrun.
    unfold bind at 1 in Hrun. cbn [w_cache w_calls add_console] in Hrun.
    fold (Directory.cache_key firstName lastName) in Hrun.
    destruct (w_cache w !! Directory.cache_key firstName lastName)
      as [cached|] eqn:Hlook.
    - destruct (Z.ltb_spec (date_now E (w_calls w) - timestamp cached)
                  CACHE_DURATION) as [Hfresh|Hstale].
      + destruct cached as [[user|] t]; cbn [cached_user timestamp] in *;
          [|discriminate Hrun].
        unfold bind, log, ret in Hrun. injection Hrun as <- <-.
        exists t. cbn [w_cache w_calls add_console]. auto.
      + unfold bind at 1 in Hrun.
        destruct (search_pages E firstName lastName
                    (Directory.cache_key firstName lastName) 10 None _)
          as [[[found|]|e] w0] eqn:Hsearch; [| |discriminate Hrun].
        * unfold ret in Hrun. injection Hrun as <- <-.
          destruct (search_pages_hit _ _ _ _ _ _ _ _ _ Hsearch) as [_ Hc].
          eexists. split; [exact Hc|]. unfold CACHE_DURATION. lia.
        * unfold bind, cache_set, ret in Hrun. injection Hrun as <- <-.
          eexists. cbn [w_cache w_calls set_cache].
          split; [apply lookup_insert_eq|]. unfold CACHE_DURATION. lia.
    - unfold bind at 1 in Hrun.
      destruct (search_pages E firstName lastName
                  (Directory.cache_key firstName lastName) 10 None _)
        as [[[found|]|e] w0] eqn:Hsearch; [| |discriminate Hrun].
      + unfold ret in Hrun. injection Hrun as <- <-.
        destruct (search_pages_hit _ _ _ _ _ _ _ _ _ Hsearch) as [_ Hc].
        eexists. split; [exact Hc|]. unfold CACHE_DURATION. lia.
      + unfold bind, cache_set, ret in Hrun. injection Hrun as <- <-.
        eexists. cbn [w_cache w_calls set_cache].
        split; [apply lookup_insert_eq|]. unfold CACHE_DURATION. lia. }
  destruct Hentry as [t [Hlook Hfresh]].
  exists t. split; [exact Hlook|]. split; [exact Hfresh|].
  intros E' Hfresh'.
  unfold findUserByName. unfold bind at 1, log at 1.
  unfold bind at 1. cbn [w_cache w_calls add_console].
  fold (Directory.cache_key firstName lastName).
  rewrite Hlook. cbn [timestamp cached_user].
  destruct (Z.ltb_spec (date_now E' (w_calls w1) - t) CACHE_DURATION);
    [|lia].
  destruct result as [user|].
  - unfold bind, log, ret. eexists. split; [reflexivity|].
    repeat split.
  - unfold throw. eexists. split; [reflexivity|]. repeat split.
Qed.

Lemma X10_lookup_result_is_cached_witness :
  findUserByName Examples.one_page "Jane" "Doe" Examples.fresh_world
  = (Returned (Some Examples.jane_doe),
     snd (findUserByName Examples.one_page "Jane" "Doe" Examples.fresh_world))
  /\ exists t,
       w_cache (snd (findUserByName Examples.one_page "Jane" "Doe"
                       Examples.fresh_world))
         !! Directory.cache_key "Jane" "Doe"
       = Some {| cached_user := Some Examples.jane_doe; timestamp := t |}.
Proof.
  assert (Hrun :
    findUserByName Examples.one_page "Jane" "Doe" Examples.fresh_world
    = (Returned (Some Examples.jane_doe),
       snd (findUserByName Examples.one_page "Jane" "Doe"
              Examples.fresh_world))) by reflexivity.
  split; [exact Hrun|].
  destruct (X10_lookup_result_is_cached _ _ _ _ _ _ Hrun) as [t [Hlook _]].
  exists t. exact Hlook.
Defined.

Lemma X9_lookup_is_bounded_and_skips_deleted_members_witness :
  Directory.cache_cold Examples.one_page Examples.fresh_world
    (Directory.cache_key "Jane" "Doe")
  /\ fst (findUserByName Examples.one_page "Jane" "Doe" Examples.fresh_world)
     = Returned (Some Examples.jane_doe)
  /\ deleted Examples.jane_doe = false.
Proof.
  split; [exact I|]. split; [reflexivity|].
  exact (proj2 (proj2 (X9_lookup_is_bounded_and_skips_deleted_members
                         Examples.one_page "Jane" "Doe" Examples.fresh_world))
           Examples.jane_doe I eq_refl).
Defined.

End Paging.

(** ** The collection round *)
Section Collection.
Import Slack Effects Database Service Trace Logic.
Local Open Scope js_scope.

Lemma opened_cons (c : api_call) (calls : list api_call) :
  opened (c :: calls)
  = opened calls ++ match c with ConversationsOpen u => [u] | _ => [] end.
Proof.
  unfold opened. cbn [List.rev]. rewrite List.flat_map_app. cbn [List.flat_map].
  now rewrite List.app_nil_r.
Qed.

Lemma posted_cons (c : api_call) (calls : list api_call) :
  posted (c :: calls)
  = posted calls ++ match c with PostMessage p => [p] | _ => [] end.
Proof.
  unfold posted. cbn [List.rev]. rewrite List.flat_map_app. cbn [List.flat_map].
  now rewrite List.app_nil_r.
Qed.

Lemma pauses_cons (c : api_call) (calls : list api_call) :
  pauses (c :: calls)
  = pauses calls ++ match c with Delay ms => [ms] | _ => [] end.
Proof.
  unfold pauses. cbn [List.rev]. rewrite List.flat_map_app. cbn [List.flat_map].
  now rewrite List.app_nil_r.
Qed.

(** One member of the round: the DM channel is asked for, and the
    collection message is sent when the platform says the channel is
    open. Nothing the platform answers makes the body throw. *)
Lemma collect_from_calls (E : env) (cid : string) (user : member) (w : world) :
  exists w',
    collect_from E cid user w = (Returned tt, w')
    /\ w_db w' = w_db w
    /\ w_cache w' = w_cache w
    /\ ((conversations_open E (w_calls w) (m_id user)
         = Returned {| ok := true |}
         /\ w_calls w'
            = PostMessage (collection_post cid user)
              :: ConversationsOpen (m_id user) :: w_calls w)
        \/ (conversations_open E (w_calls w) (m_id user)
            <> Returned {| ok := true |}
            /\ w_calls w' = ConversationsOpen (m_id user) :: w_calls w)).
Proof.
  unfold collect_from, try_catch, bind, api_conversations_open,
    api_postMessage, log, log_with, log_error, ret.
  destruct (conversations_open E (w_calls w) (m_id user)) as [[[|]]|e];
    cbn [ok negb w_calls add_call add_console].
  - destruct (chat_postMessage E _ _); eexists;
      (split; [reflexivity|]); (split; [reflexivity|]);
      (split; [reflexivity|]); left; split; reflexivity.
  - eexists. split; [reflexivity|]. split; [reflexivity|].
    split; [reflexivity|]. right. split; [discriminate | reflexivity].
  - eexists. split; [reflexivity|]. split; [reflexivity|].
    split; [reflexivity|]. right. split; [discriminate | reflexivity].
Qed.

Lemma collect_from_keeps_db (E : env) (cid : string) (user : member) :
  keeps_db (collect_from E cid user).
Proof.
  intros w. destruct (collect_from_calls E cid user w) as [w' [-> [Hdb _]]].
  exact Hdb.
Qed.

Lemma batch_of_one (E : env) (cid : string) (user : member) (w w1 : world) :
  collect_from E cid user w = (Returned tt, w1) ->
  (for_of [user] (collect_from E cid) ;;; delay 2500) w
  = (Returned tt, add_call w1 (Delay 2500)).
Proof.
  intros Hrun. cbn [for_of]. unfold bind. rewrite Hrun. reflexivity.
Qed.

(** The rounds over the eligible members, one member per batch. *)
Lemma rounds_calls (E : env) (cid : string) :
  forall (users : list member) (w : world),
    exists w' ps,
      for_of (List.map (fun u => [u]) users)
        (fun batch => for_of batch (collect_from E cid) ;;; delay 2500) w
      = (Returned tt, w')
      /\ w_db w' = w_db w
      /\ w_cache w' = w_cache w
      /\ opened (w_calls w') = opened (w_calls w) ++ List.map m_id users
      /\ pauses (w_calls w')
         = pauses (w_calls w) ++ List.repeat 2500 (List.length users)
      /\ posted (w_calls w') = posted (w_calls w) ++ ps
      /\ Forall (fun p => exists u, In u users /\ p = collection_post cid u) ps
      /\ ((forall calls u,
             conversations_open E calls u = Returned {| ok := true |}) ->
          ps = List.map (collection_post cid) users).
Proof.
  induction users as [|u users IH]; intros w.
  - exists w, []. cbn. rewrite !List.app_nil_r. repeat split; auto.
  - cbn [List.map]. rewrite for_of_cons_eq.
    destruct (collect_from_calls E cid u w) as [w1 [Hrun [Hdb [Hcache Hcalls]]]].
    rewrite (batch_of_one E cid u w w1 Hrun).
    destruct (IH (add_call w1 (Delay 2500)))
      as [w' [ps [Hloop [Hdb' [Hcache' [Hopen [Hpause [Hpost [Hall Hok]]]]]]]]].
    cbn [w_db w_cache w_calls add_call] in *.
    rewrite opened_cons, pauses_cons, posted_cons in *.
    rewrite List.app_nil_r in Hopen, Hpost.
    destruct Hcalls as [[Hyes Hcalls] | [Hno Hcalls]]; rewrite Hcalls in *.
    + exists w', (collection_post cid u :: ps).
      rewrite !opened_cons, !pauses_cons, !posted_cons in *.
      rewrite ?List.app_nil_r in *.
      split; [exact Hloop|]. split; [congruence|]. split; [congruence|].
      split; [rewrite Hopen, <- !List.app_assoc; reflexivity|].
      split; [rewrite Hpause, <- !List.app_assoc; reflexivity|].
      split; [rewrite Hpost, <- !List.app_assoc; reflexivity|].
      split.
      * constructor; [exists u; split; [now left | reflexivity]|].
        eapply Forall_impl; [|exact Hall].
        intros p [u' [Hin Hp]]. exists u'. split; [now right | exact Hp].
      * intros Hallok. now rewrite (Hok Hallok).
    + exists w', ps.
      rewrite !opened_cons, !pauses_cons, !posted_cons in *.
      rewrite ?List.app_nil_r in *.
      split; [exact Hloop|]. split; [congruence|]. split; [congruence|].
      split; [rewrite Hopen, <- !List.app_assoc; reflexivity|].
      split; [rewrite Hpause, <- !List.app_assoc; reflexivity|].
      split; [exact Hpost|].
      split.
      * eapply Forall_impl; [|exact Hall].
        intros p [u' [Hin Hp]]. exists u'. split; [now right | exact Hp].
      * intros Hallok. contradiction (Hno (Hallok _ _)).
Qed.

Lemma eligible_spec (cid : string) (user : member) :
  eligible cid user = true ->
  is_bot user = false /\ deleted user = false
  /\ is_restricted user = false /\ is_ultra_restricted user = false
  /\ m_id user <> cid /\ m_id user <> "USLACKBOT" /\ m_name user <> cid.
Proof.
  unfold eligible. rewrite !andb_true_iff, !negb_true_iff.
  intros [[[[[[H1 H2] H3] H4] H5] H6] H7].
  repeat split; try assumption; now apply eqb_string_false.
Qed.

(** X11. [triggerBirthdayCollection] never throws. When [users.list]
    answers, the members asked are those of its first page that are
    neither bots, deleted, guests, the Slackbot nor the celebrant: a DM
    channel is requested for each of them once, in directory order, each
    followed by a pause of 2500 ms; every message posted is the
    collection message, addressed to one of them; and when every channel
    opens there is one message per member, in the same order. *)
Theorem X11_collection_asks_each_eligible_member_once :
  forall (E : env) (cid : string) (w : world) (result : users_response),
    users_list E (w_calls w) None = Returned result ->
    let users := List.filter (eligible cid) (members result) in
    exists w' ps,
      triggerBirthdayCollection E cid w = (Returned tt, w')
      /\ opened (w_calls w') = opened (w_calls w) ++ List.map m_id users
      /\ pauses (w_calls w')
         = pauses (w_calls w) ++ List.repeat 2500 (List.length users)
      /\ posted (w_calls w') = posted (w_calls w) ++ ps
      /\ Forall (fun p =>
                   exists u, In u (members result)
                             /\ p = collection_post cid u
                             /\ is_bot u = false /\ deleted u = false
                             /\ is_restricted u = false
                             /\ is_ultra_restricted u = false
                             /\ channel p <> cid
                             /\ channel p <> "USLACKBOT") ps
      /\ ((forall calls u,
             conversations_open E calls u = Returned {| ok := true |}) ->
          ps = List.map (collection_post cid) users).
Proof.
  intros E cid w result Hlist users.
  unfold triggerBirthdayCollection, try_catch.
  unfold bind at 1. unfold get_db at 1.
  unfold bind at 1.
  set (w0 := snd ((if checkUserExists (w_db w) cid =? 0
                   then now <- sql_now E ;;
                        put_db (insertBirthday (w_db w) now cid None)
                   else ret tt) w)).
  assert (Hw0 :
    (if checkUserExists (w_db w) cid =? 0
     then now <- sql_now E ;; put_db (insertBirthday (w_db w) now cid None)
     else ret tt) w = (Returned tt, w0) /\ w_calls w0 = w_calls w).
  { subst w0. destruct (checkUserExists (w_db w) cid =? 0);
      split; reflexivity. }
  destruct Hw0 as [Hinit Hcalls0]. rewrite Hinit.
  unfold bind at 1. unfold api_users_list at 1. rewrite Hcalls0, Hlist.
  unfold bind at 1. unfold log at 1.
  fold users. rewrite chunk_of_size_one.
  match goal with
  | |- context [for_of _ _ ?w2] =>
      destruct (rounds_calls E cid users w2)
        as [w' [ps [Hloop [_ [_ [Hopen [Hpause [Hpost [Hall Hok]]]]]]]]]
  end.
  rewrite Hloop. exists w', ps.
  cbn [w_calls add_console add_call] in Hopen, Hpause, Hpost.
  rewrite opened_cons, pauses_cons, posted_cons in *.
  rewrite ?List.app_nil_r in *.
  rewrite Hcalls0 in *.
  split; [reflexivity|]. split; [exact Hopen|]. split; [exact Hpause|].
  split; [exact Hpost|]. split; [|exact Hok].
  eapply Forall_impl; [|exact Hall].
  intros p [u [Hin ->]]. subst users. apply filter_In in Hin as [Hin Hel].
  apply eligible_spec in Hel as [H1 [H2 [H3 [H4 [H5 [H6 _]]]]]].
  exists u. cbn [channel collection_post]. repeat split; assumption.
Qed.

Lemma X11_collection_asks_each_eligible_member_once_witness :
  users_list (Examples.calm Examples.two_members "Roses are red")
    (w_calls Examples.two_birthdays_world) None
  = Returned {| members := Examples.two_members; next_cursor := None |}
  /\ exists w',
       triggerBirthdayCollection
         (Examples.calm Examples.two_members "Roses are red") "UA"
         Examples.two_birthdays_world = (Returned tt, w')
       /\ opened (w_calls w') = ["UB"]
       /\ posted (w_calls w')
          = [collection_post "UA" (Examples.plain_member "UB" "bob")].
Proof.
  split; [reflexivity|].
  destruct (X11_collection_asks_each_eligible_member_once
              (Examples.calm Examples.two_members "Roses are red") "UA"
              Examples.two_birthdays_world _ eq_refl)
    as [w' [ps [Hrun [Hopen [_ [Hpost [_ Hok]]]]]]].
  exists w'. split; [exact Hrun|]. split; [exact Hopen|].
  rewrite Hpost, (Hok (fun _ _ => eq_refl)). reflexivity.
Defined.

Lemma checkUserExists_known (d : db) (cid : string) :
  (checkUserExists d cid =? 0) = negb (celebrant_known d cid).
Proof.
  unfold checkUserExists, celebrant_known.
  induction (birthdays d) as [|r rows IH]; [reflexivity|].
  cbn [List.filter List.existsb].
  destruct (String.eqb (user_id r) cid); [|exact IH].
  cbn [orb negb List.length]. apply Z.eqb_neq. lia.
Qed.

Lemma insertBirthday_known (d : db) (now : Z) (uid : string)
  (date : option string) :
  celebrant_known (insertBirthday d now uid date) uid = true.
Proof.
  unfold celebrant_known, insertBirthday. cbn [birthdays set_birthdays].
  rewrite List.existsb_app. cbn [List.existsb user_id].
  rewrite String.eqb_refl. now rewrite orb_true_r.
Qed.

(** What a collection round leaves in the database, and what it sends
    when the directory cannot be read. *)
Lemma triggerBirthdayCollection_db (E : env) (cid : string) (w w' : world) :
  triggerBirthdayCollection E cid w = (Returned tt, w') ->
  w_db w'
  = (if celebrant_known (w_db w) cid then w_db w
     else insertBirthday (w_db w) (date_now E (w_calls w) / 1000) cid None)
  /\ (forall e, users_list E (w_calls w) None = Thrown e ->
        w_calls w' = UsersList None :: w_calls w).
Proof.
  unfold triggerBirthdayCollection, try_catch.
  unfold bind at 1. unfold get_db at 1. unfold bind at 1.
  rewrite checkUserExists_known.
  set (d' := if celebrant_known (w_db w) cid then w_db w
             else insertBirthday (w_db w) (date_now E (w_calls w) / 1000)
                    cid None).
  set (w0 := set_db w d').
  assert (Hinit :
    (if negb (celebrant_known (w_db w) cid)
     then now <- sql_now E ;; put_db (insertBirthday (w_db w) now cid None)
     else ret tt) w
    = (Returned tt, if celebrant_known (w_db w) cid then w else w0)).
  { subst w0 d'. destruct (celebrant_known (w_db w) cid); reflexivity. }
  rewrite Hinit. clear Hinit.
  set (w1 := if celebrant_known (w_db w) cid then w else w0).
  assert (Hw1 : w_db w1 = d' /\ w_calls w1 = w_calls w).
  { subst w1 w0 d'. destruct (celebrant_known (w_db w) cid);
      split; reflexivity. }
  destruct Hw1 as [Hdb1 Hcalls1]. clearbody w1.
  match goal with
  | |- context [bind (api_users_list E None) ?k] =>
      assert (Hkeep : keeps_db (bind (api_users_list E None) k))
        by (step_js;
            repeat (match goal with
                    | |- context [if ?b then _ else _] => destruct b
                    end; step_js));
      pose proof (Hkeep w1) as Hk; clear Hkeep;
      destruct (bind (api_users_list E None) k w1) as [[[]|e] w3] eqn:Hrest
  end; cbn [snd] in Hk; unfold log_error; intros [= <-];
    (split; [cbn [w_db add_console]; congruence|]);
    intros e' He'; unfold bind at 1 in Hrest;
    unfold api_users_list at 1 in Hrest;
    rewrite Hcalls1, He' in Hrest.
  - discriminate Hrest.
  - injection Hrest as _ <-. cbn [w_calls add_console add_call].
    now rewrite Hcalls1.
Qed.

(** X12. [triggerBirthdayCollection] returns whatever the platform does,
    and afterwards the celebrant has a birthday record, so that the
    tributes sent in can be stored. A record that exists is left as it
    is; a missing one is created with the date [1900-01-01]. Other
    members' records, tributes and descriptions are not touched, and a
    failing [users.list] ends the round with that one request. *)
Theorem X12_collection_makes_the_celebrant_known :
  forall (E : env) (cid : string) (w : world),
    exists w',
      triggerBirthdayCollection E cid w = (Returned tt, w')
      /\ celebrant_known (w_db w') cid = true
      /\ w_db w'
         = (if celebrant_known (w_db w) cid then w_db w
            else insertBirthday (w_db w) (date_now E (w_calls w) / 1000)
                   cid None)
      /\ getBirthday (w_db w') cid
         = (if celebrant_known (w_db w) cid then getBirthday (w_db w) cid
            else Some (placeholder (date_now E (w_calls w) / 1000) cid))
      /\ (forall uid, uid <> cid ->
            getBirthday (w_db w') uid = getBirthday (w_db w) uid)
      /\ birthday_messages (w_db w') = birthday_messages (w_db w)
      /\ description_messages (w_db w') = description_messages (w_db w)
      /\ (forall e, users_list E (w_calls w) None = Thrown e ->
            w_calls w' = UsersList None :: w_calls w).
Proof.
  intros E cid w.
  destruct (triggerBirthdayCollection_never_throws E cid w) as [[] [w' Hrun]].
  exists w'. split; [exact Hrun|].
  destruct (triggerBirthdayCollection_db E cid w w' Hrun) as [Hdb Hfail].
  rewrite Hdb.
  destruct (celebrant_known (w_db w) cid) eqn:Hknown.
  - repeat split; auto.
  - split; [apply insertBirthday_known|]. split; [reflexivity|].
    split; [apply insertBirthday_get|].
    split; [intros uid Hne; apply insertBirthday_get_other; congruence|].
    repeat split; auto.
Qed.

End Collection.

(** ** The thread when every post is accepted *)
Section ThreadDelivered.
Import Slack Effects Database Service Trace Logic.
Local Open Scope js_scope.

(** The poem generator posts nothing: its one call goes to the model. *)
Lemma generateBirthdayPoem_posts_nothing (E : env)
  (descriptions : list description_row) (w : world) :
  exists poem w',
    generateBirthdayPoem E descriptions w = (Returned poem, w')
    /\ w_db w' = w_db w
    /\ posted (w_calls w') = posted (w_calls w).
Proof.
  unfold generateBirthdayPoem, try_catch, bind, api_messages_create,
    first_text_trimmed, log_error, ret, throw.
  destruct (messages_create E (w_calls w) _) as [response|e].
  - destruct (content response) as [|b rest];
      [|destruct (block_text b)]; eexists _, _;
      (split; [reflexivity|]); (split; [reflexivity|]);
      cbn [w_calls add_console add_call]; rewrite posted_cons;
      apply List.app_nil_r.
  - eexists _, _. split; [reflexivity|]. split; [reflexivity|].
    cbn [w_calls add_console add_call]. rewrite posted_cons.
    apply List.app_nil_r.
Qed.

(** The loop over the tributes, every post being accepted. *)
Lemma tributes_posted (E : env) (cid main : string) :
  (forall calls p, exists r, chat_postMessage E calls p = Returned r) ->
  forall (messages : list message_row) (w : world),
    exists w',
      for_of messages (fun message =>
        log ("Posting birthday message for " +:+ cid +:+ " from "
             +:+ bm_sender_name message) ;;;
        _ <- api_postMessage E
               {| channel := BIRTHDAY_CHANNEL E;
                  thread_ts := Some main;
                  text := tribute_text message |} ;;
        ret tt) w
      = (Returned tt, w')
      /\ w_db w' = w_db w
      /\ posted (w_calls w')
         = posted (w_calls w)
           ++ List.map (fun m => reply E main (tribute_text m)) messages.
Proof.
  intros Hacc. induction messages as [|m messages IH]; intros w.
  - exists w. cbn. rewrite List.app_nil_r. auto.
  - rewrite for_of_cons_eq.
    unfold bind at 1. unfold log at 1. unfold bind at 1.
    unfold api_postMessage at 1. cbn [w_calls add_console].
    destruct (Hacc (w_calls w)
                {| channel := BIRTHDAY_CHANNEL E; thread_ts := Some main;
                   text := tribute_text m |}) as [r Hr].
    rewrite Hr. unfold ret at 1.
    match goal with
    | |- context [for_of _ _ ?w1] => destruct (IH w1) as [w' [Hloop [Hdb Hpost]]]
    end.
    exists w'. split; [exact Hloop|]. split; [exact Hdb|].
    rewrite Hpost. cbn [w_calls add_console add_call]. rewrite posted_cons.
    cbn [List.map]. rewrite <- List.app_assoc. reflexivity.
Qed.

Lemma mark_descriptions_keeps_tributes (d : db) (cid : string) :
  birthday_messages (snd (markDescriptionMessagesAsSent d cid))
  = birthday_messages d.
Proof. reflexivity. Qed.

(** The poem and the descriptions, every post being accepted. *)
Lemma descriptions_posted (E : env) (cid : string) (mainPost : post_response)
  (descriptions : list description_row) (w : world) :
  (forall calls p, exists r, chat_postMessage E calls p = Returned r) ->
  descriptions = getDescriptionMessages (w_db w) cid ->
  exists w' about,
    (if (0 <? Z.of_nat (List.length descriptions)) then
       log ("Generating poem for " +:+ cid) ;;;
       poem <- generateBirthdayPoem E descriptions ;;
       log ("Posting poem for " +:+ cid) ;;;
       _ <- api_postMessage E
              {| channel := BIRTHDAY_CHANNEL E;
                 thread_ts := Some (ts mainPost);
                 text := "*A special birthday poem for you:*" +:+ nl +:+ nl
                         +:+ poem +:+ nl +:+ nl
                         +:+ ":birthday: :sparkles: :cake:" |} ;;
       let descriptionMessage :=
         List.fold_left description_line descriptions
           ("*Here's what your colleagues say about you:*" +:+ nl +:+ nl) in
       _ <- api_postMessage E
              {| channel := BIRTHDAY_CHANNEL E;
                 thread_ts := Some (ts mainPost);
                 text := descriptionMessage |} ;;
       d1 <- get_db ;;
       put_db (snd (markDescriptionMessagesAsSent d1 cid))
     else ret tt) w
    = (Returned tt, w')
    /\ w_db w' = snd (markDescriptionMessagesAsSent (w_db w) cid)
    /\ posted (w_calls w') = posted (w_calls w) ++ about
    /\ match descriptions with
       | [] => about = []
       | _ :: _ =>
           exists poem,
             about
             = [reply E (ts mainPost)
                  ("*A special birthday poem for you:*" +:+ nl +:+ nl
                   +:+ poem +:+ nl +:+ nl
                   +:+ ":birthday: :sparkles: :cake:");
                reply E (ts mainPost)
                  (List.fold_left description_line descriptions
                     ("*Here's what your colleagues say about you:*"
                      +:+ nl +:+ nl))]
       end.
Proof.
  intros Hacc Hdesc.
  destruct descriptions as [|x rest].
  - exists w, []. cbn [List.length Z.of_nat Z.ltb Z.compare]. unfold ret.
    split; [reflexivity|].
    split; [symmetry; apply no_descriptions_mark_is_identity; auto|].
    split; [now rewrite List.app_nil_r | reflexivity].
  - assert (Hpos : (0 <? Z.of_nat (List.length (x :: rest))) = true).
    { apply Z.ltb_lt. cbn [List.length]. lia. }
    rewrite Hpos. clear Hpos.
    unfold bind at 1. unfold log at 1. unfold bind at 1.
    match goal with
    | |- context [generateBirthdayPoem E ?ds ?w0] =>
        destruct (generateBirthdayPoem_posts_nothing E ds w0)
          as [poem [wp [Hpoem [Hdbp Hpostp]]]]
    end.
    rewrite Hpoem. unfold bind at 1. unfold log at 1.
    unfold bind at 1. unfold api_postMessage at 1.
    cbn [w_calls add_console].
    match goal with
    | |- context [chat_postMessage E ?calls ?p] =>
        destruct (Hacc calls p) as [r1 Hr1]
    end.
    rewrite Hr1. cbv zeta.
    unfold bind at 1. unfold api_postMessage at 1.
    cbn [w_calls add_console add_call].
    match goal with
    | |- context [chat_postMessage E (?c :: ?calls) ?p] =>
        destruct (Hacc (c :: calls) p) as [r2 Hr2]
    end.
    rewrite Hr2. unfold bind, get_db, put_db.
    eexists _, _. split; [reflexivity|].
    cbn [w_db w_calls set_db add_console add_call] in *.
    split; [now rewrite Hdbp|].
    rewrite !posted_cons, Hpostp. cbn [w_calls add_console].
    split; [rewrite <- !List.app_assoc; reflexivity|].
    exists poem. reflexivity.
Qed.

(** X13. When the platform accepts every post, [postBirthdayThread]
    posts the announcement to the birthday channel, then, if the
    celebrant has undelivered descriptions, the poem and the list of
    descriptions, then one message per undelivered tribute, oldest
    first; every message after the announcement is a reply in its
    thread. Afterwards the celebrant has nothing undelivered. *)
Theorem X13_accepted_thread_posts_everything_in_order :
  forall (E : env) (cid : string) (w : world) (mainPost : post_response),
    chat_postMessage E (w_calls w) (announcement E cid) = Returned mainPost ->
    (forall calls p, exists r, chat_postMessage E calls p = Returned r) ->
    exists w' about,
      postBirthdayThread E cid w = (Returned tt, w')
      /\ posted (w_calls w')
         = posted (w_calls w)
           ++ [announcement E cid]
           ++ about
           ++ List.map (fun m => reply E (ts mainPost) (tribute_text m))
                (getBirthdayMessages (w_db w) cid)
      /\ match getDescriptionMessages (w_db w) cid with
         | [] => about = []
         | _ :: _ =>
             exists poem,
               about
               = [reply E (ts mainPost)
                    ("*A special birthday poem for you:*" +:+ nl +:+ nl
                     +:+ poem +:+ nl +:+ nl
                     +:+ ":birthday: :sparkles: :cake:");
                  reply E (ts mainPost)
                    (List.fold_left description_line
                       (getDescriptionMessages (w_db w) cid)
                       ("*Here's what your colleagues say about you:*"
                        +:+ nl +:+ nl))]
         end
      /\ getDescriptionMessages (w_db w') cid = []
      /\ getBirthdayMessages (w_db w') cid = []
      /\ birthdays (w_db w') = birthdays (w_db w).
Proof.
  intros E cid w mainPost Hmain Hacc.
  unfold postBirthdayThread, try_catch.
  unfold bind at 1. unfold api_postMessage at 1. rewrite Hmain.
  unfold bind at 1. unfold log at 1.
  unfold bind at 1. unfold get_db at 1.
  cbn [w_db w_calls add_console add_call].
  unfold bind at 1.
  match goal with
  | |- context [(if _ then _ else ret tt) ?w0] =>
      destruct (descriptions_posted E cid mainPost
                  (getDescriptionMessages (w_db w) cid) w0 Hacc eq_refl)
        as [w1 [about [Hblock [Hdb1 [Hpost1 Habout]]]]];
      replace ((if 0 <? Z.of_nat (List.length
                                    (getDescriptionMessages (w_db w) cid))
                then _ else ret tt) w0)
        with (@Returned unit tt, w1) by (symmetry; exact Hblock)
  end.
  unfold bind at 1. unfold log at 1.
  unfold bind at 1. unfold get_db at 1.
  cbn [w_db w_calls add_console add_call] in *.
  unfold bind at 1.
  match goal with
  | |- context [for_of ?ms _ ?w2] =>
      destruct (tributes_posted E cid (ts mainPost) Hacc ms w2)
        as [w3 [Hloop [Hdb3 Hpost3]]]
  end.
  rewrite Hloop. unfold bind, get_db, put_db.
  eexists _, about. split; [reflexivity|].
  cbn [w_db w_calls set_db add_console add_call] in *.
  rewrite Hdb3, Hdb1 in *.
  split.
  { rewrite Hpost3, Hpost1, posted_cons. rewrite <- !List.app_assoc.
    reflexivity. }
  split; [exact Habout|].
  split.
  { apply markDescriptions_then_none. }
  split; [|reflexivity].
  unfold markMessagesAsSent, getBirthdayMessages.
  apply (select_unsent_after_mark _ _ cid).
Qed.

Lemma X13_accepted_thread_posts_everything_in_order_witness :
  chat_postMessage (Examples.calm [] "Roses are red")
    (w_calls Examples.party_world)
    (announcement (Examples.calm [] "Roses are red") "U1")
  = Returned {| ts := "1717228800.000100" |}
  /\ exists w',
       postBirthdayThread (Examples.calm [] "Roses are red") "U1"
         Examples.party_world = (Returned tt, w')
       /\ getBirthdayMessages (w_db w') "U1" = []
       /\ List.length (posted (w_calls w')) = 5%nat.
Proof.
  split; [reflexivity|].
  destruct (X13_accepted_thread_posts_everything_in_order
              (Examples.calm [] "Roses are red") "U1" Examples.party_world
              _ eq_refl (fun _ _ => ex_intro _ _ eq_refl))
    as [w' [about [Hrun [Hpost [Habout [_ [Hnone _]]]]]]].
  exists w'. split; [exact Hrun|]. split; [exact Hnone|].
  rewrite Hpost. cbn in Habout. destruct Habout as [poem ->]. reflexivity.
Defined.

End ThreadDelivered.

(** ** The thread when a post is rejected *)
Section ThreadInterrupted.
Import Slack Effects Database Service Trace Logic.
Local Open Scope js_scope.








End ThreadInterrupted.

(** ** Dates the scheduler meets *)
Section SchedulerDates.
Import JSDate Calendar Slack Effects Database Cron Commands Trace.

(** X14. [isValidDate] accepts exactly the five-character texts DD-MM
    that name a day of a month of a leap year, 29-02 included: two
    digits, a dash, two digits, the month from 01 to 12 and the day from
    01 to the length of that month. *)
Theorem X14_valid_dates_are_the_day_months :
  forall (tz : timezone) (dateStr : string),
    tz_ok tz ->
    (isValidDate tz dateStr = true
     <-> exists day month,
           stored_day_month day month /\ dateStr = day_month day month).
Proof.
  intros tz dateStr Htz. split.
  - now apply valid_is_stored.
  - intros [day [month [Hst ->]]]. now apply stored_is_valid.
Qed.

Lemma X14_valid_dates_are_the_day_months_witness :
  tz_ok tz_UTC
  /\ (isValidDate tz_UTC "31-04" = true
      <-> exists day month,
            stored_day_month day month /\ "31-04" = day_month day month).
Proof.
  split; [exact tz_UTC_ok|].
  exact (X14_valid_dates_are_the_day_months tz_UTC "31-04" tz_UTC_ok).
Defined.

Lemma leap_day_parses :
  JS.parseInt_at (JS.split "-" "29-02") 1 = Some 2
  /\ JS.parseInt_at (JS.split "-" "29-02") 0 = Some 29.
Proof. split; reflexivity. Qed.

Lemma placeholder_parses :
  JS.parseInt_at (JS.split "-" "1900-01-01") 1 = Some 1
  /\ JS.parseInt_at (JS.split "-" "1900-01-01") 0 = Some 1900.
Proof. split; reflexivity. Qed.

(** The day a year's 29-02 is built on: 29 February, or 1 March in a
    year that has no such day. *)
Lemma leap_day_of_year (Y : Z) :
  MakeDay Y 1 29 = DayFromYear Y + 59
  /\ MakeDay Y 2 1 = DayFromYear Y + 59 + InLeapYear_year Y.
Proof.
  rewrite !MakeDay_in_year by lia. unfold month_start. cbn. lia.
Qed.

Lemma falls_on_is_MakeDay (day month D : Z) :
  falls_on day month D -> D = MakeDay (YearFromDay D) (month - 1) day.
Proof.
  intros [Hm Hd]. destruct (day_is_its_date D) as [_ [_ HD]].
  cbv zeta in HD. now rewrite Hm, Hd in HD.
Qed.

(** X15. A member whose birthday is 29-02 has offset 0, the day of the
    thread, on 29 February in a leap year and on 1 March in a year that
    has no 29 February, and on no other day. *)
Theorem X15_leap_day_birthday_is_announced_once_a_year :
  forall (tz : timezone) (wall : Z),
    tz_ok tz ->
    0 <= wall ->
    Day (LocalTime tz (UTC tz wall)) = Day wall ->
    (diffDays tz wall "29-02" = Some 0
     <-> falls_on 29 2 (Day wall)
         \/ (falls_on 1 3 (Day wall)
             /\ InLeapYear_year (YearFromDay (Day wall)) = 0)).
Proof.
  intros tz wall Htz Hpos Hwall.
  destruct leap_day_parses as [Hpm Hpd].
  rewrite (diffDays_midnight tz Htz wall _ 2 29 Hpos Hwall Hpm Hpd).
  cbv zeta. change (2 - 1) with 1.
  set (Dt := Day wall). set (Y := YearFromDay Dt).
  destruct (leap_day_of_year Y) as [HD0 HM1].
  pose proof (YearFromDay_spec Dt) as Hs. fold Y in Hs.
  rewrite DayFromYear_succ, DaysInYear_leap in Hs.
  pose proof (InLeapYear_year_01 Y) as Hleap.
  assert (Hzero :
    (if MakeDay Y 1 29 <? Dt
     then MakeDay (Y + 1) (MonthFromTime (MakeDay Y 1 29 * msPerDay))
            (DateFromTime (MakeDay Y 1 29 * msPerDay))
     else MakeDay Y 1 29) - Dt = 0 <-> Dt = MakeDay Y 1 29).
  { destruct (Z.ltb_spec (MakeDay Y 1 29) Dt) as [Hlt|Hge]; [|lia].
    destruct (day_is_its_date (MakeDay Y 1 29)) as [Hmon [Hdate _]].
    cbv zeta in Hmon, Hdate.
    rewrite MakeDay_in_year by exact Hmon.
    pose proof (month_start_nonneg
                  (MonthFromTime (MakeDay Y 1 29 * msPerDay))
                  (InLeapYear_year (Y + 1))) as Hms.
    pose proof (InLeapYear_year_01 (Y + 1)) as Hl1.
    rewrite DayFromYear_succ, DaysInYear_leap. lia. }
  split.
  - intros [= Hz]. apply Hzero in Hz.
    destruct Hleap as [Hno|Hyes].
    + right. split; [|exact Hno].
      assert (HDt : Dt = MakeDay Y 2 1) by lia.
      destruct (MakeDay_reads_back Y 2 1) as [_ [Hm Hd]];
        [lia | unfold days_in_month; cbn; lia |].
      cbv zeta in Hm, Hd. rewrite <- HDt in Hm, Hd. split; assumption.
    + left.
      destruct (MakeDay_reads_back Y 1 29) as [_ [Hm Hd]];
        [lia | unfold days_in_month; cbn; lia |].
      cbv zeta in Hm, Hd. rewrite <- Hz in Hm, Hd. split; assumption.
  - intros Hon. f_equal. apply Hzero.
    destruct Hon as [Hfeb | [Hmar Hno]].
    + apply falls_on_is_MakeDay in Hfeb. exact Hfeb.
    + apply falls_on_is_MakeDay in Hmar. fold Y in Hmar, Hno.
      change (3 - 1) with 2 in Hmar. lia.
Qed.

Lemma X15_leap_day_birthday_is_announced_once_a_year_witness :
  tz_ok tz_UTC
  /\ 0 <= wall_2024_03_01
  /\ Day (LocalTime tz_UTC (UTC tz_UTC wall_2024_03_01)) = Day wall_2024_03_01
  /\ ~ diffDays tz_UTC wall_2024_03_01 "29-02" = Some 0.
Proof.
  split; [exact tz_UTC_ok|]. split; [vm_compute; discriminate|].
  split; [reflexivity|].
  intros Hzero.
  apply (X15_leap_day_birthday_is_announced_once_a_year tz_UTC
           wall_2024_03_01 tz_UTC_ok ltac:(vm_compute; discriminate)
           eq_refl) in Hzero.
  destruct Hzero as [[Hm _] | [_ Hleap]];
    [vm_compute in Hm | vm_compute in Hleap]; discriminate.
Defined.

(** X16. A record that holds the placeholder date [1900-01-01], which
    [triggerBirthdayCollection] and a dateless insert write, is never
    due: the month is read as 1 and the day as 1900, the offset lies
    between 1534 and 1899, and [dispatch] does nothing for it. *)
Theorem X16_placeholder_date_is_never_due :
  forall (E : env) (birthday : birthday_row) (w : world),
    tz_ok (host_tz E) ->
    0 <= london_wall E (w_calls w) ->
    Day (LocalTime (host_tz E) (UTC (host_tz E) (london_wall E (w_calls w))))
    = Day (london_wall E (w_calls w)) ->
    birth_date birthday = "1900-01-01" ->
    (exists z,
       diffDays (host_tz E) (london_wall E (w_calls w)) "1900-01-01" = Some z
       /\ 1534 <= z <= 1899)
    /\ dispatch E birthday w = (Returned tt, w).
Proof.
  intros E birthday w Htz Hpos Hwall Hdate.
  destruct placeholder_parses as [Hpm Hpd].
  pose proof (diffDays_midnight (host_tz E) Htz _ _ 1 1900 Hpos Hwall Hpm Hpd)
    as Hdiff.
  cbv zeta in Hdiff. change (1 - 1) with 0 in Hdiff.
  set (Dt := Day (london_wall E (w_calls w))) in *.
  set (Y := YearFromDay Dt) in *.
  pose proof (YearFromDay_spec Dt) as Hs. fold Y in Hs.
  rewrite DayFromYear_succ, DaysInYear_leap in Hs.
  pose proof (InLeapYear_year_01 Y) as Hleap.
  assert (HD0 : MakeDay Y 0 1900 = DayFromYear Y + 1899).
  { rewrite MakeDay_in_year by lia. unfold month_start. cbn. lia. }
  destruct (Z.ltb_spec (MakeDay Y 0 1900) Dt) as [Hlt|Hge]; [lia|].
  assert (Hz : 1534 <= MakeDay Y 0 1900 - Dt <= 1899) by lia.
  split; [eexists; split; [exact Hdiff | exact Hz]|].
  rewrite dispatch_eq, Hdate, Hdiff.
  destruct (MakeDay Y 0 1900 - Dt) as [|[[[r|r|]|q|]|q|]|p];
    try lia; reflexivity.
Qed.

Lemma X16_placeholder_date_is_never_due_witness :
  tz_ok (host_tz (Examples.calm [] "Roses are red"))
  /\ birth_date (placeholder 0 "U1") = "1900-01-01"
  /\ diffDays tz_UTC
       (london_wall (Examples.calm [] "Roses are red")
          (w_calls Examples.fresh_world)) "1900-01-01" = Some 1747
  /\ dispatch (Examples.calm [] "Roses are red") (placeholder 0 "U1")
       Examples.fresh_world = (Returned tt, Examples.fresh_world).
Proof.
  split; [exact tz_UTC_ok|]. split; [reflexivity|]. split; [reflexivity|].
  exact (proj2 (X16_placeholder_date_is_never_due
                  (Examples.calm [] "Roses are red") (placeholder 0 "U1")
                  Examples.fresh_world tz_UTC_ok
                  ltac:(vm_compute; discriminate) eq_refl eq_refl)).
Defined.

End SchedulerDates.

(** ** What one run of the job does to the store *)
Section JobFrame.
Import Slack Effects Database Service Cron Integrity Logic.
Local Open Scope js_scope.

Lemma marks_refl {R : Type} `{MsgRow R} (rows : list R) :
  Forall2 marks rows rows.
Proof. induction rows; constructor; [now left | assumption]. Qed.

Lemma marks_trans {R : Type} `{MsgRow R} (a b c : list R) :
  Forall2 marks a b -> Forall2 marks b c -> Forall2 marks a c.
Proof.
  intros Hab. revert c. induction Hab as [|x y a b Hxy _ IH]; intros c Hbc.
  - inversion Hbc. constructor.
  - inversion Hbc as [|y' z b' c' Hyz Hbc']; subst.
    constructor; [|now apply IH].
    destruct Hxy as [->|[Hx ->]]; [exact Hyz|].
    destruct Hyz as [->|[Hy _]]; [right; auto|].
    rewrite sent_set_sent in Hy. discriminate.
Qed.

Lemma mark_sent_marks {R : Type} `{MsgRow R} (rows : list R) (cid : string) :
  Forall2 marks rows (fst (mark_sent rows cid)).
Proof.
  unfold mark_sent. cbn [fst].
  induction rows as [|r rows IH]; cbn [List.map]; constructor; [|exact IH].
  destruct (unsent_for cid r) eqn:Hu; [|now left].
  right. split; [|reflexivity].
  unfold unsent_for in Hu. apply andb_true_iff in Hu as [_ Hs].
  now apply negb_true_iff in Hs.
Qed.

Lemma only_marks_refl (d : db) : only_marks d d.
Proof. split; [reflexivity|]. split; apply marks_refl. Qed.

Lemma only_marks_trans (a b c : db) :
  only_marks a b -> only_marks b c -> only_marks a c.
Proof.
  intros [Hb1 [Hm1 Hd1]] [Hb2 [Hm2 Hd2]].
  split; [congruence|].
  split; eapply marks_trans; eassumption.
Qed.

Lemma markMessagesAsSent_only_marks (d : db) (cid : string) :
  only_marks d (snd (markMessagesAsSent d cid)).
Proof.
  split; [reflexivity|]. split.
  - apply (mark_sent_marks (birthday_messages d) cid).
  - apply marks_refl.
Qed.

Lemma markDescriptionMessagesAsSent_only_marks (d : db) (cid : string) :
  only_marks d (snd (markDescriptionMessagesAsSent d cid)).
Proof.
  split; [reflexivity|]. split.
  - apply marks_refl.
  - apply (mark_sent_marks (description_messages d) cid).
Qed.

Lemma hoare_for_of_in {A : Type} (I : world -> Prop) (l : list A)
  (body : A -> M unit) (T : js_error -> world -> Prop) :
  (forall x, In x l -> hoare I (body x) (fun _ => I) T) ->
  hoare I (for_of l body) (fun _ => I) T.
Proof.
  induction l as [|x l IH]; intros Hbody.
  - intros w Hw. exact Hw.
  - cbn [for_of]. apply hoare_bind with (Q := fun _ => I).
    + apply Hbody. now left.
    + intros _. apply IH. intros y Hy. apply Hbody. now right.
Qed.

Lemma known_of_row (d : db) (b : birthday_row) :
  In b (birthdays d) -> celebrant_known d (user_id b) = true.
Proof.
  intros Hin. unfold celebrant_known. apply List.existsb_exists.
  exists b. split; [exact Hin | apply String.eqb_refl].
Qed.

(** One record of the loop, the record being one of the store. *)
Lemma dispatch_only_marks (E : env) (d0 : db) (b : birthday_row) :
  In b (birthdays d0) ->
  hoare (fun w => only_marks d0 (w_db w)) (dispatch E b)
    (fun _ w => only_marks d0 (w_db w))
    (fun _ w => only_marks d0 (w_db w)).
Proof.
  intros Hin w Hw. rewrite dispatch_eq.
  assert (Hknown : celebrant_known (w_db w) (user_id b) = true).
  { apply known_of_row. destruct Hw as [-> _]. exact Hin. }
  destruct (diffDays (host_tz E) (london_wall E (w_calls w)) (birth_date b))
    as [[|[[[r|r|]|q|]|q|]|p]|]; cbv beta iota; try exact Hw.
  - (* offset 0: the thread *)
    unfold bind at 1. unfold log at 1.
    match goal with
    | |- context [postBirthdayThread E ?c ?w1] =>
        pose proof (postBirthdayThread_hoare E c (w_db w) w1 eq_refl) as Hthread;
        destruct (postBirthdayThread E c w1) as [[[]|e] w2]
    end; [|contradiction].
    cbv zeta in Hthread.
    pose proof (markDescriptionMessagesAsSent_only_marks (w_db w) (user_id b))
      as Hdd.
    pose proof (markMessagesAsSent_only_marks
                  (snd (markDescriptionMessagesAsSent (w_db w) (user_id b)))
                  (user_id b)) as Hfull.
    destruct Hthread as [-> | [e [rest [_ [_ [-> | ->]]]]]].
    + eapply only_marks_trans; [exact Hw|].
      eapply only_marks_trans; eassumption.
    + exact Hw.
    + eapply only_marks_trans; eassumption.
  - (* offset 7: the collection *)
    unfold bind at 1. unfold log at 1.
    match goal with
    | |- context [triggerBirthdayCollection E ?c ?w1] =>
        destruct (triggerBirthdayCollection_never_throws E c w1)
          as [[] [w2 Hrun]];
        destruct (triggerBirthdayCollection_db E c w1 w2 Hrun) as [Hdb _]
    end.
    rewrite Hrun. cbn [w_db add_console] in Hdb.
    rewrite Hknown in Hdb. now rewrite Hdb.
  - (* offset 1: the digest *)
    unfold bind, get_db, api_postMessage, ret.
    destruct (chat_postMessage E (w_calls w) _); exact Hw.
Qed.

(** X17. One run of the daily job never throws, and it adds, removes
    and reorders nothing in the store: the birthday records are as
    before, and every tribute and description is the row it was, or
    that row marked delivered. *)
Theorem X17_job_only_marks_rows_delivered :
  forall (E : env) (w : world),
    exists w',
      setupCronJobs_run E w = (Returned tt, w')
      /\ only_marks (w_db w) (w_db w').
Proof.
  intros E w.
  assert (Hh : hoare (fun w1 => w_db w1 = w_db w) (setupCronJobs_run E)
                 (fun _ w' => only_marks (w_db w) (w_db w'))
                 (fun _ _ => False)).
  { unfold setupCronJobs_run.
    apply hoare_try_catch
      with (T := fun _ w' => only_marks (w_db w) (w_db w')).
    - apply hoare_bind with (Q := fun _ w1 => w_db w1 = w_db w).
      + eapply hoare_weaken;
          [apply (keeps_db_hoare _ (w_db w)),
             cleanupDeactivatedUsers_keeps_db | auto | auto |].
        intros e w1 Hw1. cbv beta. rewrite Hw1. apply only_marks_refl.
      + intros _. apply hoare_get_db_bind.
        eapply hoare_weaken;
          [apply hoare_for_of_in
             with (I := fun w1 => only_marks (w_db w) (w_db w1))
                  (T := fun _ w1 => only_marks (w_db w) (w_db w1))
          | | auto | auto].
        * intros b Hb. apply dispatch_only_marks. exact Hb.
        * intros w1 Hw1. cbv beta. rewrite Hw1. apply only_marks_refl.
    - intros e w1 Hw1. exact Hw1. }
  specialize (Hh w eq_refl).
  destruct (setupCronJobs_run E w) as [[[]|e] w']; [|contradiction].
  exists w'. split; [reflexivity | exact Hh].
Qed.

End JobFrame.

(** ** Letter case in names *)
Section LetterCase.
Import Slack Commands Directory.

Lemma toLowerCase_app (a b : string) :
  JS.toLowerCase (a +:+ b) = JS.toLowerCase a +:+ JS.toLowerCase b.
Proof.
  induction a as [|c a IH]; [reflexivity|].
  change (String c a +:+ b) with (String c (a +:+ b)).
  cbn [JS.toLowerCase]. rewrite IH. reflexivity.
Qed.

Lemma is_space_lower_char (c : ascii) :
  JS.is_space (JS.lower_char c) = JS.is_space c.
Proof. destruct c as [[] [] [] [] [] [] [] []]; reflexivity. Qed.

Lemma toLowerCase_trimStart (s : string) :
  JS.toLowerCase (JS.trimStart s) = JS.trimStart (JS.toLowerCase s).
Proof.
  induction s as [|c s IH]; [reflexivity|].
  cbn [JS.trimStart JS.toLowerCase]. rewrite is_space_lower_char.
  destruct (JS.is_space c); [exact IH | reflexivity].
Qed.

Lemma toLowerCase_trimEnd (s : string) :
  JS.toLowerCase (JS.trimEnd s) = JS.trimEnd (JS.toLowerCase s).
Proof.
  induction s as [|c s IH]; [reflexivity|].
  cbn [JS.trimEnd JS.toLowerCase]. rewrite <- IH, is_space_lower_char.
  destruct (JS.trimEnd s) as [|c' r]; cbn [JS.toLowerCase].
  - destruct (JS.is_space c); reflexivity.
  - reflexivity.
Qed.

Lemma normalize_lower (s : string) :
  normalize s = JS.trim (JS.toLowerCase s).
Proof.
  unfold normalize, JS.trim.
  now rewrite toLowerCase_trimEnd, toLowerCase_trimStart.
Qed.

Lemma full_name_lower (firstName lastName : string) :
  full_name firstName lastName
  = JS.trim (JS.toLowerCase firstName +:+ " " +:+ JS.toLowerCase lastName).
Proof.
  unfold full_name. rewrite normalize_lower, !toLowerCase_app. reflexivity.
Qed.

(** X18. Name matching ignores letter case (of the letters A to Z) in
    what the caller types: two name pairs that are equal once
    lower-cased select the same member on every page and share one
    cache entry. *)
Theorem X18_name_matching_ignores_letter_case :
  forall (firstName lastName firstName' lastName' : string),
    JS.toLowerCase firstName = JS.toLowerCase firstName' ->
    JS.toLowerCase lastName = JS.toLowerCase lastName' ->
    (forall memberList,
       search_page memberList firstName lastName
       = search_page memberList firstName' lastName')
    /\ cache_key firstName lastName = cache_key firstName' lastName'.
Proof.
  intros f l f' l' Hf Hl.
  assert (Hfull : full_name f l = full_name f' l')
    by (rewrite !full_name_lower; congruence).
  assert (Hfirst : normalize f = normalize f')
    by (rewrite !normalize_lower; congruence).
  assert (Hlast : normalize l = normalize l')
    by (rewrite !normalize_lower; congruence).
  split; [|unfold cache_key; congruence].
  intros memberList.
  unfold search_page, by_real_name, by_real_name_normalized,
    by_display_name_normalized, by_first_name, by_last_name.
  now rewrite Hfull, Hfirst, Hlast.
Qed.

Lemma X18_name_matching_ignores_letter_case_witness :
  JS.toLowerCase "JANE" = JS.toLowerCase "jane"
  /\ JS.toLowerCase "Doe" = JS.toLowerCase "doe"
  /\ search_page [Examples.jane_doe; Examples.jane_smith] "JANE" "Doe"
     = search_page [Examples.jane_doe; Examples.jane_smith] "jane" "doe"
  /\ cache_key "JANE" "Doe" = cache_key "jane" "doe".
Proof.
  split; [reflexivity|]. split; [reflexivity|].
  destruct (X18_name_matching_ignores_letter_case "JANE" "Doe" "jane" "doe"
              eq_refl eq_refl) as [Hpage Hkey].
  split; [apply Hpage | exact Hkey].
Defined.

End LetterCase.

(** ** The days on which the loop acts *)
Section DueDays.
Import JSDate Calendar Cron.

Lemma falls_on_month (day month D : Z) :
  falls_on day month D -> 0 <= month - 1 <= 11.
Proof.
  intros [Hm _]. destruct (day_is_its_date D) as [Hr _].
  cbv zeta in Hr. now rewrite Hm in Hr.
Qed.

Lemma month_start_leap (m leap : Z) :
  0 <= leap <= 1 -> month_start m 0 <= month_start m leap <= month_start m 0 + leap.
Proof.
  intros Hl. unfold month_start.
  repeat match goal with
         | |- context [if ?c then _ else _] => destruct c
         end; lia.
Qed.

(** Two days that fall on the same day of the same month are the same
    day or at least 365 days apart. *)
Lemma same_day_month_a_year_apart (day month D1 D2 : Z) :
  falls_on day month D1 -> falls_on day month D2 -> D1 < D2 ->
  365 <= D2 - D1.
Proof.
  intros H1 H2 Hlt.
  pose proof (falls_on_month _ _ _ H1) as Hm.
  pose proof (falls_on_is_MakeDay _ _ _ H1) as E1.
  pose proof (falls_on_is_MakeDay _ _ _ H2) as E2.
  pose proof (YearFromDay_mono D1 D2 ltac:(lia)) as Hy.
  set (Y1 := YearFromDay D1) in *. set (Y2 := YearFromDay D2) in *.
  assert (Hne : Y1 <> Y2) by (intros Heq; rewrite Heq in E1; lia).
  rewrite MakeDay_in_year in E1, E2 by exact Hm.
  pose proof (InLeapYear_year_01 Y1) as Hl1.
  pose proof (InLeapYear_year_01 Y2) as Hl2.
  pose proof (month_start_leap (month - 1) (InLeapYear_year Y1) ltac:(lia)).
  pose proof (month_start_leap (month - 1) (InLeapYear_year Y2) ltac:(lia)).
  pose proof (DayFromYear_succ Y1) as Hs. rewrite DaysInYear_leap in Hs.
  assert (Hnext : DayFromYear (Y1 + 1) <= DayFromYear Y2).
  { destruct (Z.eq_dec (Y1 + 1) Y2) as [<-|Hne2]; [lia|].
    pose proof (DayFromYear_lt (Y1 + 1) Y2 ltac:(lia)). lia. }
  lia.
Qed.

(** For a stored day-month other than 29-02, the offset is [k] exactly
    [k] days before a day that falls on it, [k] being less than a
    year. *)
Lemma diffDays_is_k_iff (tz : timezone) (wall day month k : Z) :
  tz_ok tz ->
  0 <= wall ->
  Day (LocalTime tz (UTC tz wall)) = Day wall ->
  stored_day_month day month ->
  day_month day month <> "29-02" ->
  0 <= k < 365 ->
  (diffDays tz wall (day_month day month) = Some k
   <-> falls_on day month (Day wall + k)).
Proof.
  intros Htz Hpos Hwall Hst Hne Hk.
  apply not_leap_day in Hne.
  assert (Hd31 : 1 <= day <= 31).
  { destruct Hst as [Hm Hd].
    pose proof (days_in_month_le_31 (month - 1) 1 ltac:(lia)). lia. }
  destruct (day_month_parses day month Hd31 (proj1 Hst)) as [Hpd Hpm].
  rewrite (diffDays_midnight tz Htz wall _ month day Hpos Hwall Hpm Hpd).
  destruct (rolled_day_is_next_occurrence (Day wall) day month Hst Hne)
    as [Hroll [Hge [Hon Hfirst]]].
  cbv zeta in *. rewrite Hroll.
  set (Dt := Day wall) in *.
  set (D := if MakeDay (YearFromDay Dt) (month - 1) day <? Dt
            then MakeDay (YearFromDay Dt + 1) (month - 1) day
            else MakeDay (YearFromDay Dt) (month - 1) day) in *.
  split.
  - intros [= Hz]. replace (Dt + k) with D by lia. exact Hon.
  - intros Hk_on. f_equal.
    destruct (Z.lt_trichotomy D (Dt + k)) as [Hlt | [Heq | Hgt]]; [|lia|].
    + pose proof (same_day_month_a_year_apart _ _ _ _ Hon Hk_on Hlt). lia.
    + exfalso. apply (Hfirst (Dt + k)); [lia | exact Hk_on].
Qed.

End DueDays.

Section DueActions.
Import JSDate Calendar Slack Effects Database Service Cron.
Local Open Scope js_scope.

(** X19. For a member whose stored day-month is not 29-02, the loop
    body acts by the days left to the birthday, and the offset is [k]
    exactly [k] days before a day that falls on the day-month. Seven
    days before, it logs and runs the collection; one day before, it
    posts the digest, with the count of undelivered tributes, to the
    admin channel; on the day, it logs and posts the thread; on a day
    that is none of these it does nothing. *)
Theorem X19_offset_is_k_exactly_k_days_before :
  forall (E : env) (birthday : birthday_row) (w : world) (day month : Z),
    tz_ok (host_tz E) ->
    0 <= london_wall E (w_calls w) ->
    Day (LocalTime (host_tz E) (UTC (host_tz E) (london_wall E (w_calls w))))
    = Day (london_wall E (w_calls w)) ->
    stored_day_month day month ->
    day_month day month <> "29-02" ->
    birth_date birthday = day_month day month ->
    (forall k, 0 <= k < 365 ->
       (diffDays (host_tz E) (london_wall E (w_calls w)) (birth_date birthday)
        = Some k
        <-> falls_on day month (Day (london_wall E (w_calls w)) + k)))
    /\ (falls_on day month (Day (london_wall E (w_calls w)) + 7) ->
        dispatch E birthday w
        = (log ("Triggering collection for " +:+ user_id birthday) ;;;
           triggerBirthdayCollection E (user_id birthday)) w)
    /\ (falls_on day month (Day (london_wall E (w_calls w)) + 1) ->
        w_calls (snd (dispatch E birthday w))
        = PostMessage
            {| channel := ADMIN_CHANNEL E; thread_ts := None;
               text := show_Z (getBirthdayMessageCount (w_db w)
                                 (user_id birthday))
                       +:+ " messages collected for upcoming birthday" |}
          :: w_calls w
        /\ w_db (snd (dispatch E birthday w)) = w_db w)
    /\ (falls_on day month (Day (london_wall E (w_calls w))) ->
        dispatch E birthday w
        = (log ("Posting thread for " +:+ user_id birthday) ;;;
           postBirthdayThread E (user_id birthday)) w)
    /\ (~ falls_on day month (Day (london_wall E (w_calls w))) ->
        ~ falls_on day month (Day (london_wall E (w_calls w)) + 1) ->
        ~ falls_on day month (Day (london_wall E (w_calls w)) + 7) ->
        dispatch E birthday w = (Returned tt, w)).
Proof.
  intros E birthday w day month Htz Hpos Hwall Hst Hne Hdate.
  assert (Hiff : forall k, 0 <= k < 365 ->
    (diffDays (host_tz E) (london_wall E (w_calls w)) (birth_date birthday)
     = Some k
     <-> falls_on day month (Day (london_wall E (w_calls w)) + k))).
  { intros k Hk. rewrite Hdate. now apply diffDays_is_k_iff. }
  split; [exact Hiff|]. split; [|split; [|split]].
  - intros Hon. apply (Hiff 7 ltac:(lia)) in Hon.
    rewrite dispatch_eq, Hon. reflexivity.
  - intros Hon. apply (Hiff 1 ltac:(lia)) in Hon.
    rewrite dispatch_eq, Hon. unfold bind, get_db, api_postMessage, ret.
    destruct (chat_postMessage E (w_calls w) _); split; reflexivity.
  - intros Hon. rewrite <- (Z.add_0_r (Day _)) in Hon.
    apply (Hiff 0 ltac:(lia)) in Hon.
    rewrite dispatch_eq, Hon. reflexivity.
  - intros H0 H1 H7.
    rewrite dispatch_eq.
    destruct (diffDays (host_tz E) (london_wall E (w_calls w))
                (birth_date birthday)) as [z|] eqn:Hz; [|reflexivity].
    assert (Hz0 : z <> 0).
    { intros ->. apply H0. rewrite <- (Z.add_0_r (Day _)).
      now apply (Hiff 0 ltac:(lia)). }
    assert (Hz1 : z <> 1).
    { intros ->. apply H1. now apply (Hiff 1 ltac:(lia)). }
    assert (Hz7 : z <> 7).
    { intros ->. apply H7. now apply (Hiff 7 ltac:(lia)). }
    destruct z as [|[[[r|r|]|q|]|q|]|p]; try lia; reflexivity.
Qed.

Lemma X19_offset_is_k_exactly_k_days_before_witness :
  tz_ok (host_tz (Examples.calm [] "Roses are red"))
  /\ stored_day_month 8 6
  /\ falls_on 8 6
       (Day (london_wall (Examples.calm [] "Roses are red")
               (w_calls Examples.fresh_world)) + 7)
  /\ dispatch (Examples.calm [] "Roses are red")
       (Examples.birthday_of "U1" "08-06") Examples.fresh_world
     = (log "Triggering collection for U1" ;;;
        triggerBirthdayCollection (Examples.calm [] "Roses are red") "U1")
         Examples.fresh_world.
Proof.
  assert (Hst : stored_day_month 8 6).
  { unfold stored_day_month. change (days_in_month (6 - 1) 1) with 30. lia. }
  assert (Hon : falls_on 8 6
                  (Day (london_wall (Examples.calm [] "Roses are red")
                          (w_calls Examples.fresh_world)) + 7))
    by (split; reflexivity).
  split; [exact tz_UTC_ok|]. split; [exact Hst|]. split; [exact Hon|].
  exact (proj1 (proj2 (X19_offset_is_k_exactly_k_days_before
                         (Examples.calm [] "Roses are red")
                         (Examples.birthday_of "U1" "08-06")
                         Examples.fresh_world 8 6 tz_UTC_ok
                         ltac:(vm_compute; discriminate) eq_refl Hst
                         ltac:(discriminate) eq_refl)) Hon).
Defined.

End DueActions.


(** ** The directory as the cleanup reads it *)
Section DirectoryPages.
Import Slack Effects Database Cron Directory.
Local Open Scope js_scope.

Lemma fetch_all_users_serves (E : env) :
  forall (left : nat) (pages : list (list member)) (cursor : option string)
         (acc : list member) (w : world),
    truthy_cursor cursor = cursor ->
    serves E (w_calls w) cursor pages ->
    exists w',
      fetch_all_users E left cursor acc w
      = (Returned (acc ++ List.concat (List.firstn left pages)), w').
Proof.
  induction left as [|n IH]; intros pages cursor acc w Hcur Hserve.
  - cbn [fetch_all_users List.firstn List.concat]. rewrite List.app_nil_r.
    unfold bind, log, ret. eauto.
  - destruct pages as [|page later]; [destruct Hserve|].
    destruct Hserve as [next [Hlist Hlater]].
    cbn [fetch_all_users List.firstn List.concat].
    unfold bind at 1. unfold try_catch. unfold api_users_list.
    rewrite Hcur, Hlist. cbn [members next_cursor].
    destruct later as [|page2 later'].
    + rewrite Hlater. unfold ret. cbn [List.firstn List.concat].
      destruct n; cbn [List.firstn List.concat]; rewrite List.app_nil_r; eauto.
    + destruct Hlater as [Hnext Hrest].
      destruct (truthy_cursor next) as [c|] eqn:Hc; [|contradiction].
      destruct (IH (page2 :: later') (Some c) (acc ++ page)
                  (add_call w (UsersList cursor))) as [w' Hrun].
      * now apply truthy_cursor_some with (c := next).
      * exact Hrest.
      * exists w'. rewrite Hrun. now rewrite <- List.app_assoc.
Qed.

(** X20. When the platform serves the directory in pages, the cleanup
    phase reads the members of the first ten pages, page after page in
    the order served, following each page's cursor; a directory of at
    most ten pages is read whole. *)
Theorem X20_cleanup_reads_the_first_ten_pages :
  forall (E : env) (w : world) (pages : list (list member)),
    serves E (w_calls w) None pages ->
    exists w',
      fetch_all_users E maxSearchAttempts None [] w
      = (Returned (List.concat (List.firstn 10 pages)), w')
      /\ ((List.length pages <= 10)%nat ->
          List.concat (List.firstn 10 pages) = List.concat pages).
Proof.
  intros E w pages Hserve.
  destruct (fetch_all_users_serves E maxSearchAttempts pages None [] w
              eq_refl Hserve) as [w' Hrun].
  exists w'. split; [exact Hrun|].
  intros Hlen. now rewrite List.firstn_all2.
Qed.

Lemma X20_cleanup_reads_the_first_ten_pages_witness :
  serves Examples.one_page (w_calls Examples.fresh_world) None
    [[Examples.jane_doe; Examples.jane_smith]]
  /\ exists w',
       fetch_all_users Examples.one_page maxSearchAttempts None []
         Examples.fresh_world
       = (Returned [Examples.jane_doe; Examples.jane_smith], w').
Proof.
  assert (Hserve : serves Examples.one_page (w_calls Examples.fresh_world) None
                     [[Examples.jane_doe; Examples.jane_smith]]).
  { simpl. exists None. split; reflexivity. }
  split; [exact Hserve|].
  destruct (X20_cleanup_reads_the_first_ten_pages Examples.one_page
              Examples.fresh_world _ Hserve) as [w' [Hrun _]].
  exists w'. exact Hrun.
Defined.

End DirectoryPages.
